(** * SIET bus tracking: progress engine, live-location observers,
      recipient resolver and trip-start relay client

    A shallow embedding of the JavaScript sources

    - [src/screens/MapScreen.js]              ([haversineDistance], [routeProgress],
                                               the [subscribeToBusLocation] callbacks),
    - [src/screens/BusLiveTrackingScreen.js]  (the [subscribeToBusLocation] callback),
    - the recipient repository                ([getRecipientsByBus], [getRecipientsByRole],
                                               [getTokensForUser], [removeTokens]),
    - [src/services/firebaseConfig.js]        ([notifyBusTrackingStarted]),
    - [src/services/backendClient.js]         ([postJson]),

    followed by the properties of the design document that are checked
    against them. *)

From Stdlib Require Import Ascii QArith Qcanon Qcabs Qround Qpower Lqa.
From stdpp Require Import base decidable option numbers list strings pretty gmap.

Local Open Scope Z_scope.

(* ===================================================================== *)
(** * JavaScript values *)
(* ===================================================================== *)

Module JS.

(** ** Numbers

    A JavaScript number is an IEEE-754 double.  A number is modelled by
    its value: a finite value is an (exact, canonical) rational, next to
    the two infinities and NaN.  Comparisons follow the language: every
    comparison with NaN is false.  Comparisons, [Math.max], [Math.min] and
    [Math.round] are exact on doubles; a division is not, and rounds its
    exact result to a double (see [div] below). *)

Inductive num : Type :=
  | Fin (q : Qc)
  | PosInf
  | NegInf
  | NaN.

#[global] Instance num_eq_dec : EqDecision num.
Proof. solve_decision. Defined.

Definition ofZ (z : Z) : num := Fin (Qc_of_Z z).
Definition ratio (n : Z) (d : positive) : Qc := Q2Qc (n # d).

(** [a < b] *)
Definition ltb (a b : num) : bool :=
  match a, b with
  | NaN, _ | _, NaN => false
  | Fin x, Fin y => bool_decide (x < y)%Qc
  | NegInf, Fin _ | NegInf, PosInf | Fin _, PosInf => true
  | _, _ => false
  end.

(** [a <= b] *)
Definition leb (a b : num) : bool :=
  match a, b with
  | NaN, _ | _, NaN => false
  | Fin x, Fin y => bool_decide (x ≤ y)%Qc
  | NegInf, _ | _, PosInf => true
  | _, _ => false
  end.

Definition is_nan (a : num) : bool :=
  match a with NaN => true | _ => false end.

Definition is_finite (a : num) : bool :=
  match a with Fin _ => true | _ => false end.

(** [Math.max] and [Math.min] of two numbers: NaN if either is NaN. *)
Definition max2 (a b : num) : num :=
  if is_nan a || is_nan b then NaN else if ltb a b then b else a.

Definition min2 (a b : num) : num :=
  if is_nan a || is_nan b then NaN else if ltb b a then b else a.

(** ** Double arithmetic

    The finite doubles are the rationals [m * 2^e] with [|m| < 2^53] and
    [-1074 <= e <= 971].  An arithmetic operation on doubles gives the
    exact result rounded to a double, or an infinity when the result lies
    beyond the doubles.  The rounding is a parameter [fl] of the
    definitions that divide; round-to-nearest, which the language
    prescribes, is monotone and leaves every double as it is. *)

Definition pow2 (e : Z) : Qc :=
  if bool_decide (0 ≤ e) then Qc_of_Z (2 ^ e) else (1 / Qc_of_Z (2 ^ (- e)))%Qc.

Definition double (q : Qc) : Prop :=
  ∃ m e : Z, Z.abs m < 2 ^ 53 ∧ -1074 ≤ e ≤ 971 ∧ q = (Qc_of_Z m * pow2 e)%Qc.

Definition monotone (fl : Qc → num) : Prop :=
  ∀ x y, (x ≤ y)%Qc → leb (fl x) (fl y) = true.

Definition keeps_doubles (fl : Qc → num) : Prop :=
  ∀ q, double q → fl q = Fin q.

(** [a / b] for a finite divisor [b] other than zero (the divisors of the
    code under study are positive). *)
Definition div (fl : Qc → num) (a : num) (b : Qc) : num :=
  match a with
  | Fin x => fl (x / b)%Qc
  | PosInf => if bool_decide (0 < b)%Qc then PosInf else NegInf
  | NegInf => if bool_decide (0 < b)%Qc then NegInf else PosInf
  | NaN => NaN
  end.

(** The double written [0.1]. *)
Definition one_tenth : Qc := Q2Qc (3602879701896397 # 36028797018963968).

(** Round-to-nearest, ties to even, to the 53 bits of a double: the
    rounding of the engines, for evaluating the definitions on given
    numbers.  [round_half_even n d] is the integer nearest to [n / d]. *)
Definition round_half_even (n d : Z) : Z :=
  let q := n / d in
  match 2 * (n mod d) ?= d with
  | Lt => q
  | Gt => q + 1
  | Eq => if Z.even q then q else q + 1
  end.

(** The exponent [e] of a positive number: [2^e <= q < 2^(e+1)]. *)
Definition exponent (q : Qc) : Z :=
  let e0 := Z.log2 (Qnum q) - Z.log2 (Z.pos (Qden q)) in
  if bool_decide (pow2 e0 ≤ q)%Qc then e0 else e0 - 1.

(** The exponent of the last place of the doubles around [q]: 52 places
    below the first, and -1074 at least. *)
Definition last_place (q : Qc) : Z := Z.max (exponent q - 52) (-1074).

(** The integer nearest to [q / 2^k]. *)
Definition significand (q : Qc) (k : Z) : Z :=
  round_half_even (Qnum q * 2 ^ Z.max (- k) 0) (Z.pos (Qden q) * 2 ^ Z.max k 0).

Definition binary64_positive (q : Qc) : num :=
  let k := last_place q in
  let m := significand q k in
  if bool_decide (0 ≤ k) && bool_decide (2 ^ 1024 ≤ m * 2 ^ k) then PosInf
  else Fin (Qc_of_Z m * pow2 k)%Qc.

Definition binary64 (q : Qc) : num :=
  if bool_decide (q = 0%Qc) then Fin 0%Qc
  else if bool_decide (0 < q)%Qc then binary64_positive q
  else match binary64_positive (- q)%Qc with
       | Fin x => Fin (- x)%Qc
       | _ => NegInf
       end.

(** [String(n)], [`${n}`]: an integer below [10^21] is written in decimal
    digits; the digits of the other finite numbers are left to the engine
    ([render]). *)
Definition NumberToString (render : Qc → string) (n : num) : string :=
  match n with
  | Fin q =>
      if bool_decide (Qden q = 1%positive) && bool_decide (Z.abs (Qnum q) < 10 ^ 21)
      then pretty (Qnum q)
      else render q
  | PosInf => "Infinity"
  | NegInf => "-Infinity"
  | NaN => "NaN"
  end.

(** ** Values

    The values a Firestore document field or a function argument can hold:
    [undefined] (a missing field), [null], booleans, numbers, strings and
    objects.  The code only tests an object for truthiness and, in
    [Number(...)], coerces it: an object is modelled by the number it
    coerces to (NaN for a plain object, the number of the element for an
    array of one element, 0 for the empty array). *)

Inductive value : Type :=
  | Undefined
  | Null
  | Bool (b : bool)
  | Num (n : num)
  | Str (s : string)
  | Object (toNumber : num).

#[global] Instance value_eq_dec : EqDecision value.
Proof. solve_decision. Defined.

(** [Boolean(v)], the truthiness of [v]. *)
Definition truthy (v : value) : bool :=
  match v with
  | Undefined | Null => false
  | Bool b => b
  | Num (Fin q) => negb (bool_decide (q = 0%Qc))
  | Num NaN => false
  | Num _ => true
  | Str s => negb (bool_decide (s = EmptyString))
  | Object _ => true
  end.

(** [a ?? b] *)
Definition nullish (a b : value) : value :=
  match a with
  | Undefined | Null => b
  | _ => a
  end.

(** [a && b] *)
Definition and (a b : value) : value := if truthy a then b else a.

(** [a || b] *)
Definition or (a b : value) : value := if truthy a then a else b.

(** [Number.isFinite(v)]: no coercion, only a finite number passes. *)
Definition Number_isFinite (v : value) : bool :=
  match v with
  | Num n => is_finite n
  | _ => false
  end.

Section Coercion.

(** The numeric value of a string literal ([Number("12.5")]); the grammar
    of numeric strings is left to the engine. *)
Variable StringToNumber : string → num.

(** [Number(v)] *)
Definition Number (v : value) : num :=
  match v with
  | Undefined => NaN
  | Null => ofZ 0
  | Bool b => if b then ofZ 1 else ofZ 0
  | Num n => n
  | Str s => StringToNumber s
  | Object toNumber => toNumber
  end.

End Coercion.

End JS.

(* ===================================================================== *)
(** * Asynchronous code *)
(* ===================================================================== *)

(** An [async] function over a store [S]: it runs to a returned value or to
    a thrown error, and leaves the store in some state either way. *)

Module Async.

Inductive Outcome (A : Type) : Type :=
  | Returned (a : A)
  | Thrown (message : string).

Arguments Returned {A} a.
Arguments Thrown {A} message.

Definition M (S A : Type) : Type := S → Outcome A * S.

#[global] Instance M_ret (S : Type) : MRet (M S) :=
  λ A a s, (Returned a, s).

#[global] Instance M_bind (S : Type) : MBind (M S) :=
  λ A B k m s,
    match m s with
    | (Returned a, s') => k a s'
    | (Thrown e, s') => (Thrown e, s')
    end.

(** [throw new Error(message)] *)
Definition throw {S A : Type} (message : string) : M S A :=
  λ s, (Thrown message, s).

(** [try { body } catch (error) { handler(error) }] *)
Definition try_catch {S A : Type} (body : M S A) (handler : string → M S A) : M S A :=
  λ s,
    match body s with
    | (Returned a, s') => (Returned a, s')
    | (Thrown e, s') => handler e s'
    end.

Definition get {S : Type} : M S S := λ s, (Returned s, s).
Definition modify {S : Type} (f : S → S) : M S unit := λ s, (Returned tt, f s).

End Async.

(* ===================================================================== *)
(** * The record delivered by [subscribeToBusLocation] *)
(* ===================================================================== *)

Module LocationService.

Import JS.

(** [currentLocation].  A field that is missing reads [Undefined]. *)
Record Coords : Type := mkCoords {
  latitude : value;
  longitude : value;
  coords_speed : value;
  coords_heading : value;
}.

(** The tracking record of a bus.  [currentLocation] is [None] when the
    field is missing, [null] or a falsy primitive; a truthy primitive has
    none of the four properties and reads like an empty object. *)
Record Snapshot : Type := mkSnapshot {
  isTracking : value;
  activeTrackingSession : value;
  trackingSessionId : value;
  currentLocation : option Coords;
  speed : value;
  heading : value;
  lastUpdate : value;
  driverName : value;
  accuracy : value;
}.

(** [record?.field], for a record that may be [null] or [undefined]. *)
Definition opt {A : Type} (record : option A) (field : A → value) : value :=
  from_option field Undefined record.

End LocationService.

(* ===================================================================== *)
(** * The progress engine of [MapScreen] *)
(* ===================================================================== *)

Module MapScreen.

Import JS.

Definition ARRIVAL_DISTANCE_THRESHOLD : num := ofZ 140. (* meters *)

(** A route stop.  [normaliseRouteStops] only lets finite coordinates
    through, the default stop table is not constrained; [time] is the
    optional scheduled time. *)
Record RouteStop : Type := mkStop {
  stop_id : string;
  stop_name : string;
  stop_latitude : value;
  stop_longitude : value;
  stop_time : option string;
}.

(** The [busLocation] state, as the subscriber callback builds it: every
    number in it has passed a finiteness test. *)
Record BusLocation : Type := mkBus {
  bus_latitude : Qc;
  bus_longitude : Qc;
  bus_speed : Qc;
  bus_heading : Qc;
  bus_updatedAt : value;
}.

(** [haversineDistance] reads [latitude] and [longitude] off either kind
    of point. *)
Class Located (A : Type) : Type := coordinates : A → value * value.

#[global] Instance stop_located : Located RouteStop :=
  λ s, (stop_latitude s, stop_longitude s).
#[global] Instance bus_located : Located BusLocation :=
  λ b, (Num (Fin (bus_latitude b)), Num (Fin (bus_longitude b))).

Inductive Status : Type := completed | current | next | upcoming.

#[global] Instance Status_eq_dec : EqDecision Status.
Proof. solve_decision. Defined.

Record EnrichedStop : Type := mkEnriched {
  e_stop : RouteStop;
  e_distanceMeters : option num;          (* [null] when there is no bus location *)
}.

Record DecoratedStop : Type := mkDecorated {
  d_stop : RouteStop;
  distanceMeters : option num;
  status : Status;
  etaLabel : string;
}.

Record Progress : Type := mkProgress {
  stops : list DecoratedStop;
  currentIndex : Z;
  nextIndex : Z;
}.

(** [Array.prototype.reduce] with the three-argument callback
    [(accumulator, element, index)]. *)
Fixpoint reduce_from {A B : Type} (f : B → A → nat → B) (idx : nat) (l : list A) (acc : B) : B :=
  match l with
  | [] => acc
  | x :: rest => reduce_from f (S idx) rest (f acc x idx)
  end.

Definition reduce {A B : Type} (f : B → A → nat → B) (l : list A) (init : B) : B :=
  reduce_from f 0 l init.

(** [distances[i]] in a comparison: an index out of range reads
    [undefined], which compares like NaN. *)
Definition at_index (distances : list num) (i : nat) : num :=
  default NaN (distances !! i).

(** [distances.reduce((best, distance, idx) => (distance < distances[best] ? idx : best), 0)] *)
Definition nearest_step (distances : list num) (best : nat) (distance : num) (idx : nat) : nat :=
  if ltb distance (at_index distances best) then idx else best.

Definition nearestIndex (distances : list num) : nat :=
  reduce (nearest_step distances) distances 0%nat.

Definition nearestDistance (distances : list num) : num :=
  at_index distances (nearestIndex distances).

Definition isAtStop (distances : list num) : bool :=
  leb (nearestDistance distances) ARRIVAL_DISTANCE_THRESHOLD.

Definition Qc_max (a b : Qc) : Qc := if bool_decide (a < b)%Qc then b else a.

(** [Math.round] on a finite value: the nearest integer, halves upwards. *)
Definition Math_round (q : Qc) : Z := Qfloor (q + ratio 1 2)%Qc.

(** [Math.round] on any number: the infinities and NaN are left. *)
Definition Math_round_num (a : num) : num :=
  match a with
  | Fin q => ofZ (Math_round q)
  | _ => a
  end.

Section Eta.

(** The rounding of a quotient to a double, and the digits of a number
    that is no integer below [10^21]. *)
Variable fl : Qc → num.
Variable render : Qc → string.

(** The local [minutes] of [etaForDistance], for a finite distance:
    [Math.max(Math.round((distance / Math.max(busSpeed, 0.1)) / 60), 1)]. *)
Definition etaMinutes (busSpeed distance : Qc) : num :=
  max2 (Math_round_num (div fl (div fl (Fin distance) (Qc_max busSpeed one_tenth)) (Qc_of_Z 60)))
       (ofZ 1).

(** The closure [etaForDistance] of [routeProgress]; [busSpeed] is the
    variable it captures. *)
Definition etaForDistance (busSpeed : Qc) (distance : option num) : string :=
  match distance with
  | Some (Fin d) =>
      if bool_decide (busSpeed ≤ ratio 1 2)%Qc then "Awaiting movement"
      else
        let minutes := etaMinutes busSpeed d in
        if leb minutes (ofZ 1) then "Arriving now"
        else "Arriving in " +:+ NumberToString render minutes +:+ " min"
  | _ => ""
  end.

End Eta.

Section Progress.

(** The trigonometric part of [haversineDistance],
    [EARTH_RADIUS * 2 * atan2(sqrt a, sqrt (1 - a))], of four finite
    coordinates [lat1 lon1 lat2 lon2]. *)
Variable greatCircle : Qc → Qc → Qc → Qc → num.

(** The rounding of a quotient and the digits of a number, as in
    [etaForDistance]. *)
Variable fl : Qc → num.
Variable render : Qc → string.

Definition haversineDistance {A B : Type} `{Located A, Located B} (pointA : A) (pointB : B) : num :=
  match coordinates pointA, coordinates pointB with
  | (Num (Fin lat1), Num (Fin lon1)), (Num (Fin lat2), Num (Fin lon2)) =>
      greatCircle lat1 lon1 lat2 lon2
  | _, _ => PosInf
  end.

Definition enrich (busLocation : option BusLocation) (stop : RouteStop) : EnrichedStop :=
  {| e_stop := stop;
     e_distanceMeters :=
       match busLocation with
       | Some bus => Some (haversineDistance bus stop)
       | None => None
       end |}.

(** [busSpeed = Number(busLocation?.speed ?? 0)] *)
Definition busSpeed (busLocation : option BusLocation) : Qc :=
  match busLocation with
  | Some bus => bus_speed bus
  | None => 0%Qc
  end.

(** The stop labels of the branch without a live position. *)
Definition idle_stop (index : nat) (stop : EnrichedStop) : DecoratedStop :=
  {| d_stop := e_stop stop;
     distanceMeters := e_distanceMeters stop;
     status := if bool_decide (index = 0%nat) then next else upcoming;
     etaLabel :=
       match stop_time (e_stop stop) with
       | Some (String c t) => "ETA " +:+ String c t
       | _ => "Upcoming stop"
       end |}.

(** The entries of [distances]. *)
Definition distance_of (stop : EnrichedStop) : num :=
  default PosInf (e_distanceMeters stop).

(** The status assignment inside the callback of [decoratedStops]:
    [upcoming], overwritten by [completed] up to [lastCompletedIndex],
    overwritten by [current] or else by [next]. *)
Definition stop_status (atStop : bool) (nearest nextIdx lastCompleted : Z) (idx : nat) : Status :=
  let status := if bool_decide (Z.of_nat idx ≤ lastCompleted) then completed else upcoming in
  if atStop && bool_decide (Z.of_nat idx = nearest) then current
  else if bool_decide (Z.of_nat idx = nextIdx) then next
  else status.

(** The callback of [decoratedStops]. *)
Definition decorate (speed : Qc) (atStop : bool) (nearest nextIdx lastCompleted : Z)
    (idx : nat) (stop : EnrichedStop) : DecoratedStop :=
  let status := stop_status atStop nearest nextIdx lastCompleted idx in
  {| d_stop := e_stop stop;
     distanceMeters := e_distanceMeters stop;
     status := status;
     etaLabel :=
       match status with
       | completed =>
           match stop_time (e_stop stop) with
           | Some (String c t) => "Departed at " +:+ String c t
           | _ => "Departed"
           end
       | current => "At stop"
       | next => etaForDistance fl render speed (e_distanceMeters stop)
       | upcoming =>
           match stop_time (e_stop stop) with
           | Some (String c t) => "Scheduled " +:+ String c t
           | _ => "Upcoming stop"
           end
       end |}.

(** The memoised value [routeProgress]. *)
Definition routeProgress (routeStops : list RouteStop) (busLocation : option BusLocation)
    (isBusTracking : bool) : Progress :=
  if bool_decide (length routeStops = 0%nat) then
    {| stops := []; currentIndex := -1; nextIndex := -1 |}
  else
    let enrichedStops := enrich busLocation <$> routeStops in
    if negb (bool_decide (is_Some busLocation)) || negb isBusTracking then
      {| stops := imap idle_stop enrichedStops;
         currentIndex := -1;
         nextIndex := if bool_decide (length enrichedStops ≠ 0%nat) then 0 else -1 |}
    else
      let distances := distance_of <$> enrichedStops in
      let nearest := Z.of_nat (nearestIndex distances) in
      let atStop := isAtStop distances in
      let currentIdx := if atStop then nearest else -1 in
      let nextIdx0 := if atStop then nearest + 1 else nearest in
      let nextIdx := if bool_decide (Z.of_nat (length enrichedStops) ≤ nextIdx0) then -1 else nextIdx0 in
      let lastCompleted := Z.max (nearest - 1) (-1) in
      {| stops := imap (decorate (busSpeed busLocation) atStop nearest nextIdx lastCompleted) enrichedStops;
         currentIndex := currentIdx;
         nextIndex := nextIdx |}.

(** The array [distances] of the tracked branch. *)
Definition stop_distances (routeStops : list RouteStop) (bus : BusLocation) : list num :=
  distance_of <$> (enrich (Some bus) <$> routeStops).

End Progress.

(** ** The subscriber of [MapScreen] *)

(** The two pieces of state the subscriber writes. *)
Record ScreenState : Type := mkState {
  busLocation : option BusLocation;
  isBusTracking : bool;
}.

(** [Number.isFinite(n) ? n : 0] *)
Definition finite_or_zero (n : num) : Qc :=
  match n with Fin q => q | _ => 0%Qc end.

Section Subscriber.

Import LocationService.

Variable StringToNumber : string → num.
Variable now : value.                     (* [Date.now()] *)

Definition sessionMarker (snapshot : option Snapshot) : value :=
  nullish (opt snapshot activeTrackingSession) (opt snapshot trackingSessionId).

Definition trackingActive (snapshot : option Snapshot) : bool :=
  truthy (and (opt snapshot isTracking)
              (if decide (sessionMarker snapshot ≠ Undefined)
               then sessionMarker snapshot
               else opt snapshot isTracking)).

Definition hasValidCoords (snapshot : option Snapshot) : bool :=
  let coords := snapshot ≫= currentLocation in
  Number_isFinite (opt coords latitude) && Number_isFinite (opt coords longitude).

(** The success callback passed to [subscribeToBusLocation]. *)
Definition onSnapshot (snapshot : option Snapshot) (st : ScreenState) : ScreenState :=
  let coords := snapshot ≫= currentLocation in
  if trackingActive snapshot && hasValidCoords snapshot then
    let normalizedSpeed :=
      Number StringToNumber (nullish (opt snapshot speed) (nullish (opt coords coords_speed) (Num (ofZ 0)))) in
    let normalizedHeading :=
      Number StringToNumber (nullish (opt snapshot heading) (nullish (opt coords coords_heading) (Num (ofZ 0)))) in
    {| busLocation :=
         Some {| bus_latitude := finite_or_zero (Number StringToNumber (opt coords latitude));
                 bus_longitude := finite_or_zero (Number StringToNumber (opt coords longitude));
                 bus_speed := finite_or_zero normalizedSpeed;
                 bus_heading := finite_or_zero normalizedHeading;
                 bus_updatedAt := or (opt snapshot lastUpdate) now |};
       isBusTracking := true |}
  else
    {| busLocation := None; isBusTracking := false |}.

(** The error callback. *)
Definition onError (st : ScreenState) : ScreenState :=
  {| busLocation := None; isBusTracking := false |}.

End Subscriber.

(** A planar stand-in for the great-circle term, in meters per unit of
    coordinate; it instantiates the statements below on concrete routes. *)
Definition planar (lat1 lon1 lat2 lon2 : Qc) : num :=
  Fin (Qcabs (lat2 - lat1) + Qcabs (lon2 - lon1))%Qc.

Definition stopAt (name : string) (lat lon : Z) : RouteStop :=
  mkStop name name (Num (ofZ lat)) (Num (ofZ lon)) None.

Definition busAt (lat lon : Z) (speed : Qc) : BusLocation :=
  mkBus (Qc_of_Z lat) (Qc_of_Z lon) speed 0%Qc Undefined.


End MapScreen.

(* ===================================================================== *)
(** * The subscriber of [BusLiveTrackingScreen] *)
(* ===================================================================== *)

Module BusLiveTrackingScreen.

Import JS LocationService.

(** [newLocation]: the fields are copied from the record as they are. *)
Record LiveLocation : Type := mkLive {
  loc_latitude : value;
  loc_longitude : value;
  loc_timestamp : value;
  loc_driverName : value;
  loc_isTracking : bool;
  loc_speed : value;
  loc_accuracy : value;
  loc_heading : value;
}.

Record ScreenState : Type := mkState {
  busLocation : option LiveLocation;
  loading : bool;
}.

Definition isTrackingActive (locationData : option Snapshot) : bool :=
  truthy (and (opt locationData isTracking)
              (nullish (opt locationData activeTrackingSession)
                 (nullish (opt locationData trackingSessionId) (opt locationData isTracking)))).

Section Subscriber.

Variable busDriver : value.               (* [bus.driver] of the route parameters *)

(** The success callback passed to [subscribeToBusLocation]; the camera
    animation and the log lines are left out. *)
Definition onLocation (locationData : option Snapshot) (st : ScreenState) : ScreenState :=
  match locationData, locationData ≫= currentLocation, isTrackingActive locationData with
  | Some data, Some location, true =>
      {| busLocation :=
           Some {| loc_latitude := latitude location;
                   loc_longitude := longitude location;
                   loc_timestamp := lastUpdate data;
                   loc_driverName := or (or (driverName data) busDriver) (Str "Driver");
                   loc_isTracking := isTrackingActive locationData;
                   loc_speed := speed data;
                   loc_accuracy := accuracy data;
                   loc_heading := or (heading data) (Num (ofZ 0)) |};
         loading := false |}
  | Some _, _, false =>                   (* bus stopped tracking: clear the map *)
      {| busLocation := None; loading := false |}
  | _, _, _ =>
      {| busLocation := None; loading := false |}
  end.

(** The error callback only ends the loading state. *)
Definition onError (st : ScreenState) : ScreenState :=
  {| busLocation := busLocation st; loading := false |}.

End Subscriber.

(** The bus marker and the LIVE card are rendered under
    [busLocation && busLocation.isTracking]. *)
Definition showsLiveMarker (st : ScreenState) : bool :=
  match busLocation st with
  | Some location => loc_isTracking location
  | None => false
  end.

(** [Number(x) || 0], the coercion [toLngLat] applies to a coordinate. *)
Definition toCoordinate (StringToNumber : string → num) (x : value) : num :=
  match Number StringToNumber x with
  | NaN => ofZ 0
  | n => n
  end.

End BusLiveTrackingScreen.

(* ===================================================================== *)
(** * The recipient repository (server side) *)
(* ===================================================================== *)

Module RecipientRepository.

Import JS Async.

Definition USERS_COLLECTION : string := "users".
Definition TARGET_ROLES : list string := ["student"; "coadmin"; "incharge"].

(** The fields of a user document the repository reads.  [role] is [None]
    when the field is missing or [null]; [fcmTokens] is [None] when the
    field is missing or is not an array. *)
Record UserData : Type := mkUser {
  role : option string;
  busNumber : value;
  fcmTokens : option (list value);
}.

(** The [users] collection, by document id, and the server console. *)
Record World : Type := mkWorld {
  users : gmap string UserData;
  console : list string;
}.

Record Recipient : Type := mkRecipient {
  uid : string;
  recipient_role : string;
  recipient_busNumber : value;             (* [Undefined] in a lookup by role *)
  tokens : list value;
}.

(** [String.prototype.toLowerCase].  On a string of ASCII characters it
    changes the letters A to Z and nothing else; what it makes of a string
    with other characters is left to the engine ([lower]). *)
Definition lower_ascii (c : Ascii.ascii) : Ascii.ascii :=
  let n := Ascii.N_of_ascii c in
  if ((65 <=? n) && (n <=? 90))%N then Ascii.ascii_of_N (n + 32) else c.

Fixpoint lower_letters (s : string) : string :=
  match s with
  | EmptyString => EmptyString
  | String c rest => String (lower_ascii c) (lower_letters rest)
  end.

Definition ascii_only (s : string) : bool :=
  forallb (λ c, (Ascii.N_of_ascii c <? 128)%N) (String.list_ascii_of_string s).

Definition toLowerCase (lower : string → string) (s : string) : string :=
  if ascii_only s then lower_letters s else lower s.

(** [Array.isArray(data.fcmTokens) ? data.fcmTokens.filter(Boolean) : []] *)
Definition cleanTokens (data : UserData) : list value :=
  match fcmTokens data with
  | Some array => filter (λ token, truthy token = true) array
  | None => []
  end.

(** [db.collection(USERS_COLLECTION).where(field, '==', x).get()]: the
    documents that satisfy the condition.  The document store answers every
    query; the order of the documents is the store's. *)
Definition where_get (condition : UserData → bool) : M World (list (string * UserData)) :=
  λ w, (Returned (filter (λ document, condition document.2 = true) (map_to_list (users w))), w).

Section Lookups.

(** The lower-casing of the engine beyond ASCII. *)
Variable lower : string → string.

Definition getRecipientsByBus (busNumber_ : string) : M World (list Recipient) :=
  if bool_decide (busNumber_ = "") then mret []
  else
    docs ← where_get (λ data, bool_decide (busNumber data = Str busNumber_));
    if bool_decide (docs = []) then mret []
    else
      mret (omap (λ document : string * UserData,
                    let data := document.2 in
                    let role_ := toLowerCase lower (default "" (role data)) in
                    if bool_decide (role_ ∈ TARGET_ROLES)
                    then Some {| uid := document.1;
                                 recipient_role := role_;
                                 recipient_busNumber := busNumber data;
                                 tokens := cleanTokens data |}
                    else None) docs).

Definition getRecipientsByRole (role_ : string) : M World (list Recipient) :=
  if bool_decide (role_ = "") then mret []
  else
    let normalizedRole := toLowerCase lower role_ in
    docs ← where_get (λ data, bool_decide (role data = Some normalizedRole));
    if bool_decide (docs = []) then mret []
    else
      mret ((λ document : string * UserData,
               {| uid := document.1;
                  recipient_role := normalizedRole;
                  recipient_busNumber := Undefined;
                  tokens := cleanTokens document.2 |}) <$> docs).

End Lookups.

Definition getTokensForUser (uid_ : string) : M World (list value) :=
  if bool_decide (uid_ = "") then mret []
  else
    w ← get;
    match users w !! uid_ with
    | None => mret []
    | Some data => mret (cleanTokens data)
    end.

(** [FieldValue.arrayRemove(...tokens)] applied to a field: every instance
    of each given element goes; a field that is no array becomes the empty
    array. *)
Definition arrayRemove (elements : list value) (field : option (list value)) : option (list value) :=
  Some (filter (λ x, x ∉ elements) (default [] field)).

(** [docRef.update(change)]: fails when the document does not exist. *)
Definition update (uid_ : string) (change : UserData → UserData) : M World unit :=
  λ w,
    match users w !! uid_ with
    | Some data => (Returned tt, {| users := <[uid_ := change data]> (users w); console := console w |})
    | None => (Thrown ("NOT_FOUND: no document to update: " +:+ USERS_COLLECTION +:+ "/" +:+ uid_), w)
    end.

Definition console_warn (line : string) : M World unit :=
  modify (λ w, {| users := users w; console := console w ++ [line] |}).

Definition removeTokens (uid_ : string) (tokens_ : list value) : M World unit :=
  if bool_decide (uid_ = "") || bool_decide (length tokens_ = 0%nat) then mret tt
  else
    try_catch
      (update uid_ (λ data, {| role := role data;
                               busNumber := busNumber data;
                               fcmTokens := arrayRemove tokens_ (fcmTokens data) |}))
      (λ error, console_warn ("Unable to remove invalid tokens for user " +:+ uid_)).

(** A token string is blank when it is empty or made of white space only. *)
Definition blank (s : string) : bool :=
  forallb Ascii.is_space (String.list_ascii_of_string s).

End RecipientRepository.

(* ===================================================================== *)
(** * The notification client (mobile side) *)
(* ===================================================================== *)

Module BackendClient.

Import Async.

Section Client.

(** The parsed JSON body of a response, and the body of a request. *)
Variable Json : Type.
Variable Body : Type.

Record HttpResponse : Type := mkResponse {
  ok : bool;
  status : Z;
  text : string;
  json : Outcome Json;                     (* [response.json()] rejects on a malformed body *)
}.

Inductive FetchResult : Type :=
  | Rejected (message : string)
  | Responded (response : HttpResponse).

Record Request : Type := mkRequest {
  url : string;
  body : Body;
}.

(** The network answers a request, possibly depending on what was sent
    before; [candidates] is the value of [buildCandidateBaseUrls()]. *)
Variable fetch : list Request → Request → FetchResult.
Variable candidates : list string.

Definition readable (errors : list (string * string)) : string :=
  String.concat "; " ((λ entry : string * string, entry.1 +:+ ": " +:+ entry.2) <$> errors).

(** The [for] loop of [postJson] over the remaining base URLs; the store is
    the list of requests sent so far. *)
Fixpoint attempt (path : string) (payload : Body) (remaining : list string)
    (errors : list (string * string)) : M (list Request) Json :=
  match remaining with
  | [] => throw ("All notification endpoints failed → " +:+ readable errors)
  | baseUrl :: rest =>
      λ sent,
        let request := {| url := baseUrl +:+ path; body := payload |} in
        let failed (message : string) :=
          attempt path payload rest (errors ++ [(baseUrl, message)]) (sent ++ [request]) in
        match fetch sent request with
        | Rejected message => failed message
        | Responded response =>
            if negb (ok response) then
              failed (if bool_decide (text response = "")
                      then "HTTP " +:+ pretty (status response)
                      else text response)
            else
              match json response with
              | Returned data => (Returned data, sent ++ [request])
              | Thrown message => failed message
              end
        end
  end.

Definition postJson (path : string) (payload : Body) : M (list Request) Json :=
  if negb (String.prefix "/" path) then throw "Paths passed to backendClient must start with /"
  else attempt path payload candidates [].

End Client.

Arguments ok {Json} _.
Arguments status {Json} _.
Arguments text {Json} _.
Arguments json {Json} _.
Arguments mkResponse {Json} _ _ _ _.
Arguments Rejected {Json} _.
Arguments Responded {Json} _.
Arguments url {Body} _.
Arguments body {Body} _.
Arguments mkRequest {Body} _ _.

End BackendClient.

Module FirebaseConfig.

Import JS Async BackendClient.

(** The argument object of [notifyBusTrackingStarted]. *)
Record StartArgs : Type := mkStartArgs {
  busNumber : value;
  driverName : value;
  excludeUid : value;
  excludeToken : value;
}.

(** The body posted to [/startBus]. *)
Record StartPayload : Type := mkStartPayload {
  payload_busNumber : value;
  payload_driverName : value;
  payload_initiatedBy : value;
  payload_excludeToken : value;
}.

(** A destructuring default [= null]: it replaces [undefined] only. *)
Definition default_null (v : value) : value :=
  match v with Undefined => Null | _ => v end.

Section Notify.

Variable Json : Type.
Variable fetch : list (Request StartPayload) → Request StartPayload → FetchResult Json.
Variable candidates : list string.

Definition notifyBusTrackingStarted (args : StartArgs) : M (list (Request StartPayload)) Json :=
  let excludeUid_ := default_null (excludeUid args) in
  let excludeToken_ := default_null (excludeToken args) in
  if negb (truthy (busNumber args)) then
    throw "busNumber is required to trigger bus start notifications"
  else
    let payload :=
      {| payload_busNumber := busNumber args;
         payload_driverName := driverName args;
         payload_initiatedBy := or excludeUid_ Null;
         payload_excludeToken := or excludeToken_ Null |} in
    postJson Json StartPayload fetch candidates "/startBus" payload.

End Notify.

End FirebaseConfig.

(* ===================================================================== *)
(** * The wording of the design document *)
(* ===================================================================== *)

Module Design.

Import JS.

(** "round": [m] is the integer nearest to [q], a half counting upwards. *)
Definition nearest_integer (q : Qc) (m : Z) : Prop :=
  (Qc_of_Z m - ratio 1 2 ≤ q)%Qc ∧ (q < Qc_of_Z m + ratio 1 2)%Qc.

(** The ETA label of the design document, section 4.4 step 6: "if speed ≤
    0.5 m/s → Awaiting movement; else minutes = round(distance /
    max(speed, 0.1) / 60), floored at 1; minutes ≤ 1 → Arriving now, else
    Arriving in {minutes} min".  [quotient] is the value of
    [distance / max(speed, 0.1) / 60]. *)
Inductive eta_label_spec (speed quotient : Qc) : string → Prop :=
  | eta_awaiting :
      (speed ≤ ratio 1 2)%Qc →
      eta_label_spec speed quotient "Awaiting movement"
  | eta_now (m : Z) :
      ¬ (speed ≤ ratio 1 2)%Qc →
      nearest_integer quotient m →
      Z.max m 1 ≤ 1 →
      eta_label_spec speed quotient "Arriving now"
  | eta_minutes (m : Z) :
      ¬ (speed ≤ ratio 1 2)%Qc →
      nearest_integer quotient m →
      1 < Z.max m 1 →
      eta_label_spec speed quotient ("Arriving in " +:+ pretty (Z.max m 1) +:+ " min").

(** Modelled from the spec: a location sample of section 3, reduced to
    the fields the admission filter reads.  The location service that
    holds the filter is not among the sources at hand. *)
Record LocationSample : Type := mkSample {
  sample_latitude : Qc;
  sample_longitude : Qc;
  capturedAt : Qc;                         (* seconds *)
}.

Inductive Decision : Type := accept | reject.

Section Admission.

(** The great-circle distance of two samples, in meters. *)
Variable distance : LocationSample → LocationSample → Qc.

(** Modelled from the spec: the admission filter of section 4.1, the
    decision whether a candidate sample is committed; its code,
    [updateBusLocation] of the location service, is not among the sources
    at hand.  "Rejects when previous exists and both of: great-circle
    distance(previous, candidate) < 20 meters and time since previous
    capture < 4 seconds"; the first sample of a session, with no previous
    one, is accepted. *)
Definition admission_filter (previous : option LocationSample) (candidate : LocationSample) : Decision :=
  match previous with
  | None => accept
  | Some committed =>
      if bool_decide (distance committed candidate < Qc_of_Z 20)%Qc
         && bool_decide (capturedAt candidate - capturedAt committed < Qc_of_Z 4)%Qc
      then reject
      else accept
  end.

End Admission.

(** A field of a record is "present but falsy". *)
Definition present_but_falsy (v : value) : Prop :=
  v ≠ Undefined ∧ truthy v = false.

(** A record carries finite coordinates. *)
Definition finite_coordinates (data : LocationService.Snapshot) : Prop :=
  ∃ location lat lon,
    LocationService.currentLocation data = Some location ∧
    LocationService.latitude location = Num (Fin lat) ∧
    LocationService.longitude location = Num (Fin lon).

End Design.

(* ===================================================================== *)
(** * Predicates and sample data of the statements *)
(* ===================================================================== *)

Module Statements.

Import JS Async.

(** ** The nearest stop *)

Section Nearest.

Import MapScreen.

(** What the reduction has established once the entries below [k] have
    been visited and [best] is the accumulator. *)
Record nearest_inv (D : list num) (k best : nat) : Prop := mkInv {
  inv_range : best = 0%nat ∨ (best < k)%nat;
  inv_minimal : ∀ j, (j < k)%nat → ltb (at_index D j) (at_index D best) = false;
  inv_first : ∀ j, (j < best)%nat → leb (at_index D j) (at_index D best) = false;
  inv_stuck : is_nan (at_index D 0) = true → best = 0%nat;
  inv_number : is_nan (at_index D 0) = false → is_nan (at_index D best) = false;
}.

(** A stand-in for the digits the engine gives a number that is no
    integer below [10^21]. *)
Definition plain_digits (q : Qc) : string :=
  pretty (Qnum q) +:+ "/" +:+ pretty (Z.pos (Qden q)).

(** A stand-in for the great-circle term that is NaN between the points
    of latitude 12 and -12 whose longitudes are 180 apart, as the term of
    the code is: there the sum [a] of [haversineDistance] is rounded to
    1.0000000000000002, the square root of [1 - a] is NaN, and so is the
    distance.  Elsewhere it is [planar]. *)
Definition antipodal_nan (lat1 lon1 lat2 lon2 : Qc) : num :=
  if bool_decide (Qcabs lat1 = Qc_of_Z 12) && bool_decide (lat2 = - lat1)%Qc
     && bool_decide (Qcabs (lon2 - lon1) = Qc_of_Z 180)
  then NaN
  else planar lat1 lon1 lat2 lon2.

Definition bus_here : BusLocation := busAt 12 0 (Qc_of_Z 5).

(** A route of three stops on a line, 100 meters apart. *)
Definition demo_route : list RouteStop :=
  [stopAt "S1" 0 0; stopAt "S2" 0 100; stopAt "S3" 0 200].

End Nearest.

(** ** The observers *)

Section Observers.

Import LocationService.

Definition map_cleared : MapScreen.ScreenState :=
  {| MapScreen.busLocation := None; MapScreen.isBusTracking := false |}.

(** A record in the middle of a trip whose coordinates are NaN. *)
Definition nan_record : Snapshot :=
  {| isTracking := Bool true;
     activeTrackingSession := Str "session-1";
     trackingSessionId := Str "session-1";
     currentLocation := Some (mkCoords (Num NaN) (Num NaN) Undefined Undefined);
     speed := Num (ofZ 5);
     heading := Num (ofZ 90);
     lastUpdate := Str "2025-01-01T08:00:00Z";
     driverName := Str "Driver A";
     accuracy := Num (ofZ 5) |}.

(** A record of a trip in progress with a position. *)
Definition live_record (active session : value) : Snapshot :=
  {| isTracking := Bool true;
     activeTrackingSession := active;
     trackingSessionId := session;
     currentLocation := Some (mkCoords (Num (ofZ 11)) (Num (ofZ 77)) Undefined Undefined);
     speed := Num (ofZ 5);
     heading := Num (ofZ 90);
     lastUpdate := Str "2025-01-01T08:00:00Z";
     driverName := Str "Driver A";
     accuracy := Num (ofZ 5) |}.

End Observers.

(** ** The recipient repository *)

Section Recipients.

Import RecipientRepository.

(** A demonstration directory: a student of bus B-12 whose only token is a
    single space, and a manager with a null and an empty entry. *)
Definition demo_users : gmap string UserData :=
  <["u1" := mkUser (Some "Student") (Str "B-12") (Some [Str " "])]>
  (<["u2" := mkUser (Some "management") Null (Some [Null; Str ""; Str "tk2"])]> ∅).

Definition demo_world : World := {| users := demo_users; console := [] |}.

(** The document [removeTokens] writes back. *)
Definition pruned (tokens_ : list value) (data : UserData) : UserData :=
  {| role := role data;
     busNumber := busNumber data;
     fcmTokens := arrayRemove tokens_ (fcmTokens data) |}.

End Recipients.

(** ** The trip-start request *)

Section TripStart.

Import BackendClient FirebaseConfig.

(** A request of the loop goes to one of the remaining base URLs, with the
    path and the payload given. *)
Definition posted (Body : Type) (path : string) (payload : Body) (bases : list string)
    (r : Request Body) : Prop :=
  body r = payload ∧ ∃ baseUrl, baseUrl ∈ bases ∧ url r = baseUrl +:+ path.

(** The payload of the trip-start request. *)
Definition start_payload (args : StartArgs) : StartPayload :=
  {| payload_busNumber := busNumber args;
     payload_driverName := driverName args;
     payload_initiatedBy := if truthy (excludeUid args) then excludeUid args else Null;
     payload_excludeToken := if truthy (excludeToken args) then excludeToken args else Null |}.

(** The report the server is expected to send, and a network in which the
    only endpoint answers with it. *)
Record DeliveryReport : Type := mkReport { attempted : Z; succeeded : Z; prunedCount : Z }.

Definition demo_fetch (sent : list (Request StartPayload)) (r : Request StartPayload) : FetchResult DeliveryReport :=
  Responded (mkResponse true 200 "" (Returned (mkReport 3 3 0))).

End TripStart.

(** ** The admission filter *)

Section Admission.

Import Design.

(** A distance for samples on one parallel, in meters per unit of
    longitude. *)
Definition east_west (a b : LocationSample) : Qc :=
  Qcabs (sample_longitude b - sample_longitude a).

End Admission.

End Statements.

(* ===================================================================== *)
(** * The summary row of [MapScreen] *)
(* ===================================================================== *)

Module MapScreenSummary.

Import JS MapScreen.

(** [index >= 0 ? routeProgress.stops[index] : null] *)
Definition stopAtIndex (P : Progress) (index : Z) : option DecoratedStop :=
  if bool_decide (0 ≤ index) then stops P !! Z.to_nat index else None.

Definition currentStop (P : Progress) : option DecoratedStop := stopAtIndex P (currentIndex P).
Definition nextStop (P : Progress) : option DecoratedStop := stopAtIndex P (nextIndex P).

Definition routeHasStops (P : Progress) : bool := bool_decide (0 < length (stops P))%nat.

Definition isRouteCompleted (P : Progress) : bool :=
  routeHasStops P
  && bool_decide (nextIndex P = -1)
  && bool_decide (Z.of_nat (length (stops P)) - 1 ≤ currentIndex P).

(** [text || fallback] on strings; [stop?.field] of a missing stop is
    [undefined], which is falsy like the empty string. *)
Definition or_else (text fallback : string) : string :=
  if bool_decide (text = "") then fallback else text.

Definition field_of (stop : option DecoratedStop) (field : DecoratedStop → string) : string :=
  from_option field "" stop.

Definition summaryCurrentName (P : Progress) (isBusTracking : bool) : string :=
  or_else (field_of (currentStop P) (λ s, stop_name (d_stop s)))
          (if isBusTracking then "En route" else "Awaiting GPS fix").

Definition summaryCurrentEta (P : Progress) : string :=
  or_else (field_of (currentStop P) etaLabel)
          (if routeHasStops P then "Waiting for live update" else "Add route stops").

Definition summaryNextName (P : Progress) : string :=
  if isRouteCompleted P then "Route complete"
  else or_else (field_of (nextStop P) (λ s, stop_name (d_stop s)))
               (if routeHasStops P then field_of (stops P !! 0%nat) (λ s, stop_name (d_stop s))
                else "No upcoming stop").

Definition summaryNextEta (P : Progress) : string :=
  if isRouteCompleted P then "All stops covered"
  else or_else (field_of (nextStop P) etaLabel)
               (if routeHasStops P then "Awaiting departure" else "Add route stops").

End MapScreenSummary.

(* ===================================================================== *)
(** * Strings *)
(* ===================================================================== *)

Module Text.

(** A string is the sequence of the bytes of its UTF-8 encoding: an ASCII
    character is one byte, any other character two to four bytes. *)

(** The white space and the line terminators of the language, which
    [String.prototype.trim] strips, by their encodings: U+0009 to U+000D,
    U+0020, U+00A0, U+1680, U+2000 to U+200A, U+2028, U+2029, U+202F,
    U+205F, U+3000 and U+FEFF. *)
Definition WHITE_SPACE : list (list Ascii.ascii) :=
  (λ bytes : list N, Ascii.ascii_of_N <$> bytes) <$>
    [[9]; [10]; [11]; [12]; [13]; [32];
     [194; 160];
     [225; 154; 128];
     [226; 128; 128]; [226; 128; 129]; [226; 128; 130]; [226; 128; 131];
     [226; 128; 132]; [226; 128; 133]; [226; 128; 134]; [226; 128; 135];
     [226; 128; 136]; [226; 128; 137]; [226; 128; 138];
     [226; 128; 168]; [226; 128; 169]; [226; 128; 175];
     [226; 129; 159];
     [227; 128; 128];
     [239; 187; 191]]%N.

(** [l] without its prefix [w], when it starts with [w]. *)
Fixpoint without_prefix (w l : list Ascii.ascii) : option (list Ascii.ascii) :=
  match w, l with
  | [], _ => Some l
  | c :: w', c' :: l' => if bool_decide (c = c') then without_prefix w' l' else None
  | _ :: _, [] => None
  end.

(** [l] without the first of the [patterns] it starts with. *)
Definition without_one (patterns : list (list Ascii.ascii)) (l : list Ascii.ascii) :
    option (list Ascii.ascii) :=
  head (omap (λ w, without_prefix w l) patterns).

(** The patterns are stripped as long as one of them leads; [fuel] bounds
    the number of rounds. *)
Fixpoint strip_leading (patterns : list (list Ascii.ascii)) (fuel : nat) (l : list Ascii.ascii) :
    list Ascii.ascii :=
  match fuel with
  | O => l
  | S fuel' =>
      match without_one patterns l with
      | Some rest => strip_leading patterns fuel' rest
      | None => l
      end
  end.

Definition trim_start_list (l : list Ascii.ascii) : list Ascii.ascii :=
  strip_leading WHITE_SPACE (length l) l.

Definition trim_end_list (l : list Ascii.ascii) : list Ascii.ascii :=
  reverse (strip_leading (reverse <$> WHITE_SPACE) (length l) (reverse l)).

(** [String.prototype.trim] *)
Definition trim (s : string) : string :=
  String.string_of_list_ascii (trim_end_list (trim_start_list (String.list_ascii_of_string s))).

(** [s.replace(/-+/g, '-')]: every maximal run of hyphens becomes one
    hyphen; a hyphen followed by a hyphen is dropped. *)
Fixpoint collapse_hyphens (s : string) : string :=
  match s with
  | EmptyString => EmptyString
  | String c rest =>
      if bool_decide (c = "-"%char) then
        match rest with
        | String "-"%char _ => collapse_hyphens rest
        | _ => String c (collapse_hyphens rest)
        end
      else String c (collapse_hyphens rest)
  end.

(** [text || fallback] on strings. *)
Definition or_else (text fallback : string) : string :=
  if bool_decide (text = "") then fallback else text.

(** Two hyphens in a row somewhere in the string. *)
Fixpoint has_double_hyphen (s : string) : bool :=
  match s with
  | String "-"%char (String "-"%char _ as rest) => true
  | String _ rest => has_double_hyphen rest
  | EmptyString => false
  end.

End Text.

(* ===================================================================== *)
(** * The helpers of [MapScreen] *)
(* ===================================================================== *)

Module MapScreenHelpers.

Import JS MapScreen Text.

(** ** [normaliseRouteStops] *)

(** An entry of the [routeStops] route parameter.  The coordinates may be
    any value, under either pair of names; the naming fields are strings
    when they are present. *)
Record RawStop : Type := mkRawStop {
  raw_latitude : value;
  raw_lat : value;
  raw_longitude : value;
  raw_lng : value;
  raw_name : option string;
  raw_label : option string;
  raw_stopName : option string;
  raw_id : option string;
}.

Section Normalise.

Variable StringToNumber : string → num.

(** The default stop table of the route configuration, which is not among
    the sources at hand. *)
Variable DEFAULT_ROUTE_STOPS : list RouteStop.

(** The callback of [rawStops.map]; [None] is [null]. *)
Definition cleanStop (index : nat) (entry : option RawStop) : option RouteStop :=
  match entry with
  | None => None
  | Some stop =>
      let latitude := Number StringToNumber (nullish (raw_latitude stop) (raw_lat stop)) in
      let longitude := Number StringToNumber (nullish (raw_longitude stop) (raw_lng stop)) in
      if negb (is_finite latitude) || negb (is_finite longitude) then None
      else
        let name :=
          trim (or_else (default "" (raw_name stop))
                  (or_else (default "" (raw_label stop))
                     (or_else (default "" (raw_stopName stop))
                        ("Stop " +:+ pretty (S index))))) in
        let id :=
          or_else (default "" (raw_id stop)) (or_else name ("stop-" +:+ pretty (S index))) in
        Some {| stop_id := id;
                stop_name := name;
                stop_latitude := Num latitude;
                stop_longitude := Num longitude;
                stop_time := None |}
  end.

(** [rawStops] is [None] when the parameter is not an array; an entry is
    [None] when it is falsy. *)
Definition normaliseRouteStops (rawStops : option (list (option RawStop))) : list RouteStop :=
  match rawStops with
  | None => DEFAULT_ROUTE_STOPS
  | Some entries =>
      let cleaned := omap id (imap cleanStop entries) in
      if bool_decide (length cleaned ≠ 0%nat) then cleaned else DEFAULT_ROUTE_STOPS
  end.

End Normalise.

Definition finite_stop (stop : RouteStop) : Prop :=
  ∃ lat lon, stop_latitude stop = Num (Fin lat) ∧ stop_longitude stop = Num (Fin lon).

(** ** [computeBounds] *)

(** [Math.max(...values)] and [Math.min(...values)]. *)
Definition Math_max (values : list num) : num := foldr max2 NegInf values.
Definition Math_min (values : list num) : num := foldr min2 PosInf values.

Record Point : Type := mkPoint {
  point_latitude : num;
  point_longitude : num;
}.

(** The corners are arrays [[longitude, latitude]]. *)
Record Bounds : Type := mkBounds {
  northEast : num * num;
  southWest : num * num;
}.

Definition computeBounds (points : list Point) : option Bounds :=
  if bool_decide (length points = 0%nat) then None
  else
    let lats := point_latitude <$> points in
    let lngs := point_longitude <$> points in
    Some {| northEast := (Math_max lngs, Math_max lats);
            southWest := (Math_min lngs, Math_min lats) |}.

(** ** The bottom sheet *)

Definition SHEET_COLLAPSED_HEIGHT : num := ofZ 150.

(** [Math.min(420, SCREEN_HEIGHT * 0.62)] *)
Definition SHEET_EXPANDED_HEIGHT (SCREEN_HEIGHT : Qc) : num :=
  min2 (ofZ 420) (Fin (SCREEN_HEIGHT * ratio 62 100)%Qc).

Definition clamp (v lo hi : num) : num := max2 lo (min2 v hi).

(** [onPanResponderMove]: the height given to the sheet for a drag of
    [dy] that started at [startHeight]. *)
Definition sheetHeightOnMove (SCREEN_HEIGHT startHeight dy : Qc) : num :=
  clamp (Fin (startHeight - dy)%Qc) SHEET_COLLAPSED_HEIGHT (SHEET_EXPANDED_HEIGHT SCREEN_HEIGHT).

(** ** The label of the bus marker *)

(** [busMarkerLabel] of [MapScreen]. *)
Definition busMarkerLabel (busDisplayName busId : string) : string :=
  collapse_hyphens (or_else (trim busDisplayName) (or_else busId "Bus")).

(** [busDisplayName] of [BusLiveTrackingScreen], for a label that is a
    string. *)
Definition liveBusDisplayName (rawBusLabel : string) : string :=
  or_else (trim (collapse_hyphens rawBusLabel)) "Bus".

End MapScreenHelpers.

(* ===================================================================== *)
(** * The life of the two observing screens *)
(* ===================================================================== *)

Module ObserverTraces.

Import JS LocationService.

(** What can happen to a mounted [MapScreen]: the subscription delivers a
    record (or none), the subscription fails, the effect is cleaned up. *)
Inductive MapEvent : Type :=
  | MapData (snapshot : option Snapshot)
  | MapError
  | MapCleanup.

(** [useState(null)] and [useState(false)]. *)
Definition mapInitial : MapScreen.ScreenState :=
  {| MapScreen.busLocation := None; MapScreen.isBusTracking := false |}.

Definition mapStep (StringToNumber : string → num) (now : value)
    (st : MapScreen.ScreenState) (event : MapEvent) : MapScreen.ScreenState :=
  match event with
  | MapData snapshot => MapScreen.onSnapshot StringToNumber now snapshot st
  | MapError => MapScreen.onError st
  | MapCleanup => {| MapScreen.busLocation := None; MapScreen.isBusTracking := false |}
  end.

(** What can happen to a mounted [BusLiveTrackingScreen]: a record (or
    none) is delivered, the subscription fails, the five-second loading
    timer fires. *)
Inductive LiveEvent : Type :=
  | LiveData (locationData : option Snapshot)
  | LiveError
  | LoadingTimeout.

(** [useState(null)] and [useState(true)]. *)
Definition liveInitial : BusLiveTrackingScreen.ScreenState :=
  {| BusLiveTrackingScreen.busLocation := None; BusLiveTrackingScreen.loading := true |}.

Definition liveStep (busDriver : value)
    (st : BusLiveTrackingScreen.ScreenState) (event : LiveEvent) : BusLiveTrackingScreen.ScreenState :=
  match event with
  | LiveData locationData => BusLiveTrackingScreen.onLocation busDriver locationData st
  | LiveError => BusLiveTrackingScreen.onError st
  | LoadingTimeout =>
      {| BusLiveTrackingScreen.busLocation := BusLiveTrackingScreen.busLocation st;
         BusLiveTrackingScreen.loading := false |}
  end.

End ObserverTraces.

(* ===================================================================== *)
(** * The entries of the recipient lists *)
(* ===================================================================== *)

Module RepositoryStatements.

Import JS RecipientRepository.

(** The recipient made of a user document in a lookup by bus, and in a
    lookup by role. *)
Definition busRecipient (lower : string → string) (id bus : string) (data : UserData) : Recipient :=
  {| uid := id;
     recipient_role := toLowerCase lower (default "" (role data));
     recipient_busNumber := Str bus;
     tokens := cleanTokens data |}.

Definition roleRecipient (lower : string → string) (id query : string) (data : UserData) : Recipient :=
  {| uid := id;
     recipient_role := toLowerCase lower query;
     recipient_busNumber := Undefined;
     tokens := cleanTokens data |}.

End RepositoryStatements.

(* ===================================================================== *)
(** * The base URLs of the notification server *)
(* ===================================================================== *)

Module BackendConfig.

Import JS Text.

Definition DEFAULT_ANDROID : string := "http://10.0.2.2:4000".
Definition DEFAULT_IOS : string := "http://127.0.0.1:4000".

(** [s.replace(/\/$/, '')]: a final slash goes, one only. *)
Fixpoint strip_final_slash (s : string) : string :=
  match s with
  | EmptyString => EmptyString
  | String c rest =>
      if bool_decide (c = "/"%char) && bool_decide (rest = "") then EmptyString
      else String c (strip_final_slash rest)
  end.

Definition sanitizeBaseUrl (value_ : value) : option string :=
  match value_ with
  | Str s => if truthy value_ then Some (strip_final_slash (trim s)) else None
  | _ => None
  end.

(** [hostUri.split(':')[0]] *)
Fixpoint before_colon (s : string) : string :=
  match s with
  | EmptyString => EmptyString
  | String c rest => if bool_decide (c = ":"%char) then EmptyString else String c (before_colon rest)
  end.

(** What the module reads of its environment.  The host fields of
    [expo-constants] are strings where present; [None] is a field that is
    missing, [null] or [undefined]. *)
Record Environment : Type := mkEnvironment {
  expoConfig_hostUri : option string;
  manifest_debuggerHost : option string;
  manifest_hostUri : option string;
  manifestExtra_debuggerHost : option string;
  manifestExtra_hostUri : option string;
  backend_baseUrl : value;                 (* [expoConfig.extra.backend.baseUrl] *)
  EXPO_PUBLIC_NOTIFICATION_SERVER_URL : value;
  android : bool;                          (* [Platform.OS === 'android'] *)
}.

(** [a || b] on strings that may be missing: the empty string is falsy. *)
Definition or_host (a b : option string) : option string :=
  match a with
  | Some s => if bool_decide (s = "") then b else a
  | None => b
  end.

Definition inferExpoHostUrl (env : Environment) : option string :=
  let hostUri :=
    or_host (expoConfig_hostUri env)
      (or_host (manifest_debuggerHost env)
         (or_host (manifest_hostUri env)
            (or_host (manifestExtra_debuggerHost env)
               (or_host (manifestExtra_hostUri env) None)))) in
  match hostUri with
  | None => None
  | Some hostUri_ =>
      let host := before_colon hostUri_ in
      if bool_decide (host = "") then None
      else Some ("http://" +:+ host +:+ ":4000")
  end.

(** [.filter(Boolean)] on entries that are [null] or a string. *)
Definition filter_Boolean (entries : list (option string)) : list string :=
  omap (λ entry, entry ≫= λ s, if bool_decide (s = "") then None else Some s) entries.

Definition buildCandidateBaseUrls (env : Environment) : list string :=
  let envUrl := sanitizeBaseUrl (or (backend_baseUrl env) (EXPO_PUBLIC_NOTIFICATION_SERVER_URL env)) in
  let expoHostUrl := sanitizeBaseUrl (from_option Str Null (inferExpoHostUrl env)) in
  let platformDefault := if android env then DEFAULT_ANDROID else DEFAULT_IOS in
  filter_Boolean [envUrl; expoHostUrl; sanitizeBaseUrl (Str platformDefault)].

(** The requests [postJson] makes of base URLs. *)
Definition requests {Body : Type} (path : string) (payload : Body) (bases : list string) :
    list (BackendClient.Request Body) :=
  (λ baseUrl, BackendClient.mkRequest (baseUrl +:+ path) payload) <$> bases.

(** An answer [postJson] does not return from: a rejected request, a
    response that is not [ok], a body that does not parse. *)
Definition unusable {Json : Type} (answer : BackendClient.FetchResult Json) : bool :=
  match answer with
  | BackendClient.Rejected _ => true
  | BackendClient.Responded response =>
      negb (BackendClient.ok response) ||
      match BackendClient.json response with Async.Thrown _ => true | Async.Returned _ => false end
  end.

(** Every base URL of [bases], asked in turn after the requests [sent],
    gets an answer [postJson] does not return from. *)
Fixpoint all_unusable {Json Body : Type}
    (fetch : list (BackendClient.Request Body) → BackendClient.Request Body → BackendClient.FetchResult Json)
    (path : string) (payload : Body) (sent : list (BackendClient.Request Body)) (bases : list string) : Prop :=
  match bases with
  | [] => True
  | baseUrl :: rest =>
      let request := BackendClient.mkRequest (baseUrl +:+ path) payload in
      unusable (fetch sent request) = true ∧ all_unusable fetch path payload (sent ++ [request]) rest
  end.

End BackendConfig.

(* ===================================================================== *)
(** * Direct notifications (mobile side) *)
(* ===================================================================== *)

Module DirectNotification.

Import JS Async BackendClient.

(** The argument object of [sendUserNotification], which is also the body
    posted to [/notify]. *)
Record NotifyArgs : Type := mkNotifyArgs {
  recipientUid : value;
  title : value;
  notification_body : value;
  data : value;
}.

Section Notify.

Variable Json : Type.
Variable fetch : list (Request NotifyArgs) → Request NotifyArgs → FetchResult Json.
Variable candidates : list string.

Definition sendUserNotification (args : NotifyArgs) : M (list (Request NotifyArgs)) Json :=
  if negb (truthy (recipientUid args)) then
    throw "recipientUid is required for direct notifications"
  else
    postJson Json NotifyArgs fetch candidates "/notify"
      {| recipientUid := recipientUid args;
         title := title args;
         notification_body := notification_body args;
         data := data args |}.

End Notify.

End DirectNotification.

(* ===================================================================== *)
(** * Registering a device token (mobile side) *)
(* ===================================================================== *)

Module PushTokens.

Import JS Async LocationService RecipientRepository.

(** The user context passed by the screens: [role] is a string where
    present. *)
Record ClientUser : Type := mkClientUser {
  user_role : option string;
  user_busNumber : value;
  user_busId : value;
}.

(** A document of the [users] collection as the mobile client writes it:
    the fields the server reads, and [lastFcmToken] and [updatedAt]. *)
Record UserDocument : Type := mkDocument {
  shared : UserData;
  lastFcmToken : value;
  updatedAt : value;
}.

Record ClientWorld : Type := mkClientWorld {
  documents : gmap string UserDocument;
  cachedToken : value;                     (* the module variable *)
  client_console : list string;
}.

(** A document without fields, which a merging [setDoc] starts from when
    there is none. *)
Definition blank_document : UserDocument :=
  {| shared := {| role := None; busNumber := Undefined; fcmTokens := None |};
     lastFcmToken := Undefined;
     updatedAt := Undefined |}.

(** [setDoc(ref, fields, { merge: true })]: creates the document when it is
    missing, and writes the given fields only. *)
Definition setDoc_merge (identifier : string) (change : UserDocument → UserDocument) : M ClientWorld unit :=
  modify (λ w, {| documents := <[identifier := change (default blank_document (documents w !! identifier))]>
                                 (documents w);
                  cachedToken := cachedToken w;
                  client_console := client_console w |}).

(** [updateDoc(ref, fields)]: fails when the document does not exist. *)
Definition updateDoc (identifier : string) (change : UserDocument → UserDocument) : M ClientWorld unit :=
  λ w,
    match documents w !! identifier with
    | Some document =>
        (Returned tt, {| documents := <[identifier := change document]> (documents w);
                         cachedToken := cachedToken w;
                         client_console := client_console w |})
    | None => (Thrown ("NOT_FOUND: no document to update: users/" +:+ identifier), w)
    end.

(** [arrayUnion(token)] applied to a field: the element is added unless it
    is there; a field that is no array becomes the array of the element. *)
Definition arrayUnion (element : value) (field : option (list value)) : option (list value) :=
  match field with
  | Some array => if bool_decide (element ∈ array) then Some array else Some (array ++ [element])
  | None => Some [element]
  end.

Definition client_warn (line : string) : M ClientWorld unit :=
  modify (λ w, {| documents := documents w;
                  cachedToken := cachedToken w;
                  client_console := client_console w ++ [line] |}).

Section Persist.

(** [normalizeBusNumber] of [../utils/busNumber], and the readings of the
    clock, [new Date().toISOString()], in the order they are taken. *)
Variable normalizeBusNumber : value → value.
Variable clock : nat → string.

(** [user?.role || 'student'] *)
Definition roleOf (user : option ClientUser) : string :=
  match user ≫= user_role with
  | Some role_ => if bool_decide (role_ = "") then "student" else role_
  | None => "student"
  end.

(** [normalizedBusNumber || null] *)
Definition busNumberOf (user : option ClientUser) : value :=
  or (normalizeBusNumber (nullish (opt user user_busNumber) (nullish (opt user user_busId) Null))) Null.

Definition withToken (token : string) (stamp : string) (document : UserDocument) : UserDocument :=
  {| shared := {| role := role (shared document);
                  busNumber := busNumber (shared document);
                  fcmTokens := arrayUnion (Str token) (fcmTokens (shared document)) |};
     lastFcmToken := Str token;
     updatedAt := Str stamp |}.

(** [persistTokenForUser({ identifier, token, user })].  Both callers pass
    a truthy identifier and a truthy token string. *)
Definition persistTokenForUser (identifier token : string) (user : option ClientUser) : M ClientWorld unit :=
  setDoc_merge identifier
    (λ document, {| shared := {| role := Some (roleOf user);
                                 busNumber := busNumberOf user;
                                 fcmTokens := fcmTokens (shared document) |};
                    lastFcmToken := lastFcmToken document;
                    updatedAt := Str (clock 0) |});;
  try_catch
    (updateDoc identifier (withToken token (clock 1)))
    (λ error,
       client_warn "Falling back to setDoc merge for token union";;
       setDoc_merge identifier (withToken token (clock 2)));;
  modify (λ w, {| documents := documents w;
                  cachedToken := Str token;
                  client_console := client_console w |}).

(** The document a registration leaves. *)
Definition registered (token : string) (user : option ClientUser) (before : option UserDocument) : UserDocument :=
  withToken token (clock 1)
    {| shared := {| role := Some (roleOf user);
                    busNumber := busNumberOf user;
                    fcmTokens := fcmTokens (shared (default blank_document before)) |};
       lastFcmToken := lastFcmToken (default blank_document before);
       updatedAt := Str (clock 0) |}.

End Persist.

(** The [users] collection as the server reads it. *)
Definition server_view (w : ClientWorld) : World :=
  {| users := shared <$> documents w; console := [] |}.

End PushTokens.

(* ===================================================================== *)
(** * The public id of an uploaded image *)
(* ===================================================================== *)

Module CloudinaryService.

Import Text.

(** The class [[a-z0-9\-_]]. *)
Definition allowed (c : Ascii.ascii) : bool :=
  let n := Ascii.N_of_ascii c in
  ((97 <=? n) && (n <=? 122) || (48 <=? n) && (n <=? 57) || (n =? 45) || (n =? 95))%N.

Definition starts_disallowed (s : string) : bool :=
  match s with
  | String c _ => negb (allowed c)
  | EmptyString => false
  end.

(** [s.replace(/[^a-z0-9\-_]+/g, '-')]: every maximal run of characters
    outside the class becomes one hyphen. *)
Fixpoint replace_disallowed (s : string) : string :=
  match s with
  | EmptyString => EmptyString
  | String c rest =>
      if allowed c then String c (replace_disallowed rest)
      else if starts_disallowed rest then replace_disallowed rest
      else String "-"%char (replace_disallowed rest)
  end.

(** [sanitizePublicId(value)] for a string; [None] is [undefined].
    [lower] is the lower-casing of the engine beyond ASCII. *)
Definition sanitizePublicId (lower : string → string) (value_ : string) : option string :=
  if bool_decide (value_ = "") then None
  else
    let sanitized := replace_disallowed (RecipientRepository.toLowerCase lower (trim value_)) in
    if bool_decide (sanitized = "") then None else Some sanitized.

(** Every character of the string is in the class. *)
Definition all_allowed (s : string) : bool :=
  forallb allowed (String.list_ascii_of_string s).

End CloudinaryService.

(* ===================================================================== *)
(** * The manifest plugins of [app.config.js] *)
(* ===================================================================== *)

Module AppConfig.

(** A [meta-data] element, by its attributes (the [$] object). *)
Definition MetaData : Type := list (string * string).

(** [entry.$[key]] *)
Fixpoint attribute (key : string) (entry : MetaData) : option string :=
  match entry with
  | [] => None
  | (k, v) :: rest => if bool_decide (k = key) then Some v else attribute key rest
  end.

(** The manifest as far as the plugins touch it: the [xmlns:tools]
    attribute, and the [meta-data] of the first [application] element,
    when there is one; each may be missing. *)
Record Manifest : Type := mkManifest {
  xmlns_tools : option string;
  application : option (option (list MetaData));
}.

Definition GEO_API_KEY : string := "com.google.android.geo.API_KEY".
Definition FCM_COLOR : string := "com.google.firebase.messaging.default_notification_color".

(** [if (!manifest.$['xmlns:tools']) manifest.$['xmlns:tools'] = ...] *)
Definition withTools (tools : option string) : option string :=
  match tools with
  | Some value_ => if bool_decide (value_ = "") then Some "http://schemas.android.com/tools" else tools
  | None => Some "http://schemas.android.com/tools"
  end.

(** What both plugins do with an entry of their own: the entries of that
    name go, the new entry is pushed. *)
Definition replaceMeta (name : string) (entry : MetaData) (manifest : Manifest) : Manifest :=
  {| xmlns_tools := withTools (xmlns_tools manifest);
     application :=
       match application manifest with
       | None => None
       | Some existingMeta =>
           Some (Some (filter (λ e, attribute "android:name" e ≠ Some name) (default [] existingMeta)
                       ++ [entry]))
       end |}.

Section Plugins.

Variable ANDROID_MAPS_API_KEY : string.

Definition mapsMeta : MetaData :=
  [("android:name", GEO_API_KEY); ("android:value", ANDROID_MAPS_API_KEY)].

Definition fcmColorMeta : MetaData :=
  [("android:name", FCM_COLOR);
   ("android:resource", "@color/notification_icon_color");
   ("tools:replace", "android:resource")].

Definition withGoogleMapsMeta (manifest : Manifest) : Manifest :=
  replaceMeta GEO_API_KEY mapsMeta manifest.

Definition withSingleFcmColorMeta (manifest : Manifest) : Manifest :=
  replaceMeta FCM_COLOR fcmColorMeta manifest.

End Plugins.

(** The entries of a manifest, and those of a given name. *)
Definition metaData (manifest : Manifest) : list MetaData :=
  default [] (application manifest ≫= id).

Definition named (name : string) (manifest : Manifest) : list MetaData :=
  filter (λ e, attribute "android:name" e = Some name) (metaData manifest).

End AppConfig.

(* ===================================================================== *)
(** * Facts about the comparison of numbers *)
(* ===================================================================== *)

Module JSFacts.

Import JS.

Lemma leb_Fin (x y : Qc) : leb (Fin x) (Fin y) = true ↔ (x ≤ y)%Qc.
Proof. simpl. apply bool_decide_eq_true. Qed.

Lemma ltb_irrefl (a : num) : ltb a a = false.
Proof.
  destruct a as [x| | |]; simpl; try reflexivity.
  apply bool_decide_eq_false. apply (irreflexivity Qclt).
Qed.

Lemma ltb_trans (a b c : num) : ltb a b = true → ltb b c = true → ltb a c = true.
Proof.
  destruct a as [x| | |], b as [y| | |], c as [z| | |]; simpl; try congruence.
  rewrite !bool_decide_eq_true. apply Qclt_trans.
Qed.

Lemma leb_ltb_trans (a b c : num) : leb a b = true → ltb b c = true → ltb a c = true.
Proof.
  destruct a as [x| | |], b as [y| | |], c as [z| | |]; simpl; try congruence.
  rewrite !bool_decide_eq_true. apply Qcle_lt_trans.
Qed.

(** Away from NaN the order is total. *)
Lemma not_ltb_leb (a b : num) :
  is_nan a = false → is_nan b = false → ltb a b = false → leb b a = true.
Proof.
  destruct a as [x| | |], b as [y| | |]; simpl; try congruence.
  rewrite bool_decide_eq_false, bool_decide_eq_true. intros _ _. apply Qcnot_lt_le.
Qed.


Lemma leb_refl (a : num) : is_nan a = false → leb a a = true.
Proof.
  destruct a as [x| | |]; simpl; try done. intros _. apply bool_decide_eq_true. apply Qcle_refl.
Qed.

Lemma ltb_leb_weak (a b : num) : ltb a b = true → leb a b = true.
Proof.
  destruct a as [x| | |], b as [y| | |]; simpl; try congruence.
  rewrite !bool_decide_eq_true. apply Qclt_le_weak.
Qed.

Lemma leb_trans (a b c : num) : leb a b = true → leb b c = true → leb a c = true.
Proof.
  destruct a as [x| | |], b as [y| | |], c as [z| | |]; simpl; try congruence.
  rewrite !bool_decide_eq_true. apply Qcle_trans.
Qed.

Lemma max2_spec (a b : num) :
  is_nan a = false → is_nan b = false →
  (max2 a b = a ∨ max2 a b = b) ∧ leb a (max2 a b) = true ∧ leb b (max2 a b) = true.
Proof.
  intros Ha Hb. unfold max2. rewrite Ha, Hb. simpl.
  destruct (ltb a b) eqn:Hlt.
  - split; [by right|]. split; [by apply ltb_leb_weak|by apply leb_refl].
  - split; [by left|]. split; [by apply leb_refl|by apply not_ltb_leb].
Qed.

Lemma min2_spec (a b : num) :
  is_nan a = false → is_nan b = false →
  (min2 a b = a ∨ min2 a b = b) ∧ leb (min2 a b) a = true ∧ leb (min2 a b) b = true.
Proof.
  intros Ha Hb. unfold min2. rewrite Ha, Hb. simpl.
  destruct (ltb b a) eqn:Hlt.
  - split; [by right|]. split; [by apply ltb_leb_weak|by apply leb_refl].
  - split; [by left|]. split; [by apply leb_refl|by apply not_ltb_leb].
Qed.

Lemma leb_not_nan (a b : num) : leb a b = true → is_nan a = false ∧ is_nan b = false.
Proof. by destruct a, b. Qed.

Lemma ltb_not_nan (a b : num) : ltb a b = true → is_nan a = false ∧ is_nan b = false.
Proof. by destruct a, b. Qed.


Lemma leb_not_ltb (a b : num) : leb a b = true → ltb b a = false.
Proof.
  destruct a as [x| | |], b as [y| | |]; simpl; try congruence.
  rewrite bool_decide_eq_true, bool_decide_eq_false. apply Qcle_not_lt.
Qed.

Lemma leb_ofZ (x y : Z) : leb (ofZ x) (ofZ y) = bool_decide (x ≤ y)%Z.
Proof.
  unfold ofZ, leb. apply bool_decide_ext.
  unfold Qcle, Qc_of_Z. simpl. rewrite <- Zle_Qle. reflexivity.
Qed.

Ltac name_Qred :=
  repeat match goal with
  | |- context [Qred ?x] =>
      let E := fresh "E" in let g := fresh "g" in
      pose proof (Qred_correct x) as E; set (g := Qred x) in *; clearbody g
  end.

Lemma Math_round_nearest (q : Qc) : Design.nearest_integer q (MapScreen.Math_round q).
Proof.
  unfold Design.nearest_integer, MapScreen.Math_round, Qcle, Qclt, Qcminus, Qcplus, Qcopp, ratio, Qc_of_Z.
  cbn [this Q2Qc].
  change (Qred (1 # 2)) with (1 # 2)%Q. change (Qred (- (1 # 2))) with (- (1 # 2))%Q.
  rewrite (Qfloor_comp _ _ (Qred_correct (q + (1 # 2)))).
  pose proof (Qfloor_le (q + (1 # 2))) as H1.
  pose proof (Qlt_floor (q + (1 # 2))) as H2.
  rewrite inject_Z_plus in H2.
  set (f := inject_Z (Qfloor (q + (1 # 2)))) in *. clearbody f.
  change (inject_Z 1) with 1%Q in H2.
  name_Qred. split; lra.
Qed.

Lemma nearest_integer_unique (q : Qc) (m n : Z) :
  Design.nearest_integer q m → Design.nearest_integer q n → m = n.
Proof.
  unfold Design.nearest_integer, Qcle, Qclt, Qcminus, Qcplus, Qcopp, ratio, Qc_of_Z.
  cbn [this Q2Qc].
  change (Qred (1 # 2)) with (1 # 2)%Q. change (Qred (- (1 # 2))) with (- (1 # 2))%Q.
  name_Qred. intros [H1 H2] [H3 H4].
  assert (inject_Z m < inject_Z n + 1)%Q as A by lra.
  assert (inject_Z n < inject_Z m + 1)%Q as B by lra.
  change 1%Q with (inject_Z 1) in A, B.
  rewrite <- inject_Z_plus in A, B.
  rewrite <- Zlt_Qlt in A, B. lia.
Qed.

Lemma max2_ofZ (x y : Z) : max2 (ofZ x) (ofZ y) = ofZ (Z.max x y).
Proof.
  unfold max2. simpl. unfold ofZ.
  assert ((Qc_of_Z x < Qc_of_Z y)%Qc ↔ x < y) as Hlt.
  { unfold Qclt, Qc_of_Z. simpl. by rewrite <- Zlt_Qlt. }
  case_bool_decide as H; rewrite Hlt in H.
  - by rewrite Z.max_r by lia.
  - by rewrite Z.max_l by lia.
Qed.

(** An integer below [10^21] is written in its decimal digits. *)
Lemma NumberToString_ofZ (render : Qc → string) (z : Z) :
  Z.abs z < 10 ^ 21 → NumberToString render (ofZ z) = pretty z.
Proof.
  intros Hz. unfold NumberToString, ofZ.
  simpl. by rewrite bool_decide_eq_true_2.
Qed.

Lemma Fin_canon (x y : Qc) : (x == y)%Q → Fin x = Fin y.
Proof. intros H. f_equal. by apply Qc_is_canon. Defined.

(** Closed equations between numbers. *)
Ltac num_eq := vm_compute; apply Fin_canon; reflexivity.

End JSFacts.

(* ===================================================================== *)
(** * Rounding to a double *)
(* ===================================================================== *)

(** [binary64], round-to-nearest with ties to even, is monotone and leaves
    the doubles as they are. *)

Module DoubleFacts.

Import JS.

(** ** The integer nearest to a quotient *)

Lemma rhe_bounds (n d : Z) : 0 < d →
  let r := round_half_even n d in
  2 * d * r - d ≤ 2 * n ≤ 2 * d * r + d ∧
  (2 * n = 2 * d * r - d ∨ 2 * n = 2 * d * r + d → Z.even r = true).
Proof.
  intros Hd r. subst r. unfold round_half_even.
  pose proof (Z.div_mod n d ltac:(lia)) as Hdm.
  pose proof (Z.mod_pos_bound n d Hd) as Hm.
  set (q := n / d) in *. set (m := n mod d) in *. clearbody q m.
  destruct (Z.compare_spec (2 * m) d) as [He | Hl | Hg].
  - destruct (Z.even q) eqn:Hq.
    + split; [nia|]. intros _. done.
    + split; [nia|]. intros _. rewrite Z.even_add. rewrite Hq. done.
  - split; [nia|]. intros [H | H]; nia.
  - split; [nia|]. intros [H | H]; nia.
Qed.

Lemma rhe_mono (n1 d1 n2 d2 : Z) :
  0 < d1 → 0 < d2 → n1 * d2 ≤ n2 * d1 → round_half_even n1 d1 ≤ round_half_even n2 d2.
Proof.
  intros Hd1 Hd2 Hle.
  destruct (rhe_bounds n1 d1 Hd1) as [[Hl1 Hu1] Ht1].
  destruct (rhe_bounds n2 d2 Hd2) as [[Hl2 Hu2] Ht2].
  set (R1 := round_half_even n1 d1) in *. set (R2 := round_half_even n2 d2) in *.
  clearbody R1 R2.
  destruct (Z_le_gt_dec R1 R2) as [|Hgt]; [done|]. exfalso.
  assert ((2 * R2 + 1) * d1 * d2 ≤ 2 * n1 * d2) as A1 by nia.
  assert (2 * n2 * d1 ≤ (2 * R2 + 1) * d1 * d2) as A2 by nia.
  assert (2 * n2 = (2 * R2 + 1) * d2) as E2 by nia.
  assert (2 * n1 = (2 * R2 + 1) * d1) as E1 by nia.
  assert (R1 = R2 + 1) as -> by nia.
  assert (Z.even R2 = true) as Hev2 by (apply Ht2; lia).
  assert (Z.even (R2 + 1) = true) as Hev1 by (apply Ht1; lia).
  rewrite Z.even_add, Hev2 in Hev1. done.
Qed.

Lemma rhe_one (z : Z) : round_half_even z 1 = z.
Proof. unfold round_half_even. rewrite Z.mod_1_r, Z.div_1_r. done. Qed.

(** ** Powers of 2 *)
Lemma Qc_this_div (x y : Qc) : (this (x / y)%Qc == this x / this y)%Q.
Proof.
  unfold Qcdiv, Qcmult, Qcinv. cbn [this Q2Qc]. rewrite !Qred_correct. reflexivity.
Qed.

Lemma pow2_power (e : Z) : (this (pow2 e) == 2 ^ e)%Q.
Proof.
  unfold pow2. case_bool_decide as He.
  - change (this (Qc_of_Z (2 ^ e))) with (inject_Z (2 ^ e)). by rewrite Zpower_Qpower.
  - rewrite Qc_this_div. change (this (Qc_of_Z (2 ^ (- e)))) with (inject_Z (2 ^ (- e))).
    rewrite Zpower_Qpower by lia. rewrite Qpower_opp.
    change (this 1%Qc) with 1%Q. change (inject_Z 2) with 2%Q. field.
    apply Qpower_not_0. discriminate.
Qed.

Lemma power_pos (e : Z) : (0 < 2 ^ e)%Q.
Proof. by apply Qpower_0_lt. Qed.

Lemma power_split (k : Z) :
  (2 ^ k == inject_Z (2 ^ Z.max k 0) / inject_Z (2 ^ Z.max (- k) 0))%Q.
Proof.
  rewrite !Zpower_Qpower by lia. change (inject_Z 2) with 2%Q.
  destruct (Z_le_gt_dec 0 k).
  - rewrite Z.max_l, Z.max_r by lia. rewrite Qpower_0_r. field.
  - rewrite Z.max_r, Z.max_l by lia. rewrite Qpower_0_r, Qpower_opp. field.
    apply Qpower_not_0. discriminate.
Qed.

Lemma pow_pos (k : Z) : 0 < 2 ^ Z.max k 0.
Proof. apply Z.pow_pos_nonneg; lia. Qed.

Lemma cross_le (x a b N D : Q) :
  (0 < b)%Q → (0 < D)%Q → (x * (a / b) <= N / D ↔ x * a * D <= N * b)%Q.
Proof.
  intros Hb HD.
  assert (0 < b * D)%Q as Hpos by nra.
  rewrite <- (Qmult_le_r _ _ (b * D)%Q Hpos).
  assert (x * (a / b) * (b * D) == x * a * D)%Q as -> by (field; lra).
  assert (N / D * (b * D) == N * b)%Q as -> by (field; lra).
  reflexivity.
Qed.

Lemma cross_ge (x a b N D : Q) :
  (0 < b)%Q → (0 < D)%Q → (N / D <= x * (a / b) ↔ N * b <= x * a * D)%Q.
Proof.
  intros Hb HD.
  assert (0 < b * D)%Q as Hpos by nra.
  rewrite <- (Qmult_le_r _ _ (b * D)%Q Hpos).
  assert (x * (a / b) * (b * D) == x * a * D)%Q as -> by (field; lra).
  assert (N / D * (b * D) == N * b)%Q as -> by (field; lra).
  reflexivity.
Qed.

Lemma inject_Z_pos (z : Z) : 0 < z → (0 < inject_Z z)%Q.
Proof. intros H. change 0%Q with (inject_Z 0). by rewrite <- Zlt_Qlt. Qed.

Lemma scale_le (c : Z) (q : Qc) (k : Z) :
  (inject_Z c * 2 ^ k <= this q)%Q ↔
  c * (Z.pos (Qden q) * 2 ^ Z.max k 0) ≤ Qnum q * 2 ^ Z.max (- k) 0.
Proof.
  rewrite power_split. destruct q as [[n d] Hq]. cbn [this Qnum Qden].
  rewrite (Qmake_Qdiv n d).
  rewrite cross_le by (apply inject_Z_pos; first [apply pow_pos | lia]).
  rewrite <- !inject_Z_mult, <- Zle_Qle. split; lia.
Qed.

Lemma scale_ge (c : Z) (q : Qc) (k : Z) :
  (this q <= inject_Z c * 2 ^ k)%Q ↔
  Qnum q * 2 ^ Z.max (- k) 0 ≤ c * (Z.pos (Qden q) * 2 ^ Z.max k 0).
Proof.
  rewrite power_split. destruct q as [[n d] Hq]. cbn [this Qnum Qden].
  rewrite (Qmake_Qdiv n d).
  rewrite cross_ge by (apply inject_Z_pos; first [apply pow_pos | lia]).
  rewrite <- !inject_Z_mult, <- Zle_Qle. split; lia.
Qed.

Lemma significand_low (c : Z) (q : Qc) (k : Z) :
  (inject_Z c * 2 ^ k <= this q)%Q → c ≤ significand q k.
Proof.
  intros H. apply scale_le in H. rewrite <- (rhe_one c). unfold significand.
  pose proof (pow_pos k). apply rhe_mono; lia.
Qed.

Lemma significand_up (c : Z) (q : Qc) (k : Z) :
  (this q <= inject_Z c * 2 ^ k)%Q → significand q k ≤ c.
Proof.
  intros H. apply scale_ge in H. rewrite <- (rhe_one c). unfold significand.
  pose proof (pow_pos k). apply rhe_mono; lia.
Qed.

Lemma significand_mono (x y : Qc) (k : Z) :
  (x ≤ y)%Qc → significand x k ≤ significand y k.
Proof.
  intros H. unfold significand. pose proof (pow_pos k). pose proof (pow_pos (- k)).
  apply rhe_mono; [lia | lia |].
  unfold Qcle, Qle in H.
  set (A := 2 ^ Z.max k 0) in *. set (B := 2 ^ Z.max (- k) 0) in *.
  replace (Qnum x * B * (Z.pos (Qden y) * A)) with (Qnum x * Z.pos (Qden y) * (A * B)) by ring.
  replace (Qnum y * B * (Z.pos (Qden x) * A)) with (Qnum y * Z.pos (Qden x) * (A * B)) by ring.
  apply Z.mul_le_mono_nonneg_r; [lia | exact H].
Qed.

Lemma power_add (a b : Z) : (2 ^ (a + b) == 2 ^ a * 2 ^ b)%Q.
Proof. apply Qpower_plus. discriminate. Qed.

Lemma power_lt (a b : Z) : a < b → (2 ^ a < 2 ^ b)%Q.
Proof. intros H. by apply Qpower_lt_compat_l. Qed.

Lemma power_le (a b : Z) : a ≤ b → (2 ^ a <= 2 ^ b)%Q.
Proof. intros H. by apply Qpower_le_compat_l. Qed.

Lemma power_lt_inv (a b : Z) : (2 ^ a < 2 ^ b)%Q → a < b.
Proof. intros H. by apply Qpower_lt_compat_l_inv in H. Qed.

Lemma exponent_spec (q : Qc) :
  (0 < q)%Qc → (2 ^ exponent q <= this q)%Q ∧ (this q < 2 ^ (exponent q + 1))%Q.
Proof.
  intros Hq. unfold exponent.
  set (e0 := Z.log2 (Qnum q) - Z.log2 (Z.pos (Qden q))).
  assert (0 < Qnum q) as Hn.
  { unfold Qclt, Qlt in Hq. simpl in Hq. lia. }
  destruct (Z.log2_spec _ Hn) as [Hn1 Hn2].
  destruct (Z.log2_spec (Z.pos (Qden q)) ltac:(lia)) as [Hd1 Hd2].
  pose proof (Z.log2_nonneg (Qnum q)) as Hln.
  pose proof (Z.log2_nonneg (Z.pos (Qden q))) as Hld.
  set (ln := Z.log2 (Qnum q)) in *. set (ld := Z.log2 (Z.pos (Qden q))) in *.
  rewrite Zle_Qle, Zpower_Qpower in Hn1, Hd1 by lia.
  rewrite Zlt_Qlt, Zpower_Qpower in Hn2, Hd2 by lia.
  change (inject_Z 2) with 2%Q in *.
  assert (this q == inject_Z (Qnum q) / inject_Z (Z.pos (Qden q)))%Q as Hval.
  { destruct q as [[n d] ?]. simpl. apply Qmake_Qdiv. }
  set (N := inject_Z (Qnum q)) in *. set (D := inject_Z (Z.pos (Qden q))) in *.
  assert (0 < D)%Q as HD by (apply inject_Z_pos; lia).
  assert (2 ^ (e0 - 1) <= this q)%Q as Hlow.
  { rewrite Hval. apply Qle_shift_div_l; [done|].
    assert (2 ^ ln == 2 ^ (e0 - 1) * 2 ^ Z.succ ld)%Q as E
      by (rewrite <- power_add; f_equiv; unfold e0; lia).
    pose proof (power_pos (e0 - 1)). nra. }
  assert (this q < 2 ^ (e0 + 1))%Q as Hhigh.
  { rewrite Hval. apply Qlt_shift_div_r; [done|].
    assert (2 ^ Z.succ ln == 2 ^ (e0 + 1) * 2 ^ ld)%Q as E
      by (rewrite <- power_add; f_equiv; unfold e0; lia).
    pose proof (power_pos (e0 + 1)). nra. }
  case_bool_decide as Hb.
  - split; [|done]. unfold Qcle in Hb. by rewrite pow2_power in Hb.
  - replace (e0 - 1 + 1) with e0 by lia. split; [done|].
    apply Qnot_le_lt. intros H. apply Hb. unfold Qcle. by rewrite pow2_power.
Qed.

Lemma exponent_mono (x y : Qc) : (0 < x)%Qc → (x ≤ y)%Qc → exponent x ≤ exponent y.
Proof.
  intros Hx Hxy. assert (0 < y)%Qc as Hy by (by eapply Qclt_le_trans).
  destruct (exponent_spec x Hx) as [H1 _]. destruct (exponent_spec y Hy) as [_ H2].
  assert (2 ^ exponent x < 2 ^ (exponent y + 1))%Q as H.
  { eapply Qle_lt_trans; [exact H1|]. eapply Qle_lt_trans; [exact Hxy | exact H2]. }
  apply power_lt_inv in H. lia.
Qed.

Lemma last_place_mono (x y : Qc) : (0 < x)%Qc → (x ≤ y)%Qc → last_place x ≤ last_place y.
Proof. intros Hx Hxy. pose proof (exponent_mono x y Hx Hxy). unfold last_place. lia. Qed.

(** The value of the rounded number, in the rationals. *)
Lemma value_this (m k : Z) : (this (Qc_of_Z m * pow2 k)%Qc == inject_Z m * 2 ^ k)%Q.
Proof.
  unfold Qcmult. cbn [this Q2Qc]. rewrite Qred_correct, pow2_power. reflexivity.
Qed.

Lemma value_mono (x y : Qc) :
  (0 < x)%Qc → (x ≤ y)%Qc →
  (inject_Z (significand x (last_place x)) * 2 ^ last_place x
   <= inject_Z (significand y (last_place y)) * 2 ^ last_place y)%Q.
Proof.
  intros Hx Hxy. assert (0 < y)%Qc as Hy by (by eapply Qclt_le_trans).
  pose proof (last_place_mono x y Hx Hxy) as Hk.
  destruct (Z_le_lt_eq_dec _ _ Hk) as [Hlt | Heq].
  - destruct (exponent_spec x Hx) as [_ Hx2]. destruct (exponent_spec y Hy) as [Hy1 _].
    assert (last_place y = exponent y - 52) as Hky by (unfold last_place in *; lia).
    assert (exponent x + 1 ≤ exponent y) as He by (unfold last_place in *; lia).
    set (kx := last_place x) in *. set (ky := last_place y) in *.
    assert (2 ^ 52 ≤ significand y ky) as Hmy.
    { apply significand_low. rewrite Zpower_Qpower by lia. change (inject_Z 2) with 2%Q.
      rewrite <- power_add. replace (52 + ky) with (exponent y) by lia. done. }
    assert (significand x kx ≤ 2 ^ (ky + 52 - kx)) as Hmx.
    { apply significand_up. rewrite Zpower_Qpower by lia. change (inject_Z 2) with 2%Q.
      rewrite <- power_add. replace (ky + 52 - kx + kx) with (exponent y) by lia.
      apply Qlt_le_weak. eapply Qlt_le_trans; [exact Hx2|]. by apply power_le. }
    rewrite Zle_Qle, Zpower_Qpower in Hmy, Hmx by lia. change (inject_Z 2) with 2%Q in *.
    pose proof (power_pos kx). pose proof (power_pos ky).
    assert (2 ^ (ky + 52 - kx) * 2 ^ kx == 2 ^ 52 * 2 ^ ky)%Q as E.
    { rewrite <- !power_add. f_equiv. lia. }
    set (mx := inject_Z (significand x kx)) in *. set (my := inject_Z (significand y ky)) in *.
    set (P1 := (2 ^ (ky + 52 - kx))%Q) in *. set (P2 := (2 ^ 52)%Q) in *.
    set (Px := (2 ^ kx)%Q) in *. set (Py := (2 ^ ky)%Q) in *.
    clearbody mx my P1 P2 Px Py. nra.
  - rewrite <- Heq. pose proof (significand_mono x y (last_place x) Hxy) as Hm.
    rewrite Zle_Qle in Hm. pose proof (power_pos (last_place x)). nra.
Qed.

Lemma significand_nonneg (q : Qc) (k : Z) : (0 < q)%Qc → 0 ≤ significand q k.
Proof.
  intros Hq. apply significand_low. change (inject_Z 0) with 0%Q.
  rewrite Qmult_0_l. by apply Qlt_le_weak.
Qed.

Lemma binary64_positive_cases (q : Qc) :
  (0 < q)%Qc →
  binary64_positive q = PosInf ∨ ∃ v, binary64_positive q = Fin v ∧ (0 ≤ v)%Qc.
Proof.
  intros Hq. unfold binary64_positive. cbv zeta. destruct (_ && _); [by left|].
  right. eexists. split; [reflexivity|]. unfold Qcle. rewrite value_this.
  pose proof (significand_nonneg q (last_place q) Hq) as Hm. rewrite Zle_Qle in Hm.
  pose proof (power_pos (last_place q)). change (this 0%Qc) with 0%Q.
  change (inject_Z 0) with 0%Q in Hm. nra.
Qed.

Lemma binary64_positive_mono (x y : Qc) :
  (0 < x)%Qc → (x ≤ y)%Qc → leb (binary64_positive x) (binary64_positive y) = true.
Proof.
  intros Hx Hxy. pose proof (value_mono x y Hx Hxy) as Hv.
  pose proof (last_place_mono x y Hx Hxy) as Hk.
  unfold binary64_positive. cbv zeta.
  set (kx := last_place x) in *. set (ky := last_place y) in *.
  set (mx := significand x kx) in *. set (my := significand y ky) in *.
  destruct (bool_decide (0 ≤ ky) && bool_decide (2 ^ 1024 ≤ my * 2 ^ ky)) eqn:Hy.
  { destruct (bool_decide (0 ≤ kx) && bool_decide (2 ^ 1024 ≤ mx * 2 ^ kx)); reflexivity. }
  destruct (bool_decide (0 ≤ kx) && bool_decide (2 ^ 1024 ≤ mx * 2 ^ kx)) eqn:Hox.
  - exfalso. apply andb_true_iff in Hox as [H1 H2].
    apply bool_decide_eq_true in H1, H2.
    assert (mx * 2 ^ kx ≤ my * 2 ^ ky) as Hz.
    { rewrite Zle_Qle, !inject_Z_mult, !Zpower_Qpower by lia. done. }
    rewrite (bool_decide_eq_true_2 (0 ≤ ky)) in Hy by lia.
    rewrite (bool_decide_eq_true_2 (2 ^ 1024 ≤ my * 2 ^ ky)) in Hy by lia. done.
  - simpl. apply bool_decide_eq_true. unfold Qcle. by rewrite !value_this.
Qed.

Lemma Qcopp_pos (x : Qc) : (x < 0)%Qc → (0 < - x)%Qc.
Proof.
  unfold Qclt, Qcopp. cbn [this Q2Qc]. rewrite !Qred_correct. lra.
Qed.

Lemma Qcopp_nonpos (v : Qc) : (0 ≤ v)%Qc → (- v ≤ 0)%Qc.
Proof.
  unfold Qcle, Qcopp. cbn [this Q2Qc]. rewrite !Qred_correct. lra.
Qed.

Lemma binary64_monotone : monotone binary64.
Proof.
  intros x y Hxy. unfold binary64.
  destruct (decide (x = 0%Qc)) as [-> | Hx0].
  { rewrite (bool_decide_eq_true_2 (0%Qc = 0%Qc)) by done.
    case_bool_decide as Hy0; [done|].
    rewrite bool_decide_eq_true_2.
    - destruct (binary64_positive_cases y) as [-> | (v & -> & Hv)]; try done.
      + by apply Qcle_lt_or_eq in Hxy as [? | ?].
      + by apply bool_decide_eq_true.
    - by apply Qcle_lt_or_eq in Hxy as [? | ?]. }
  rewrite (bool_decide_eq_false_2 (x = 0%Qc)) by done.
  destruct (Qclt_le_dec 0 x) as [Hx | Hx].
  - assert (0 < y)%Qc as Hy by (by eapply Qclt_le_trans).
    rewrite (bool_decide_eq_true_2 (0 < x)%Qc), (bool_decide_eq_true_2 (0 < y)%Qc) by done.
    rewrite (bool_decide_eq_false_2 (y = 0%Qc)) by (intros ->; by apply Qclt_not_eq in Hy).
    by apply binary64_positive_mono.
  - assert (x < 0)%Qc as Hneg by (apply Qcle_lt_or_eq in Hx as [? | ?]; done).
    rewrite (bool_decide_eq_false_2 (0 < x)%Qc) by (by apply Qcle_not_lt).
    assert (0 < - x)%Qc as Hnx by (by apply Qcopp_pos).
    destruct (decide (y = 0%Qc)) as [-> | Hy0].
    { rewrite (bool_decide_eq_true_2 (0%Qc = 0%Qc)) by done.
      destruct (binary64_positive_cases (- x)%Qc Hnx) as [-> | (v & -> & Hv)]; [done|].
      simpl. apply bool_decide_eq_true. by apply Qcopp_nonpos. }
    rewrite (bool_decide_eq_false_2 (y = 0%Qc)) by done.
    destruct (Qclt_le_dec 0 y) as [Hy | Hy].
    + rewrite (bool_decide_eq_true_2 (0 < y)%Qc) by done.
      destruct (binary64_positive_cases (- x)%Qc Hnx) as [-> | (v & -> & Hv)];
        destruct (binary64_positive_cases y Hy) as [-> | (w & -> & Hw)]; try done.
      simpl. apply bool_decide_eq_true. apply Qcopp_nonpos in Hv.
      eapply Qcle_trans; [exact Hv | exact Hw].
    + assert (y < 0)%Qc as Hyneg by (apply Qcle_lt_or_eq in Hy as [? | ?]; done).
      rewrite (bool_decide_eq_false_2 (0 < y)%Qc) by (by apply Qcle_not_lt).
      assert (0 < - y)%Qc as Hny by (by apply Qcopp_pos).
      pose proof (binary64_positive_mono (- y)%Qc (- x)%Qc Hny
                    (Qcopp_le_compat _ _ Hxy)) as Hm.
      destruct (binary64_positive_cases (- x)%Qc Hnx) as [Ex | (v & Ex & Hv)];
        destruct (binary64_positive_cases (- y)%Qc Hny) as [Ey | (w & Ey & Hw)];
        rewrite Ex, Ey in *; try done.
      simpl in *. apply bool_decide_eq_true. apply bool_decide_eq_true in Hm.
      by apply Qcopp_le_compat.
Qed.

Lemma significand_exact (c : Z) (q : Qc) (k : Z) :
  (this q == inject_Z c * 2 ^ k)%Q → significand q k = c.
Proof.
  intros H. apply Z.le_antisymm; [apply significand_up | apply significand_low];
    rewrite H; apply Qle_refl.
Qed.

Lemma binary64_positive_double (m e : Z) :
  0 < m < 2 ^ 53 → -1074 ≤ e ≤ 971 →
  binary64_positive (Qc_of_Z m * pow2 e) = Fin (Qc_of_Z m * pow2 e)%Qc.
Proof.
  intros Hm He. set (q := (Qc_of_Z m * pow2 e)%Qc).
  pose proof (value_this m e) as Hval. fold q in Hval.
  pose proof (power_pos e) as Hpe.
  assert (0 < inject_Z m)%Q as Hm0 by (apply inject_Z_pos; lia).
  assert (inject_Z m < 2 ^ 53)%Q as Hm53.
  { change 2%Q with (inject_Z 2). rewrite <- Zpower_Qpower by lia. rewrite <- Zlt_Qlt. lia. }
  assert (0 < q)%Qc as Hq.
  { unfold Qclt. rewrite Hval. change (this 0%Qc) with 0%Q. nra. }
  destruct (exponent_spec q Hq) as [HE _].
  assert (exponent q < 53 + e) as Hexp.
  { apply power_lt_inv. eapply Qle_lt_trans; [exact HE|]. rewrite Hval, power_add.
    pose proof (power_pos 53). nra. }
  assert (last_place q ≤ e) as Hk by (unfold last_place; lia).
  assert (-1074 ≤ last_place q) as Hk' by (unfold last_place; lia).
  set (k := last_place q) in *.
  assert (significand q k = m * 2 ^ (e - k)) as Hsig.
  { apply significand_exact. rewrite Hval, inject_Z_mult, Zpower_Qpower by lia.
    change (inject_Z 2) with 2%Q. rewrite <- Qmult_assoc, <- power_add.
    replace (e - k + k) with e by lia. reflexivity. }
  unfold binary64_positive. cbv zeta. fold k. rewrite Hsig.
  assert (bool_decide (0 ≤ k) && bool_decide (2 ^ 1024 ≤ m * 2 ^ (e - k) * 2 ^ k) = false) as ->.
  { case_bool_decide as H0; [|done]. simpl. apply bool_decide_eq_false. intros Hbig.
    rewrite <- Z.mul_assoc, <- Z.pow_add_r in Hbig by lia.
    replace (e - k + k) with e in Hbig by lia.
    assert (2 ^ e ≤ 2 ^ 971) as Hpow by (apply Z.pow_le_mono_r; lia).
    assert (0 < 2 ^ e) as Hpos by (apply Z.pow_pos_nonneg; lia).
    assert (2 ^ 1024 = 2 ^ 53 * 2 ^ 971) as E by (rewrite <- Z.pow_add_r by lia; reflexivity).
    nia. }
  f_equal. apply Qc_is_canon. rewrite value_this, Hval.
  rewrite inject_Z_mult, Zpower_Qpower by lia. change (inject_Z 2) with 2%Q.
  rewrite <- Qmult_assoc, <- power_add. replace (e - k + k) with e by lia. reflexivity.
Qed.

Lemma binary64_keeps_doubles : keeps_doubles binary64.
Proof.
  intros q (m & e & Hm & He & ->).
  pose proof (value_this m e) as Hval. pose proof (power_pos e) as Hpe.
  unfold binary64.
  destruct (Z.lt_trichotomy m 0) as [Hneg | [-> | Hpos]].
  - assert (inject_Z m < 0)%Q as Hm0 by (change 0%Q with (inject_Z 0); rewrite <- Zlt_Qlt; lia).
    assert (Qc_of_Z m * pow2 e < 0)%Qc as Hq.
    { unfold Qclt. rewrite Hval. change (this 0%Qc) with 0%Q. nra. }
    rewrite bool_decide_eq_false_2 by (intros E; rewrite E in Hq; by apply Qclt_not_eq in Hq).
    rewrite bool_decide_eq_false_2 by (apply Qcle_not_lt; by apply Qclt_le_weak).
    assert (- (Qc_of_Z m * pow2 e) = Qc_of_Z (- m) * pow2 e)%Qc as E.
    { apply Qc_is_canon. rewrite value_this. unfold Qcopp. cbn [this Q2Qc].
      rewrite Qred_correct, Hval, inject_Z_opp. ring. }
    rewrite E, binary64_positive_double by lia. f_equal. rewrite <- E. apply Qcopp_involutive.
  - assert (Qc_of_Z 0 * pow2 e = 0)%Qc as -> by (apply Qc_is_canon; rewrite value_this; apply Qmult_0_l).
    by rewrite bool_decide_eq_true_2.
  - assert (0 < inject_Z m)%Q as Hm0 by (apply inject_Z_pos; lia).
    assert (0 < Qc_of_Z m * pow2 e)%Qc as Hq.
    { unfold Qclt. rewrite Hval. change (this 0%Qc) with 0%Q. nra. }
    rewrite bool_decide_eq_false_2 by (intros E; rewrite E in Hq; by apply Qclt_not_eq in Hq).
    rewrite bool_decide_eq_true_2 by done.
    apply binary64_positive_double; lia.
Qed.

End DoubleFacts.

(* ===================================================================== *)
(** * The nearest stop *)
(* ===================================================================== *)

Module NearestFacts.

Import JS JSFacts MapScreen Statements.

Lemma at_index_lookup (D : list num) (j : nat) (d : num) :
  D !! j = Some d → at_index D j = d.
Proof. unfold at_index. intros ->. reflexivity. Qed.

Section Invariant.

Variable D : list num.

Lemma nearest_inv_init : nearest_inv D 0 0.
Proof. split; [by left | intros j Hj; lia | intros j Hj; lia | done | done]. Qed.

Lemma nearest_inv_step (k best : nat) (d : num) :
  nearest_inv D k best → D !! k = Some d →
  nearest_inv D (S k) (nearest_step D best d k).
Proof.
  intros [Hr Hm Hf Hstuck Hnumber] Hk. apply at_index_lookup in Hk. subst d.
  unfold nearest_step. destruct (ltb (at_index D k) (at_index D best)) eqn:Hlt.
  - split.
    + right. lia.
    + intros j Hj. destruct (decide (j = k)) as [->|Hne]; [apply ltb_irrefl|].
      destruct (ltb (at_index D j) (at_index D k)) eqn:Hjk; [|reflexivity].
      rewrite <- (Hm j ltac:(lia)). symmetry. eapply ltb_trans; eassumption.
    + intros j Hj.
      destruct (leb (at_index D j) (at_index D k)) eqn:Hjk; [|reflexivity].
      rewrite <- (Hm j Hj). symmetry. eapply leb_ltb_trans; eassumption.
    + intros Hnan. rewrite (Hstuck Hnan) in Hlt.
      apply ltb_not_nan in Hlt as [_ Hlt]. congruence.
    + intros _. by apply ltb_not_nan in Hlt as [? _].
  - split.
    + destruct Hr; [by left | right; lia].
    + intros j Hj. destruct (decide (j = k)) as [->|Hne]; [exact Hlt|].
      apply Hm. lia.
    + exact Hf.
    + exact Hstuck.
    + exact Hnumber.
Qed.

Lemma reduce_from_inv (l : list num) (k best : nat) :
  nearest_inv D k best → (k ≤ length D)%nat → drop k D = l →
  nearest_inv D (length D) (reduce_from (nearest_step D) k l best).
Proof.
  revert k best. induction l as [|x rest IH]; intros k best Hinv Hle Hdrop; simpl.
  - assert (length (drop k D) = 0%nat) as Hlen by (by rewrite Hdrop).
    rewrite length_drop in Hlen. by replace (length D) with k by lia.
  - assert (D !! k = Some x) as Hk.
    { rewrite <- (Nat.add_0_r k), <- lookup_drop, Hdrop. reflexivity. }
    apply IH.
    + by apply nearest_inv_step.
    + apply lookup_lt_Some in Hk. lia.
    + rewrite (drop_S _ _ _ Hk) in Hdrop. congruence.
Qed.

Lemma nearestIndex_inv : nearest_inv D (length D) (nearestIndex D).
Proof.
  unfold nearestIndex, reduce. apply reduce_from_inv.
  - apply nearest_inv_init.
  - lia.
  - apply drop_0.
Qed.

Lemma nearestIndex_lt : D ≠ [] → (nearestIndex D < length D)%nat.
Proof.
  intros Hne. destruct (inv_range _ _ _ nearestIndex_inv) as [-> | ?]; [|done].
  destruct D; [done | simpl; lia].
Qed.




End Invariant.

End NearestFacts.

(* ===================================================================== *)
(** * Route progress *)
(* ===================================================================== *)

Module ProgressFacts.

Import JS JSFacts MapScreen Statements NearestFacts.

Section Facts.

Variable greatCircle : Qc → Qc → Qc → Qc → num.
Variable fl : Qc → num.
Variable render : Qc → string.


Lemma stop_distances_length routeStops bus :
  length (stop_distances greatCircle routeStops bus) = length routeStops.
Proof. unfold stop_distances. by rewrite !length_fmap. Qed.

(** The tracked branch of [routeProgress], with its local names. *)
Lemma routeProgress_tracked routeStops bus :
  routeStops ≠ [] →
  routeProgress greatCircle fl render routeStops (Some bus) true =
    let D := stop_distances greatCircle routeStops bus in
    let nearest := Z.of_nat (nearestIndex D) in
    let nextIdx0 := if isAtStop D then nearest + 1 else nearest in
    let nextIdx := if bool_decide (Z.of_nat (length routeStops) ≤ nextIdx0) then -1 else nextIdx0 in
    {| stops := imap (decorate fl render (bus_speed bus) (isAtStop D) nearest nextIdx (nearest - 1))
                  (enrich greatCircle (Some bus) <$> routeStops);
       currentIndex := if isAtStop D then nearest else -1;
       nextIndex := nextIdx |}.
Proof.
  intros Hne. unfold routeProgress.
  rewrite bool_decide_eq_false_2 by (by destruct routeStops).
  rewrite bool_decide_eq_true_2 by eauto. simpl.
  fold (stop_distances greatCircle routeStops bus). rewrite length_fmap.
  rewrite (Z.max_l (_ - 1) (-1)) by lia. reflexivity.
Qed.

Lemma routeProgress_idle routeStops busLocation isBusTracking :
  routeStops ≠ [] →
  busLocation = None ∨ isBusTracking = false →
  routeProgress greatCircle fl render routeStops busLocation isBusTracking =
    {| stops := imap (idle_stop) (enrich greatCircle busLocation <$> routeStops);
       currentIndex := -1;
       nextIndex := 0 |}.
Proof.
  intros Hne Hidle. unfold routeProgress.
  assert (length routeStops ≠ 0%nat) as Hlen by (by destruct routeStops).
  rewrite bool_decide_eq_false_2 by done.
  rewrite length_fmap, (bool_decide_eq_true_2 _ Hlen).
  destruct Hidle as [-> | ->].
  - rewrite bool_decide_eq_false_2 by (by intros [? ?]). reflexivity.
  - rewrite orb_true_r. reflexivity.
Qed.

(** The status of a stop of the tracked branch, by its position
    relative to the nearest stop [r]. *)
Lemma stop_status_tracked (atStop : bool) (r n idx : nat) :
  (r < n)%nat → (idx < n)%nat →
  let nearest := Z.of_nat r in
  let nextIdx0 := if atStop then nearest + 1 else nearest in
  let nextIdx := if bool_decide (Z.of_nat n ≤ nextIdx0) then -1 else nextIdx0 in
  stop_status atStop nearest nextIdx (nearest - 1) idx =
    if decide (idx < r)%nat then completed
    else if decide (idx = r) then (if atStop then current else next)
    else if decide (idx = S r ∧ atStop = true) then next
    else upcoming.
Proof.
  intros Hr Hidx. unfold stop_status.
  destruct atStop; simpl; repeat case_bool_decide; repeat case_decide;
    try reflexivity; try lia; try (exfalso; intuition (congruence || lia)).
Qed.

Lemma lookup_decorated (f : nat → EnrichedStop → DecoratedStop) busLocation routeStops
    (i : nat) (a : DecoratedStop) :
  imap f (enrich greatCircle busLocation <$> routeStops) !! i = Some a →
  ∃ s, routeStops !! i = Some s ∧ a = f i (enrich greatCircle busLocation s).
Proof.
  rewrite list_lookup_imap, list_lookup_fmap.
  destruct (routeStops !! i) as [s|]; simpl; [|done].
  intros [= <-]. eauto.
Qed.

(** The status of every entry of the output, in the three branches. *)
Lemma routeProgress_status routeStops busLocation isBusTracking (i : nat) (a : DecoratedStop) :
  stops (routeProgress greatCircle fl render routeStops busLocation isBusTracking) !! i = Some a →
  match busLocation, isBusTracking with
  | Some bus, true =>
      let D := stop_distances greatCircle routeStops bus in
      let r := nearestIndex D in
      status a =
        if decide (i < r)%nat then completed
        else if decide (i = r) then (if isAtStop D then current else next)
        else if decide (i = S r ∧ isAtStop D = true) then next
        else upcoming
  | _, _ => status a = if decide (i = 0%nat) then next else upcoming
  end.
Proof.
  intros Hi.
  destruct (decide (routeStops = [])) as [-> | Hne]; [done|].
  assert (∀ f, imap f (enrich greatCircle busLocation <$> routeStops) !! i = Some a →
               (i < length routeStops)%nat) as Hlen.
  { intros f Hf. apply lookup_decorated in Hf as (s & Hs & _). by eapply lookup_lt_Some. }
  destruct busLocation as [bus|], isBusTracking.
  - rewrite routeProgress_tracked in Hi by done. simpl in Hi.
    pose proof (Hlen _ Hi) as Hlt.
    apply lookup_decorated in Hi as (s & Hs & ->). simpl.
    apply stop_status_tracked; [|done].
    rewrite <- (stop_distances_length routeStops bus). apply nearestIndex_lt.
    intros HD. apply (f_equal length) in HD. rewrite stop_distances_length in HD.
    by destruct routeStops.
  - rewrite routeProgress_idle in Hi by auto. simpl in Hi.
    apply lookup_decorated in Hi as (s & Hs & ->). simpl.
    by repeat case_bool_decide; repeat case_decide.
  - rewrite routeProgress_idle in Hi by auto. simpl in Hi.
    apply lookup_decorated in Hi as (s & Hs & ->). simpl.
    by repeat case_bool_decide; repeat case_decide.
  - rewrite routeProgress_idle in Hi by auto. simpl in Hi.
    apply lookup_decorated in Hi as (s & Hs & ->). simpl.
    by repeat case_bool_decide; repeat case_decide.
Qed.

Lemma routeProgress_length routeStops busLocation isBusTracking :
  length (stops (routeProgress greatCircle fl render routeStops busLocation isBusTracking)) = length routeStops.
Proof.
  unfold routeProgress. case_bool_decide as Hlen.
  - by destruct routeStops.
  - destruct (_ || _); simpl; by rewrite length_imap, length_fmap.
Qed.

(** ** The statements of the design document *)

(** C1. Whatever the stop list, the sample and the tracking flag, at most
    one stop of the output is [current], at most one is [next], and the
    [completed] stops are exactly the stops below some index [k]: every
    completed stop comes strictly before every stop that is not. *)
Theorem stop_classification_invariant (routeStops : list RouteStop)
    (busLocation : option BusLocation) (isBusTracking : bool) :
  let P := routeProgress greatCircle fl render routeStops busLocation isBusTracking in
  (∀ i j a b, stops P !! i = Some a → stops P !! j = Some b →
              status a = current → status b = current → i = j) ∧
  (∀ i j a b, stops P !! i = Some a → stops P !! j = Some b →
              status a = next → status b = next → i = j) ∧
  (∃ k : nat, (k ≤ length (stops P))%nat ∧
              ∀ i a, stops P !! i = Some a → (status a = completed ↔ (i < k)%nat)) ∧
  (∀ i j a b, stops P !! i = Some a → stops P !! j = Some b →
              status a = completed → status b ≠ completed → (i < j)%nat).
Proof.
  intros P. subst P.
  pose proof (routeProgress_status routeStops busLocation isBusTracking) as HS.
  repeat split.
  - intros i j a b Hi Hj. apply HS in Hi, Hj. revert Hi Hj.
    destruct busLocation as [bus|], isBusTracking; simpl; intros -> ->;
      repeat case_decide; try destruct (isAtStop _); try congruence; lia.
  - intros i j a b Hi Hj. apply HS in Hi, Hj. revert Hi Hj.
    destruct busLocation as [bus|], isBusTracking; simpl; intros -> ->;
      repeat case_decide; try destruct (isAtStop _); try congruence; try lia;
      intuition (congruence || lia).
  - exists (match busLocation, isBusTracking with
            | Some bus, true => nearestIndex (stop_distances greatCircle routeStops bus)
            | _, _ => 0%nat
            end).
    split.
    + rewrite routeProgress_length.
      destruct busLocation as [bus|], isBusTracking; try lia.
      destruct (decide (routeStops = [])) as [-> | Hne]; [by vm_compute|].
      rewrite <- (stop_distances_length routeStops bus).
      apply Nat.lt_le_incl, nearestIndex_lt.
      intros HD. apply (f_equal length) in HD. rewrite stop_distances_length in HD.
      by destruct routeStops.
    + intros i a Hi. apply HS in Hi. revert Hi.
      destruct busLocation as [bus|], isBusTracking; simpl; intros ->;
        repeat case_decide; try destruct (isAtStop _); split; try congruence; lia.
  - intros i j a b Hi Hj. apply HS in Hi, Hj. revert Hi Hj.
    destruct busLocation as [bus|], isBusTracking; simpl; intros -> ->;
      repeat case_decide; try destruct (isAtStop _); try congruence; lia.
Qed.

Lemma stop_distances_ne routeStops bus :
  routeStops ≠ [] → stop_distances greatCircle routeStops bus ≠ [].
Proof.
  intros Hne HD. apply (f_equal length) in HD.
  rewrite stop_distances_length in HD. by destruct routeStops.
Qed.




(** The label of a [next] stop of the tracked branch is [etaForDistance]
    of its distance. *)
Lemma next_label routeStops bus (i : nat) (a : DecoratedStop) :
  stops (routeProgress greatCircle fl render routeStops (Some bus) true) !! i = Some a →
  status a = next →
  ∃ s, routeStops !! i = Some s ∧
       distanceMeters a = Some (haversineDistance greatCircle bus s) ∧
       etaLabel a = etaForDistance fl render (bus_speed bus)
                      (Some (haversineDistance greatCircle bus s)).
Proof.
  intros Hi Hnext.
  destruct (decide (routeStops = [])) as [-> | Hne]; [done|].
  rewrite routeProgress_tracked in Hi by done. simpl in Hi.
  apply lookup_decorated in Hi as (s & Hs & ->).
  exists s. split; [done|]. split; [reflexivity|].
  unfold decorate in *. simpl in *. by rewrite Hnext.
Qed.

(** The stop classified [next] while no sample is tracked is the first
    one, labelled by its scheduled time. *)
Lemma next_label_idle routeStops busLocation isBusTracking (i : nat) (a : DecoratedStop) :
  busLocation = None ∨ isBusTracking = false →
  stops (routeProgress greatCircle fl render routeStops busLocation isBusTracking) !! i = Some a →
  status a = next →
  ∃ s, routeStops !! i = Some s ∧ i = 0%nat ∧
       etaLabel a = match stop_time s with
                    | Some (String c t) => "ETA " +:+ String c t
                    | _ => "Upcoming stop"
                    end.
Proof.
  intros Hidle Hi Hnext.
  destruct (decide (routeStops = [])) as [-> | Hne]; [done|].
  rewrite routeProgress_idle in Hi by done. simpl in Hi.
  apply lookup_decorated in Hi as (s & Hs & ->).
  exists s. split; [done|]. simpl in *. split; [|done].
  by case_bool_decide.
Qed.

(** The minute count of a speed above 0.5 is the rounded quotient, at
    least 1. *)
Lemma etaMinutes_fast (speed d : Qc) :
  ¬ (speed ≤ ratio 1 2)%Qc →
  etaMinutes fl speed d
    = max2 (Math_round_num (div fl (div fl (Fin d) speed) (Qc_of_Z 60))) (ofZ 1) ∧
  Qc_max speed one_tenth = speed.
Proof.
  intros Hfast. apply Qcnot_le_lt in Hfast.
  assert (∀ small, (small < ratio 1 2)%Qc → Qc_max speed small = speed) as Hmax.
  { intros small Hsmall. unfold Qc_max. rewrite bool_decide_eq_false_2; [done|].
    apply Qcle_not_lt, Qclt_le_weak. by eapply Qclt_trans. }
  assert (Qc_max speed one_tenth = speed) as E
    by (apply Hmax, (bool_decide_unpack _); by vm_compute).
  unfold etaMinutes. by rewrite E.
Qed.

(** C2, as the code has it.  The stop classified [next].  While no sample
    is tracked it is the first stop, labelled "ETA" with its scheduled
    time, or "Upcoming stop".  For a tracked sample: when the distance of
    the stop is not finite the label is empty; when it is finite the label
    is "Awaiting movement" up to 0.5 m/s and is otherwise made of
    [minutes], the quotient [distance / speed / 60] of two divisions on
    doubles, rounded to an integer and raised to 1: "Arriving now" up to 1
    and "Arriving in {minutes} min" above.  When that quotient is finite
    (and the count below [10^21], so that it is written in digits) the
    label is the one the design document words, and no other label fits
    that wording. *)
Theorem next_stop_eta_label (routeStops : list RouteStop) (busLocation : option BusLocation)
    (isBusTracking : bool) (i : nat) (a : DecoratedStop) :
  stops (routeProgress greatCircle fl render routeStops busLocation isBusTracking) !! i = Some a →
  status a = next →
  ∃ s, routeStops !! i = Some s ∧
       match busLocation, isBusTracking with
       | Some bus, true =>
           match haversineDistance greatCircle bus s with
           | Fin d =>
               let speed := bus_speed bus in
               let quotient := div fl (div fl (Fin d) speed) (Qc_of_Z 60) in
               let minutes := max2 (Math_round_num quotient) (ofZ 1) in
               ((speed ≤ ratio 1 2)%Qc → etaLabel a = "Awaiting movement") ∧
               (¬ (speed ≤ ratio 1 2)%Qc →
                  etaLabel a = if leb minutes (ofZ 1) then "Arriving now"
                               else "Arriving in " +:+ NumberToString render minutes +:+ " min") ∧
               (∀ q, div fl (div fl (Fin d) (Qc_max speed one_tenth)) (Qc_of_Z 60) = Fin q →
                     Z.max (Math_round q) 1 < 10 ^ 21 →
                     Design.eta_label_spec speed q (etaLabel a) ∧
                     ∀ l, Design.eta_label_spec speed q l → l = etaLabel a)
           | _ => etaLabel a = ""
           end
       | _, _ =>
           i = 0%nat ∧
           etaLabel a = match stop_time s with
                        | Some (String c t) => "ETA " +:+ String c t
                        | _ => "Upcoming stop"
                        end
       end.
Proof.
  intros Hi Hnext.
  assert (busLocation = None ∨ isBusTracking = false →
          ∃ s, routeStops !! i = Some s ∧ i = 0%nat ∧
               etaLabel a = match stop_time s with
                            | Some (String c t) => "ETA " +:+ String c t
                            | _ => "Upcoming stop"
                            end) as Hidle
    by (intros Hidle; by eapply next_label_idle).
  destruct busLocation as [bus|]; [destruct isBusTracking|];
    [| destruct Hidle as (s & ? & ? & ?); [by right | by exists s]
     | destruct Hidle as (s & ? & ? & ?); [by left | by exists s]].
  destruct (next_label routeStops bus i a Hi Hnext) as (s & Hs & _ & ->).
  exists s. split; [done|].
  destruct (haversineDistance greatCircle bus s) as [d| | |]; try reflexivity.
  cbv zeta. unfold etaForDistance. split_and!.
  - intros Hslow. by rewrite bool_decide_eq_true_2.
  - intros Hfast. rewrite bool_decide_eq_false_2 by done.
    by destruct (etaMinutes_fast (bus_speed bus) d Hfast) as [-> _].
  - intros q Hq Hdigits. case_bool_decide as Hslow.
    { split; [by constructor|]. intros l Hl. by destruct Hl. }
    destruct (etaMinutes_fast (bus_speed bus) d Hslow) as [-> Hmax].
    rewrite Hmax in Hq. rewrite Hq. cbn [Math_round_num]. rewrite max2_ofZ, leb_ofZ.
    pose proof (Math_round_nearest q) as Hround.
    case_bool_decide as Hm.
    + split; [by econstructor 2|]. intros l Hl. destruct Hl as [|m ? Hn ?|m ? Hn ?]; try done.
      rewrite (nearest_integer_unique q _ _ Hn Hround) in *. lia.
    + rewrite NumberToString_ofZ by lia.
      split; [econstructor 3; [done | exact Hround | lia]|].
      intros l Hl. destruct Hl as [|m ? Hn ?|m ? Hn ?]; try done.
      * rewrite (nearest_integer_unique q _ _ Hn Hround) in *. lia.
      * by rewrite (nearest_integer_unique q _ _ Hn Hround).
Qed.

End Facts.

(** ** Concrete routes *)


(** The bus 50 meters from S2 and from S3: S1 is completed, S2 current, S3
    next. *)
Lemma stop_classification_invariant_witness :
  let P := routeProgress planar binary64 plain_digits demo_route (Some (busAt 0 150 (Qc_of_Z 5))) true in
  status <$> stops P = [completed; current; next] ∧
  ∀ i j a b, stops P !! i = Some a → stops P !! j = Some b →
             status a = completed → status b ≠ completed → (i < j)%nat.
Proof.
  intros P. split; [by vm_compute|].
  apply (stop_classification_invariant planar binary64 plain_digits demo_route
           (Some (busAt 0 150 (Qc_of_Z 5))) true).
Defined.





(** The bus 600 meters from the first stop at 5 m/s: 120 seconds, which
    are 2 minutes. *)
Lemma next_stop_eta_label_witness :
  let route := [stopAt "S1" 0 0; stopAt "S2" 0 1310] in
  let bus := busAt 0 600 (Qc_of_Z 5) in
  ∃ a, stops (routeProgress planar binary64 plain_digits route (Some bus) true) !! 0%nat = Some a ∧
       status a = next ∧
       etaLabel a = "Arriving in 2 min" ∧
       Design.eta_label_spec (bus_speed bus) (Qc_of_Z 2) (etaLabel a).
Proof.
  intros route bus. eexists. split; [by vm_compute|].
  split; [reflexivity|]. split; [by vm_compute|].
  destruct (next_stop_eta_label planar binary64 plain_digits route (Some bus) true 0%nat _
              ltac:(by vm_compute) eq_refl) as (s & Hs & Hlabel).
  injection Hs as <-.
  assert (haversineDistance planar bus (stopAt "S1" 0 0) = ofZ 600) as Hd by num_eq.
  rewrite Hd in Hlabel. destruct Hlabel as (_ & _ & Hspec).
  apply (Hspec (Qc_of_Z 2)); [num_eq | by vm_compute].
Defined.

(** C2, as worded.  At a stop whose distance is not finite: the bus
    stands still at the first stop, the second stop has no coordinates, so
    that [haversineDistance] is [Infinity] for it; it is classified
    [next], and its label is empty rather than "Awaiting movement".
    While no sample is tracked: the first stop is [next] and its label
    is "Upcoming stop".  And in double arithmetic: at 72 meters and the
    speed written 0.8 the two divisions give 1.5 and the label "Arriving
    in 2 min", where the quotient of the exact divisions is below 1.5 and
    is worded "Arriving now". *)
Lemma next_stop_eta_label_counterexample :
  let route := [stopAt "Depot" 0 0; mkStop "Campus" "Campus" Undefined Undefined None] in
  let bus := busAt 0 0 0%Qc in
  let speed := Q2Qc (3602879701896397 # 4503599627370496) in
  (∃ a, stops (routeProgress planar binary64 plain_digits route (Some bus) true) !! 1%nat = Some a ∧
        status a = next ∧ distanceMeters a = Some PosInf ∧
        bus_speed bus = 0%Qc ∧ etaLabel a = "") ∧
  (∃ a, stops (routeProgress planar binary64 plain_digits route None false) !! 0%nat = Some a ∧
        status a = next ∧ etaLabel a = "Upcoming stop") ∧
  (binary64 (ratio 8 10) = Fin speed ∧
   etaForDistance binary64 plain_digits speed (Some (ofZ 72)) = "Arriving in 2 min" ∧
   Design.eta_label_spec speed (Qc_of_Z 72 / speed / Qc_of_Z 60)%Qc "Arriving now") ∧
  ¬ (∀ greatCircle fl render routeStops bus (i : nat) a,
       stops (routeProgress greatCircle fl render routeStops (Some bus) true) !! i = Some a →
       status a = next →
       (bus_speed bus ≤ ratio 1 2)%Qc →
       etaLabel a = "Awaiting movement").
Proof.
  intros route bus speed.
  assert (∃ a, stops (routeProgress planar binary64 plain_digits route (Some bus) true) !! 1%nat = Some a ∧
               status a = next ∧ distanceMeters a = Some PosInf ∧
               bus_speed bus = 0%Qc ∧ etaLabel a = "") as Hrun.
  { eexists. split; [by vm_compute|]. by split_and!. }
  split; [exact Hrun|]. split.
  { eexists. split; [by vm_compute|]. by split. }
  split.
  { split; [num_eq|]. split; [by vm_compute|].
    apply (Design.eta_now _ _ 1).
    - apply (bool_decide_unpack _). by vm_compute.
    - split; apply (bool_decide_unpack _); by vm_compute.
    - done. }
  destruct Hrun as (a & Ha & Hnext & _ & _ & Hlabel). intros Hforall.
  specialize (Hforall planar binary64 plain_digits route bus 1%nat a Ha Hnext).
  rewrite Hlabel in Hforall. discriminate Hforall.
  apply (bool_decide_unpack _). by vm_compute.
Qed.

End ProgressFacts.


(* ===================================================================== *)
(** * The observers of the live location *)
(* ===================================================================== *)

Module SubscriberFacts.

Import JS LocationService Statements.

Section Observers.

Variable StringToNumber : string → num.
Variable now : value.
Variable busDriver : value.

Lemma hasValidCoords_finite (data : Snapshot) :
  MapScreen.hasValidCoords (Some data) = true ↔ Design.finite_coordinates data.
Proof.
  unfold MapScreen.hasValidCoords, Design.finite_coordinates. simpl.
  destruct (currentLocation data) as [[lat lon s h]|]; simpl.
  - rewrite andb_true_iff. split.
    + destruct lat as [| | |[x| | |]| |], lon as [| | |[y| | |]| |]; simpl; intros [? ?]; try discriminate.
      by exists (mkCoords (Num (Fin x)) (Num (Fin y)) s h), x, y.
    + intros (location & x & y & [= <-] & Hlat & Hlon). simpl in *. by subst.
  - split; [discriminate|]. by intros (? & ? & ? & ? & _).
Qed.

Lemma trackingActive_needs_isTracking (snapshot : option Snapshot) :
  truthy (opt snapshot isTracking) = false → MapScreen.trackingActive snapshot = false.
Proof. intros H. unfold MapScreen.trackingActive, and. by rewrite H. Qed.

Lemma onSnapshot_cleared (snapshot : option Snapshot) (st : MapScreen.ScreenState) :
  MapScreen.trackingActive snapshot = false ∨ MapScreen.hasValidCoords snapshot = false →
  MapScreen.onSnapshot StringToNumber now snapshot st = map_cleared.
Proof.
  intros H. unfold MapScreen.onSnapshot.
  destruct H as [-> | ->]; [done|]. by rewrite andb_false_r.
Qed.

(** [MapScreen] holds no bus location after a record with a falsy
    [isTracking], after no record, and after a record without finite
    coordinates. *)
Lemma map_screen_no_stale_location (snapshot : option Snapshot) (st : MapScreen.ScreenState) :
  (snapshot = None ∨
   truthy (opt snapshot isTracking) = false ∨
   (∀ data, snapshot = Some data → ¬ Design.finite_coordinates data)) →
  MapScreen.onSnapshot StringToNumber now snapshot st = map_cleared.
Proof.
  intros [-> | [H | H]]; [done | |].
  - apply onSnapshot_cleared. left. by apply trackingActive_needs_isTracking.
  - destruct snapshot as [data|]; [|done].
    apply onSnapshot_cleared. right.
    destruct (MapScreen.hasValidCoords (Some data)) eqn:E; [|done].
    apply hasValidCoords_finite in E. by destruct (H data).
Qed.

Lemma isTrackingActive_needs_isTracking (locationData : option Snapshot) :
  truthy (opt locationData isTracking) = false →
  BusLiveTrackingScreen.isTrackingActive locationData = false.
Proof. intros H. unfold BusLiveTrackingScreen.isTrackingActive, and. by rewrite H. Qed.

(** [BusLiveTrackingScreen] holds no bus location after a record with a
    falsy [isTracking], after no record, and after a record without
    [currentLocation]. *)
Lemma live_screen_cleared (locationData : option Snapshot) (st : BusLiveTrackingScreen.ScreenState) :
  (locationData = None ∨
   truthy (opt locationData isTracking) = false ∨
   locationData ≫= currentLocation = None) →
  BusLiveTrackingScreen.onLocation busDriver locationData st =
    {| BusLiveTrackingScreen.busLocation := None; BusLiveTrackingScreen.loading := false |}.
Proof.
  unfold BusLiveTrackingScreen.onLocation.
  intros [-> | [H | H]]; [done | |].
  - destruct locationData as [data|]; [|done]. simpl.
    rewrite (isTrackingActive_needs_isTracking _ H).
    by destruct (currentLocation data).
  - destruct locationData as [data|]; [|done]. simpl in *. rewrite H.
    by destruct (BusLiveTrackingScreen.isTrackingActive _).
Qed.

(** C5, at a record without finite coordinates.  The record [nan_record]
    has no finite coordinates; [MapScreen] clears its bus location on it,
    [BusLiveTrackingScreen] stores the NaN coordinates as its bus location,
    flags it as tracking, and renders the live marker, at the coordinate
    (0, 0) that [toLngLat] makes of NaN. *)
Theorem live_screen_keeps_non_finite_location (st : BusLiveTrackingScreen.ScreenState)
    (st' : MapScreen.ScreenState) :
  let after := BusLiveTrackingScreen.onLocation busDriver (Some nan_record) st in
  ¬ Design.finite_coordinates nan_record ∧
  MapScreen.onSnapshot StringToNumber now (Some nan_record) st' = map_cleared ∧
  (∃ location,
     BusLiveTrackingScreen.busLocation after = Some location ∧
     BusLiveTrackingScreen.loc_latitude location = Num NaN ∧
     BusLiveTrackingScreen.loc_longitude location = Num NaN ∧
     BusLiveTrackingScreen.loc_isTracking location = true ∧
     BusLiveTrackingScreen.toCoordinate StringToNumber
       (BusLiveTrackingScreen.loc_latitude location) = ofZ 0) ∧
  BusLiveTrackingScreen.showsLiveMarker after = true.
Proof.
  split_and!.
  - intros (location & lat & lon & [= <-] & Hlat & _). discriminate Hlat.
  - reflexivity.
  - eexists. split; [reflexivity|]. by split_and!.
  - reflexivity.
Qed.

(** The session marker both screens resolve: [activeTrackingSession] unless
    it is [null] or [undefined], otherwise [trackingSessionId]. *)
Lemma sessionMarker_Some (data : Snapshot) :
  MapScreen.sessionMarker (Some data) = nullish (activeTrackingSession data) (trackingSessionId data).
Proof. reflexivity. Qed.

(** C10, as the code has it.  When the resolved session marker is falsy,
    then, whatever [isTracking] says: [MapScreen] treats tracking as
    inactive and clears the bus location provided the marker is not
    [undefined]; [BusLiveTrackingScreen] clears its bus location and shows
    no live marker provided the marker is neither [undefined] nor [null]. *)
Theorem falsy_session_marker_clears (data : Snapshot)
    (st : MapScreen.ScreenState) (st' : BusLiveTrackingScreen.ScreenState) :
  let marker := nullish (activeTrackingSession data) (trackingSessionId data) in
  truthy marker = false →
  (marker ≠ Undefined →
     MapScreen.trackingActive (Some data) = false ∧
     MapScreen.onSnapshot StringToNumber now (Some data) st = map_cleared) ∧
  (marker ≠ Undefined → marker ≠ Null →
     BusLiveTrackingScreen.isTrackingActive (Some data) = false ∧
     BusLiveTrackingScreen.busLocation
       (BusLiveTrackingScreen.onLocation busDriver (Some data) st') = None ∧
     BusLiveTrackingScreen.showsLiveMarker
       (BusLiveTrackingScreen.onLocation busDriver (Some data) st') = false).
Proof.
  intros marker Hfalsy. split.
  - intros Hdef.
    assert (MapScreen.trackingActive (Some data) = false) as Hinactive.
    { unfold MapScreen.trackingActive. rewrite sessionMarker_Some. fold marker.
      rewrite decide_True by done. unfold and.
      by destruct (truthy (opt (Some data) isTracking)) eqn:HT. }
    split; [done|]. apply onSnapshot_cleared. by left.
  - intros Hdef Hnull.
    assert (BusLiveTrackingScreen.isTrackingActive (Some data) = false) as Hinactive.
    { unfold BusLiveTrackingScreen.isTrackingActive, and. simpl.
      destruct (truthy (isTracking data)) eqn:HT; [|done].
      replace (nullish (activeTrackingSession data)
                 (nullish (trackingSessionId data) (isTracking data))) with marker; [done|].
      subst marker. destruct (activeTrackingSession data); try reflexivity;
        simpl in *; by destruct (trackingSessionId data). }
    split; [done|].
    unfold BusLiveTrackingScreen.onLocation, BusLiveTrackingScreen.showsLiveMarker.
    rewrite Hinactive. simpl. by destruct (currentLocation data).
Qed.

End Observers.

(** A record with an empty [activeTrackingSession] and [isTracking] true. *)
Lemma falsy_session_marker_clears_witness :
  let data := live_record (Str "") (Str "session-1") in
  truthy (isTracking data) = true ∧
  MapScreen.onSnapshot (λ _, NaN) Undefined (Some data) map_cleared = map_cleared ∧
  BusLiveTrackingScreen.busLocation
    (BusLiveTrackingScreen.onLocation Undefined (Some data)
       {| BusLiveTrackingScreen.busLocation := None; BusLiveTrackingScreen.loading := true |}) = None.
Proof.
  intros data. split; [reflexivity|].
  pose proof (falsy_session_marker_clears (λ _, NaN) Undefined Undefined data map_cleared
                {| BusLiveTrackingScreen.busLocation := None; BusLiveTrackingScreen.loading := true |}
                eq_refl) as [HM HL].
  split.
  - apply HM. discriminate.
  - apply HL; discriminate.
Defined.

(** C10, as worded, on [MapScreen]: [activeTrackingSession] is present and
    [null], [trackingSessionId] is missing, [isTracking] is true.  The
    marker resolves to [undefined], the screen falls back to [isTracking]
    and shows the bus as tracked. *)
Lemma falsy_session_marker_counterexample :
  let data := live_record Null Undefined in
  let after := MapScreen.onSnapshot (λ _, NaN) Undefined (Some data) map_cleared in
  (Design.present_but_falsy (activeTrackingSession data) ∧
   MapScreen.sessionMarker (Some data) = Undefined ∧
   MapScreen.isBusTracking after = true ∧
   MapScreen.busLocation after ≠ None) ∧
  ¬ (∀ (StringToNumber : string → num) (now : value) (data : Snapshot) (st : MapScreen.ScreenState),
       Design.present_but_falsy (activeTrackingSession data) ∨
       Design.present_but_falsy (trackingSessionId data) →
       MapScreen.onSnapshot StringToNumber now (Some data) st = map_cleared).
Proof.
  intros data after.
  assert (Design.present_but_falsy (activeTrackingSession data)) as Hnull
    by (split; [discriminate | reflexivity]).
  split; [by split_and!|].
  intros Hforall.
  specialize (Hforall (λ _, NaN) Undefined data map_cleared (or_introl Hnull)).
  discriminate Hforall.
Qed.

End SubscriberFacts.


(* ===================================================================== *)
(** * The recipient repository *)
(* ===================================================================== *)

Module RecipientFacts.

Import JS Async RecipientRepository Statements.

Lemma cleanTokens_truthy (data : UserData) (token : value) :
  token ∈ cleanTokens data → truthy token = true.
Proof.
  unfold cleanTokens. destruct (fcmTokens data) as [array|].
  - rewrite list_elem_of_filter. by intros [? _].
  - by intros ?%elem_of_nil.
Qed.

Lemma truthy_not_empty (token : value) : truthy token = true → token ≠ Str "".
Proof. by intros H ->. Qed.

(** C7, as the code has it.  Both lookups return, leave the store as it
    is, and every entry of every recipient's [tokens] is truthy: no token
    is the empty string (nor [null], [undefined], [false], 0 or NaN). *)
Theorem recipient_tokens_truthy (lower : string → string) (w : World)
    (busNumber_ role_ : string) :
  (∃ recipients, getRecipientsByBus lower busNumber_ w = (Returned recipients, w) ∧
     ∀ r token, r ∈ recipients → token ∈ tokens r → truthy token = true ∧ token ≠ Str "") ∧
  (∃ recipients, getRecipientsByRole lower role_ w = (Returned recipients, w) ∧
     ∀ r token, r ∈ recipients → token ∈ tokens r → truthy token = true ∧ token ≠ Str "").
Proof.
  split.
  - unfold getRecipientsByBus. case_bool_decide.
    { exists []. split; [done|]. by intros r token ?%elem_of_nil. }
    unfold mbind, M_bind, where_get. simpl. case_bool_decide.
    { exists []. split; [done|]. by intros r token ?%elem_of_nil. }
    eexists. split; [reflexivity|].
    intros r token Hr Htoken. apply list_elem_of_omap in Hr as ([id data] & _ & Hdoc).
    simpl in Hdoc. case_bool_decide; [|done]. injection Hdoc as <-. simpl in Htoken.
    apply cleanTokens_truthy in Htoken. auto using truthy_not_empty.
  - unfold getRecipientsByRole. case_bool_decide.
    { exists []. split; [done|]. by intros r token ?%elem_of_nil. }
    unfold mbind, M_bind, where_get. simpl. case_bool_decide.
    { exists []. split; [done|]. by intros r token ?%elem_of_nil. }
    eexists. split; [reflexivity|].
    intros r token Hr Htoken. apply list_elem_of_fmap in Hr as ([id data] & -> & _).
    simpl in Htoken. apply cleanTokens_truthy in Htoken. auto using truthy_not_empty.
Qed.

(** The manager of the demonstration directory keeps the token "tk2"
    only. *)
Lemma recipient_tokens_truthy_witness :
  ∃ recipients,
    getRecipientsByRole lower_letters "Management" demo_world = (Returned recipients, demo_world) ∧
    tokens <$> recipients = [[Str "tk2"]] ∧
    ∀ r token, r ∈ recipients → token ∈ tokens r → truthy token = true ∧ token ≠ Str "".
Proof.
  destruct (recipient_tokens_truthy lower_letters demo_world "B-12" "Management") as [_ (recipients & Hrun & Htokens)].
  exists recipients. split; [exact Hrun|]. split; [|exact Htokens].
  assert (getRecipientsByRole lower_letters "Management" demo_world
          = (Returned [mkRecipient "u2" "management" Undefined [Str "tk2"]], demo_world)) as E
    by (by vm_compute).
  rewrite E in Hrun. by injection Hrun as <-.
Defined.

(** C7, as worded: the student of bus B-12, whose token array holds the
    single-space string, is returned with that blank token in the list. *)
Lemma recipient_tokens_counterexample :
  (getRecipientsByBus lower_letters "B-12" demo_world
     = (Returned [mkRecipient "u1" "student" (Str "B-12") [Str " "]], demo_world) ∧
   blank " " = true) ∧
  ¬ (∀ lower (w : World) (busNumber_ : string) recipients w',
       getRecipientsByBus lower busNumber_ w = (Returned recipients, w') →
       ∀ r s, r ∈ recipients → Str s ∈ tokens r → blank s = false).
Proof.
  assert (getRecipientsByBus lower_letters "B-12" demo_world
          = (Returned [mkRecipient "u1" "student" (Str "B-12") [Str " "]], demo_world)) as Hrun
    by (by vm_compute).
  split; [by split|].
  intros Hforall.
  specialize (Hforall lower_letters demo_world "B-12" _ demo_world Hrun
                (mkRecipient "u1" "student" (Str "B-12") [Str " "]) " ").
  discriminate Hforall; apply list_elem_of_singleton; reflexivity.
Qed.

(** ** Pruning *)

(** The two ways a call of [removeTokens] that reaches the store ends:
    the document is rewritten, or the failed update is logged. *)
Lemma removeTokens_run (uid_ : string) (tokens_ : list value) (w : World) :
  uid_ ≠ "" → tokens_ ≠ [] →
  removeTokens uid_ tokens_ w =
    match users w !! uid_ with
    | Some data =>
        (Returned tt, {| users := <[uid_ := pruned tokens_ data]> (users w); console := console w |})
    | None =>
        (Returned tt, {| users := users w;
                         console := console w ++ ["Unable to remove invalid tokens for user " +:+ uid_] |})
    end.
Proof.
  intros Huid Htokens. unfold removeTokens.
  rewrite bool_decide_eq_false_2 by done.
  rewrite bool_decide_eq_false_2 by (by destruct tokens_).
  unfold try_catch, update. simpl. by destruct (users w !! uid_).
Qed.

Lemma removeTokens_returns (uid_ : string) (tokens_ : list value) (w : World) :
  (removeTokens uid_ tokens_ w).1 = Returned tt.
Proof.
  destruct (decide (uid_ = "")) as [-> | Huid]; [done|].
  destruct (decide (tokens_ = [])) as [-> | Htokens].
  { unfold removeTokens. by rewrite orb_true_r. }
  rewrite removeTokens_run by done. by destruct (users w !! uid_).
Qed.

Lemma arrayRemove_twice (tokens_ : list value) (field : option (list value)) :
  arrayRemove tokens_ (arrayRemove tokens_ field) = arrayRemove tokens_ field.
Proof.
  unfold arrayRemove. simpl. f_equal. by apply list_filter_filter_l.
Qed.

Lemma cleanTokens_pruned (t : value) (data : UserData) :
  cleanTokens (pruned [t] data) = filter (λ x, x ≠ t) (cleanTokens data).
Proof.
  unfold cleanTokens, pruned, arrayRemove. simpl.
  destruct (fcmTokens data) as [array|]; simpl; [|done].
  rewrite !list_filter_filter. apply list_filter_iff.
  intros x. rewrite list_elem_of_singleton. tauto.
Qed.

(** C8.  Two calls [removeTokens(uid, [t])] in a row, for a token string
    [t], both return without an error; the second leaves the user
    documents as the first left them; the documents of the other users are
    untouched; the user's tokens, as [getTokensForUser] reads them, are the
    original ones without [t]; and the token array of an existing user
    holds exactly the original entries other than [t], the other fields
    being kept. *)
Theorem removeTokens_idempotent (w : World) (uid_ : string) (t : string) :
  let first := removeTokens uid_ [Str t] w in
  let second := removeTokens uid_ [Str t] first.2 in
  first.1 = Returned tt ∧
  second.1 = Returned tt ∧
  users second.2 = users first.2 ∧
  (∀ other, other ≠ uid_ → users second.2 !! other = users w !! other) ∧
  (∀ before, (getTokensForUser uid_ w).1 = Returned before →
     (getTokensForUser uid_ second.2).1 = Returned (filter (λ x, x ≠ Str t) before)) ∧
  (uid_ ≠ "" → ∀ data, users w !! uid_ = Some data →
     ∃ data' remaining,
       users second.2 !! uid_ = Some data' ∧
       role data' = role data ∧ busNumber data' = busNumber data ∧
       fcmTokens data' = Some remaining ∧
       ∀ x, x ∈ remaining ↔ x ∈ default [] (fcmTokens data) ∧ x ≠ Str t).
Proof.
  intros first second. subst first second.
  split; [apply removeTokens_returns|]. split; [apply removeTokens_returns|].
  destruct (decide (uid_ = "")) as [-> | Huid].
  { simpl. split_and!; try done. intros before [= <-]. reflexivity. }
  rewrite (removeTokens_run uid_ [Str t] w) by done.
  destruct (users w !! uid_) as [data|] eqn:Hdata; simpl.
  - rewrite removeTokens_run by done. simpl. rewrite lookup_insert_eq. simpl.
    assert (pruned [Str t] (pruned [Str t] data) = pruned [Str t] data) as Htwice.
    { unfold pruned. simpl. by rewrite arrayRemove_twice. }
    rewrite Htwice, insert_insert_eq. split_and!.
    + reflexivity.
    + intros other Hother. by rewrite lookup_insert_ne.
    + unfold getTokensForUser. rewrite bool_decide_eq_false_2 by done.
      unfold mbind, M_bind, get. simpl. rewrite Hdata, lookup_insert_eq. simpl.
      intros before [= <-]. by rewrite cleanTokens_pruned.
    + intros _ data0 [= <-].
      exists (pruned [Str t] data), (filter (λ x, x ∉ [Str t]) (default [] (fcmTokens data))).
      rewrite lookup_insert_eq. split_and!; try reflexivity.
      intros x. rewrite list_elem_of_filter, list_elem_of_singleton. tauto.
  - rewrite removeTokens_run by done. simpl. rewrite Hdata. simpl. split_and!.
    + reflexivity.
    + reflexivity.
    + unfold getTokensForUser. rewrite bool_decide_eq_false_2 by done.
      unfold mbind, M_bind, get. simpl. rewrite Hdata. simpl.
      intros before [= <-]. reflexivity.
    + intros _ data0 [=].
Qed.

(** A user holding "tk1" twice and "tk2": after the two calls "tk2" is
    left. *)
Lemma removeTokens_idempotent_witness :
  let w := {| users := <["u2" := mkUser (Some "management") Null (Some [Str "tk1"; Str "tk2"; Str "tk1"])]> ∅;
              console := [] |} in
  "u2" ≠ "" ∧
  ∃ data', users (removeTokens "u2" [Str "tk1"] (removeTokens "u2" [Str "tk1"] w).2).2 !! "u2" = Some data' ∧
           ∃ remaining, fcmTokens data' = Some remaining ∧ (Str "tk2" ∈ remaining) ∧ (Str "tk1" ∉ remaining).
Proof.
  intros w. split; [discriminate|].
  destruct (removeTokens_idempotent w "u2" "tk1") as (_ & _ & _ & _ & _ & H).
  destruct (H ltac:(discriminate) _ eq_refl) as (data' & remaining & Hlookup & _ & _ & Hfield & Hmem).
  exists data'. split; [exact Hlookup|]. exists remaining. split; [exact Hfield|]. split.
  - apply Hmem. split; [|discriminate]. simpl. apply list_elem_of_lookup_2 with 1%nat. reflexivity.
  - intros Hin. apply Hmem in Hin as [_ Hne]. by apply Hne.
Defined.

End RecipientFacts.


(* ===================================================================== *)
(** * The trip-start request *)
(* ===================================================================== *)

Module NotifyFacts.

Import JS Async BackendClient FirebaseConfig Statements.

Section Posting.

Variable Json : Type.
Variable Body : Type.
Variable fetch : list (Request Body) → Request Body → FetchResult Json.

Lemma posted_weaken path payload baseUrl bases (l : list (Request Body)) :
  Forall (posted Body path payload bases) l → Forall (posted Body path payload (baseUrl :: bases)) l.
Proof.
  intros Hall. eapply Forall_impl; [exact Hall|]. intros r (Hbody & base & Hin & Hurl).
  split; [done|]. exists base. split; [by right | done].
Qed.

(** The loop only appends requests, each with the given payload; a value
    it returns is the parsed body of the last response, which was [ok]. *)
Lemma attempt_sent (path : string) (payload : Body) (remaining : list string)
    (errors : list (string * string)) (sent : list (Request Body)) :
  ∃ extra,
    (attempt Json Body fetch path payload remaining errors sent).2 = sent ++ extra ∧
    Forall (posted Body path payload remaining) extra ∧
    ∀ data, (attempt Json Body fetch path payload remaining errors sent).1 = Returned data →
      ∃ before request response,
        extra = before ++ [request] ∧
        fetch (sent ++ before) request = Responded response ∧
        ok response = true ∧ json response = Returned data.
Proof.
  revert errors sent. induction remaining as [|baseUrl rest IH]; intros errors sent.
  - exists []. simpl. rewrite app_nil_r. split; [done|]. split; [constructor|]. intros data [=].
  - set (request := {| url := baseUrl +:+ path; body := payload |}).
    assert (posted Body path payload (baseUrl :: rest) request) as Hposted.
    { split; [done|]. exists baseUrl. split; [by left | done]. }
    assert (∀ message,
      ∃ extra,
        (attempt Json Body fetch path payload rest (errors ++ [(baseUrl, message)]) (sent ++ [request])).2
          = sent ++ extra ∧
        Forall (posted Body path payload (baseUrl :: rest)) extra ∧
        ∀ data, (attempt Json Body fetch path payload rest (errors ++ [(baseUrl, message)])
                   (sent ++ [request])).1 = Returned data →
          ∃ before request0 response,
            extra = before ++ [request0] ∧
            fetch (sent ++ before) request0 = Responded response ∧
            ok response = true ∧ json response = Returned data) as Hfailed.
    { intros message.
      destruct (IH (errors ++ [(baseUrl, message)]) (sent ++ [request])) as (extra & Hsent & Hall & Hret).
      exists (request :: extra). split; [by rewrite Hsent, <- app_assoc|].
      split; [constructor; [done | by apply posted_weaken]|].
      intros data Hdata. destruct (Hret data Hdata) as (before & r & response & -> & Hfetch & Hok & Hjson).
      exists (request :: before), r, response. split; [done|].
      split; [|done]. by rewrite <- Hfetch, <- app_assoc. }
    simpl. fold request.
    destruct (fetch sent request) as [message|response] eqn:Hfetch; [apply Hfailed|].
    destruct (ok response) eqn:Hok; simpl; [|apply Hfailed].
    destruct (json response) as [data|message] eqn:Hjson; [|apply Hfailed].
    exists [request]. simpl. split; [done|]. split; [by constructor|].
    intros data' [= <-]. exists [], request, response. by rewrite app_nil_r.
Qed.

End Posting.

Section Notify.

Variable Json : Type.
Variable fetch : list (Request StartPayload) → Request StartPayload → FetchResult Json.
Variable candidates : list string.

Lemma or_default_null (v : value) : or (default_null v) Null = if truthy v then v else Null.
Proof. by destruct v. Qed.

(** C9.  Without a bus number, [notifyBusTrackingStarted] throws and the
    list of requests sent is as before.  With a bus number it is
    [postJson] of "/startBus" and the payload [busNumber], [driverName],
    [initiatedBy], [excludeToken]: every request it sends carries that
    payload to "/startBus" of a candidate base URL, a value it returns is
    the parsed body of an [ok] response to the last of them, and when the
    first candidate answers [ok] with a report, that report is returned
    after this one request. *)
Theorem notifyBusTrackingStarted_spec (args : StartArgs) (sent : list (Request StartPayload)) :
  let run := notifyBusTrackingStarted Json fetch candidates args sent in
  (truthy (busNumber args) = false →
     run = (Thrown "busNumber is required to trigger bus start notifications", sent)) ∧
  (truthy (busNumber args) = true →
     run = postJson Json StartPayload fetch candidates "/startBus" (start_payload args) sent ∧
     (∃ extra, run.2 = sent ++ extra ∧
        Forall (posted StartPayload "/startBus" (start_payload args) candidates) extra ∧
        ∀ report, run.1 = Returned report →
          ∃ before request response,
            extra = before ++ [request] ∧
            fetch (sent ++ before) request = Responded response ∧
            ok response = true ∧ json response = Returned report) ∧
     (∀ baseUrl rest response report,
        candidates = baseUrl :: rest →
        fetch sent (mkRequest (baseUrl +:+ "/startBus") (start_payload args)) = Responded response →
        ok response = true → json response = Returned report →
        run = (Returned report, sent ++ [mkRequest (baseUrl +:+ "/startBus") (start_payload args)]))).
Proof.
  intros run. subst run. unfold notifyBusTrackingStarted. split.
  - intros ->. reflexivity.
  - intros ->. simpl negb. cbv iota. rewrite !or_default_null. fold (start_payload args).
    split; [reflexivity|]. split.
    + unfold postJson. simpl. apply attempt_sent.
    + intros baseUrl rest response report -> Hfetch Hok Hjson.
      unfold postJson. simpl. by rewrite Hfetch, Hok, Hjson.
Qed.

End Notify.

(** A call without a bus number, and a call for bus B-12 by the user u1. *)
Lemma notifyBusTrackingStarted_witness :
  let missing := mkStartArgs Undefined (Str "Driver A") Undefined Undefined in
  let present := mkStartArgs (Str "B-12") (Str "Driver A") (Str "u1") Undefined in
  notifyBusTrackingStarted DeliveryReport demo_fetch ["http://10.0.2.2:4000"] missing []
    = (Thrown "busNumber is required to trigger bus start notifications", []) ∧
  notifyBusTrackingStarted DeliveryReport demo_fetch ["http://10.0.2.2:4000"] present []
    = (Returned (mkReport 3 3 0),
       [mkRequest "http://10.0.2.2:4000/startBus" (mkStartPayload (Str "B-12") (Str "Driver A") (Str "u1") Null)]).
Proof.
  intros missing present. split.
  - apply (notifyBusTrackingStarted_spec DeliveryReport demo_fetch _ missing []). reflexivity.
  - destruct (notifyBusTrackingStarted_spec DeliveryReport demo_fetch ["http://10.0.2.2:4000"] present [])
      as [_ Hpresent].
    destruct (Hpresent eq_refl) as (_ & _ & Hfirst).
    exact (Hfirst "http://10.0.2.2:4000" [] (mkResponse true 200 "" (Returned (mkReport 3 3 0)))
             (mkReport 3 3 0) eq_refl eq_refl eq_refl eq_refl).
Defined.

End NotifyFacts.

(* ===================================================================== *)
(** * The admission filter of the design document *)
(* ===================================================================== *)

Module AdmissionFacts.

Import Design Statements.

Section Admission.

Variable distance : LocationSample → LocationSample → Qc.

(** C6.  The admission filter rejects exactly when there is a previous committed sample
    less than 20 meters and less than 4 seconds away from the candidate;
    it accepts at 20 meters or more whatever the time, at 4 seconds or
    more whatever the distance, and when there is no previous sample. *)
Theorem admission_filter_spec (previous : option LocationSample) (candidate : LocationSample) :
  (admission_filter distance previous candidate = reject ↔
     ∃ committed, previous = Some committed ∧
       (distance committed candidate < Qc_of_Z 20)%Qc ∧
       (capturedAt candidate - capturedAt committed < Qc_of_Z 4)%Qc) ∧
  (∀ committed, previous = Some committed →
     (Qc_of_Z 20 ≤ distance committed candidate)%Qc →
     admission_filter distance previous candidate = accept) ∧
  (∀ committed, previous = Some committed →
     (Qc_of_Z 4 ≤ capturedAt candidate - capturedAt committed)%Qc →
     admission_filter distance previous candidate = accept) ∧
  admission_filter distance None candidate = accept.
Proof.
  split_and!.
  - destruct previous as [committed|]; simpl.
    + split.
      * intros Hreject. exists committed. by repeat case_bool_decide.
      * intros (? & [= <-] & Hnear & Hsoon).
        by rewrite !bool_decide_eq_true_2.
    + split; [discriminate|]. by intros (? & ? & _).
  - intros committed -> Hfar. simpl.
    rewrite (bool_decide_eq_false_2 (distance committed candidate < _)%Qc); [done|].
    by apply Qcle_not_lt.
  - intros committed -> Hlate. simpl.
    rewrite (bool_decide_eq_false_2 (capturedAt candidate - _ < _)%Qc); [by rewrite andb_false_r|].
    by apply Qcle_not_lt.
  - reflexivity.
Qed.

End Admission.

(** A first sample, and candidates 5 m and 2 s, 25 m and 2 s, 5 m and 6 s
    after it. *)
Lemma admission_filter_spec_witness :
  let first := mkSample 0%Qc 0%Qc 0%Qc in
  admission_filter east_west (Some first) (mkSample 0%Qc (Qc_of_Z 5) (Qc_of_Z 2)) = reject ∧
  admission_filter east_west (Some first) (mkSample 0%Qc (Qc_of_Z 25) (Qc_of_Z 2)) = accept ∧
  admission_filter east_west (Some first) (mkSample 0%Qc (Qc_of_Z 5) (Qc_of_Z 6)) = accept ∧
  admission_filter east_west None first = accept.
Proof.
  intros first. split_and!.
  - apply (admission_filter_spec east_west). exists first. split; [done|].
    split; apply (bool_decide_unpack _); by vm_compute.
  - destruct (admission_filter_spec east_west (Some first) (mkSample 0%Qc (Qc_of_Z 25) (Qc_of_Z 2)))
      as (_ & Hfar & _).
    apply (Hfar first); [done|]. apply (bool_decide_unpack _). by vm_compute.
  - destruct (admission_filter_spec east_west (Some first) (mkSample 0%Qc (Qc_of_Z 5) (Qc_of_Z 6)))
      as (_ & _ & Hlate & _).
    apply (Hlate first); [done|]. apply (bool_decide_unpack _). by vm_compute.
  - apply (admission_filter_spec east_west None first).
Defined.

End AdmissionFacts.


(* ===================================================================== *)
(** * Arrival estimates and the summary row *)
(* ===================================================================== *)

Module SummaryFacts.

Import JS JSFacts DoubleFacts MapScreen MapScreenSummary Statements NearestFacts ProgressFacts.

Lemma Qc_max_pos (a b : Qc) : (0 < b)%Qc → (0 < Qc_max a b)%Qc.
Proof.
  intros Hb. unfold Qc_max. case_bool_decide as Hab; [done|].
  apply Qcnot_lt_le in Hab. by eapply Qclt_le_trans.
Qed.

Lemma Qcdiv_le_mono (x y z : Qc) : (0 < z)%Qc → (x ≤ y)%Qc → (x / z ≤ y / z)%Qc.
Proof.
  intros Hz Hxy. unfold Qcle. rewrite !Qc_this_div.
  unfold Qdiv. apply Qmult_le_compat_r; [exact Hxy|].
  apply Qinv_le_0_compat. apply Qlt_le_weak. exact Hz.
Qed.

Lemma Math_round_mono (p q : Qc) : (p ≤ q)%Qc → Math_round p ≤ Math_round q.
Proof.
  intros H. unfold Math_round. apply Qfloor_resp_le.
  apply (proj1 (Qcplus_le_mono_r p q (ratio 1 2)) H).
Qed.

Lemma Math_round_le_1 (q : Qc) : Math_round q ≤ 1 ↔ (q < ratio 3 2)%Qc.
Proof.
  pose proof (Math_round_nearest q) as [H1 H2]. revert H1 H2.
  generalize (Math_round q). intros m.
  unfold Qcle, Qclt, Qcminus, Qcplus, Qcopp, ratio, Qc_of_Z. cbn [this Q2Qc].
  change (Qred (1 # 2)) with (1 # 2)%Q. change (Qred (- (1 # 2))) with (- (1 # 2))%Q.
  change (Qred (3 # 2)) with (3 # 2)%Q.
  name_Qred. intros H1 H2. split.
  - intros Hm. assert (inject_Z m <= inject_Z 1)%Q by (by rewrite <- Zle_Qle).
    change (inject_Z 1) with 1%Q in *. lra.
  - intros Hq. assert (inject_Z m < inject_Z 2)%Q as Hlt.
    { change (inject_Z 2) with 2%Q. lra. }
    rewrite <- Zlt_Qlt in Hlt. lia.
Qed.

Lemma Qc_le_div (c d s : Qc) : (0 < s)%Qc → (c * s ≤ d)%Qc → (c ≤ d / s)%Qc.
Proof.
  intros Hs. unfold Qcle, Qcmult. cbn [this Q2Qc]. rewrite Qred_correct, Qc_this_div.
  by apply Qle_shift_div_l.
Qed.

Lemma Qc_div_le (c d s : Qc) : (0 < s)%Qc → (d ≤ c * s)%Qc → (d / s ≤ c)%Qc.
Proof.
  intros Hs. unfold Qcle, Qcmult. cbn [this Q2Qc]. rewrite Qred_correct, Qc_this_div.
  by apply Qle_shift_div_r.
Qed.

(** ** Monotone rounding *)

Lemma monotone_not_nan (fl : Qc → num) (q : Qc) : monotone fl → is_nan (fl q) = false.
Proof. intros Hfl. by destruct (leb_not_nan _ _ (Hfl q q (Qcle_refl q))). Qed.

Lemma div_mono (fl : Qc → num) (a a' : num) (b : Qc) :
  monotone fl → (0 < b)%Qc → leb a a' = true → leb (div fl a b) (div fl a' b) = true.
Proof.
  intros Hfl Hb Hle.
  destruct a as [x| | |], a' as [y| | |]; simpl in *; try done;
    rewrite ?(bool_decide_eq_true_2 _ Hb); try done.
  - apply Hfl. apply Qcdiv_le_mono; [done|]. by apply bool_decide_eq_true in Hle.
  - pose proof (monotone_not_nan fl (x / b)%Qc Hfl). by destruct (fl (x / b)%Qc).
  - pose proof (monotone_not_nan fl (y / b)%Qc Hfl). by destruct (fl (y / b)%Qc).
Qed.

Lemma div_not_nan (fl : Qc → num) (a : num) (b : Qc) :
  monotone fl → is_nan a = false → is_nan (div fl a b) = false.
Proof.
  intros Hfl Ha. destruct a as [x| | |]; simpl; try done; try by case_bool_decide.
  by apply monotone_not_nan.
Qed.

Lemma Math_round_num_mono (a a' : num) :
  leb a a' = true → leb (Math_round_num a) (Math_round_num a') = true.
Proof.
  destruct a as [x| | |], a' as [y| | |]; simpl; try done.
  rewrite bool_decide_eq_true. intros Hxy.
  change (leb (ofZ (Math_round x)) (ofZ (Math_round y)) = true).
  rewrite leb_ofZ. apply bool_decide_eq_true. by apply Math_round_mono.
Qed.

Lemma Math_round_num_not_nan (a : num) : is_nan a = false → is_nan (Math_round_num a) = false.
Proof. by destruct a. Qed.

Lemma Math_round_num_le_1 (a : num) :
  leb (Math_round_num a) (ofZ 1) = true ↔ ltb a (Fin (ratio 3 2)) = true.
Proof.
  destruct a as [x| | |]; simpl; try done.
  change (leb (ofZ (Math_round x)) (ofZ 1) = true ↔ bool_decide (x < ratio 3 2)%Qc = true).
  rewrite leb_ofZ, !bool_decide_eq_true. apply Math_round_le_1.
Qed.

Lemma max2_mono (a a' c : num) :
  is_nan c = false → leb a a' = true → leb (max2 a c) (max2 a' c) = true.
Proof.
  intros Hc Hle. destruct (leb_not_nan _ _ Hle) as [Ha Ha'].
  destruct (max2_spec a c Ha Hc) as ([-> | ->] & _ & _);
    destruct (max2_spec a' c Ha' Hc) as (_ & H1 & H2); [|done].
  by eapply leb_trans.
Qed.

Lemma max2_le (a c : num) :
  is_nan a = false → is_nan c = false →
  (leb (max2 a c) c = true ↔ leb a c = true).
Proof.
  intros Ha Hc. destruct (max2_spec a c Ha Hc) as (Hor & H1 & H2). split.
  - intros Hle. by eapply leb_trans.
  - intros Hle. destruct Hor as [-> | ->]; [done | by apply leb_refl].
Qed.

Lemma one_tenth_pos (speed : Qc) : (0 < Qc_max speed one_tenth)%Qc.
Proof. apply Qc_max_pos. apply (bool_decide_unpack _). by vm_compute. Qed.

Lemma sixty_pos : (0 < Qc_of_Z 60)%Qc.
Proof. apply (bool_decide_unpack _). by vm_compute. Qed.

(** The doubles the threshold of "Arriving now" goes through. *)
Lemma small_double (n : Z) (e : Z) :
  Z.abs n < 2 ^ 53 → -1074 ≤ e ≤ 971 → double (Qc_of_Z n * pow2 e)%Qc.
Proof. intros Hn He. by exists n, e. Qed.

(** X1.  With a monotone rounding of the divisions, as round-to-nearest
    is: for a fixed speed, the minute count of [etaForDistance] is at
    least 1 and never decreases when the distance grows. *)
Theorem etaMinutes_monotone (fl : Qc → num) (speed d1 d2 : Qc) :
  monotone fl →
  (d1 ≤ d2)%Qc →
  leb (ofZ 1) (etaMinutes fl speed d1) = true ∧
  leb (etaMinutes fl speed d1) (etaMinutes fl speed d2) = true.
Proof.
  intros Hfl H. unfold etaMinutes.
  assert (∀ d, is_nan (Math_round_num
            (div fl (div fl (Fin d) (Qc_max speed one_tenth)) (Qc_of_Z 60))) = false) as Hnum.
  { intros d. apply Math_round_num_not_nan, div_not_nan; [done|]. by apply div_not_nan. }
  split.
  - by destruct (max2_spec _ (ofZ 1) (Hnum d1) eq_refl) as (_ & _ & ?).
  - apply max2_mono; [done|]. apply Math_round_num_mono.
    apply div_mono; [done | apply sixty_pos |].
    apply div_mono; [done | apply one_tenth_pos |]. by apply bool_decide_eq_true.
Qed.

Lemma etaMinutes_monotone_witness :
  (Qc_of_Z 500 ≤ Qc_of_Z 5000)%Qc ∧
  leb (etaMinutes binary64 (Qc_of_Z 5) (Qc_of_Z 500))
      (etaMinutes binary64 (Qc_of_Z 5) (Qc_of_Z 5000)) = true.
Proof.
  assert (Qc_of_Z 500 ≤ Qc_of_Z 5000)%Qc as Hle by (apply (bool_decide_unpack _); by vm_compute).
  split; [exact Hle|].
  apply (etaMinutes_monotone binary64 (Qc_of_Z 5) (Qc_of_Z 500) (Qc_of_Z 5000)
           binary64_monotone Hle).
Defined.

(** X2.  With a rounding of the divisions that is monotone and leaves
    the doubles as they are, as round-to-nearest does: above 0.5 m/s, a
    stop labelled "Arriving now" is less than 90 seconds away at the
    current speed (distance < 90 * speed), and a stop up to 89 seconds
    away (distance <= 89 * speed) is labelled "Arriving now".  Between
    the two the rounding of the two divisions decides. *)
Theorem arriving_now_threshold (fl : Qc → num) (render : Qc → string) (speed d : Qc) :
  monotone fl → keeps_doubles fl →
  (ratio 1 2 < speed)%Qc →
  (etaForDistance fl render speed (Some (Fin d)) = "Arriving now" →
     (d < Qc_of_Z 90 * speed)%Qc) ∧
  ((d ≤ Qc_of_Z 89 * speed)%Qc →
     etaForDistance fl render speed (Some (Fin d)) = "Arriving now").
Proof.
  intros Hfl Hkeep Hs.
  assert (0 < speed)%Qc as Hpos.
  { eapply Qclt_trans; [|exact Hs]. apply (bool_decide_unpack _). by vm_compute. }
  assert (¬ (speed ≤ ratio 1 2)%Qc) as Hfast by (by apply Qclt_not_le).
  destruct (etaMinutes_fast fl speed d Hfast) as [Hminutes _].
  set (B := div fl (div fl (Fin d) speed) (Qc_of_Z 60)) in *.
  assert (is_nan (Math_round_num B) = false) as Hnum.
  { apply Math_round_num_not_nan, div_not_nan; [done|]. by apply div_not_nan. }
  assert (leb (etaMinutes fl speed d) (ofZ 1) = true ↔ ltb B (Fin (ratio 3 2)) = true) as Hnow.
  { rewrite Hminutes, max2_le by done. apply Math_round_num_le_1. }
  assert (∀ n e, Z.abs n < 2 ^ 53 → -1074 ≤ e ≤ 971 →
            fl (Qc_of_Z n * pow2 e)%Qc = Fin (Qc_of_Z n * pow2 e)%Qc) as Hdouble.
  { intros n e Hn He. by apply Hkeep, small_double. }
  assert (etaForDistance fl render speed (Some (Fin d)) = "Arriving now"
          ↔ ltb B (Fin (ratio 3 2)) = true) as Hlabel.
  { rewrite <- Hnow. unfold etaForDistance. rewrite bool_decide_eq_false_2 by done. cbv zeta.
    destruct (leb (etaMinutes fl speed d) (ofZ 1)); [done|].
    split; [|done]. unfold String.app. simpl. discriminate. }
  rewrite Hlabel. split.
  - intros Hlt. apply Qcnot_le_lt. intros Hfar.
    apply (Qc_le_div _ _ _ Hpos) in Hfar.
    assert (leb (Fin (Qc_of_Z 90)) (fl (d / speed)%Qc) = true) as H90.
    { replace (Fin (Qc_of_Z 90)) with (fl (Qc_of_Z 90)); [by apply Hfl|].
      replace (Qc_of_Z 90) with (Qc_of_Z 90 * pow2 0)%Qc by (by apply Qc_is_canon).
      by apply Hdouble. }
    apply (div_mono fl _ _ (Qc_of_Z 60) Hfl sixty_pos) in H90.
    assert (div fl (Fin (Qc_of_Z 90)) (Qc_of_Z 60) = Fin (ratio 3 2)) as E.
    { simpl. replace (Qc_of_Z 90 / Qc_of_Z 60)%Qc with (Qc_of_Z 3 * pow2 (-1))%Qc
        by (by apply Qc_is_canon).
      rewrite Hdouble by done. f_equal; by apply Qc_is_canon. }
    rewrite E in H90. apply leb_not_ltb in H90.
    change (ltb B (Fin (ratio 3 2)) = false) in H90. congruence.
  - intros Hnear. apply (Qc_div_le _ _ _ Hpos) in Hnear.
    assert (leb (fl (d / speed)%Qc) (Fin (Qc_of_Z 89)) = true) as H89.
    { replace (Fin (Qc_of_Z 89)) with (fl (Qc_of_Z 89)); [by apply Hfl|].
      replace (Qc_of_Z 89) with (Qc_of_Z 89 * pow2 0)%Qc by (by apply Qc_is_canon).
      by apply Hdouble. }
    apply (div_mono fl _ _ (Qc_of_Z 60) Hfl sixty_pos) in H89.
    assert (leb (div fl (Fin (Qc_of_Z 89)) (Qc_of_Z 60)) (Fin (ratio 95 64)) = true) as E.
    { simpl. replace (Fin (ratio 95 64)) with (fl (Qc_of_Z 95 * pow2 (-6))%Qc).
      - apply Hfl. apply (bool_decide_unpack _). by vm_compute.
      - rewrite Hdouble by done. f_equal; by apply Qc_is_canon. }
    apply (leb_ltb_trans B (Fin (ratio 95 64))); [by eapply leb_trans; [exact H89|]|].
    by vm_compute.
Qed.

(** 445 meters at 5 m/s, which are 89 seconds.  And, between the two
    bounds, 72 meters at the speed written 0.8, a double above 0.8: the
    stop is less than 90 seconds away, the two divisions give 90 and 1.5,
    and the label is "Arriving in 2 min". *)
Lemma arriving_now_threshold_witness :
  let speed := Q2Qc (3602879701896397 # 4503599627370496) in
  (ratio 1 2 < Qc_of_Z 5)%Qc ∧
  etaForDistance binary64 plain_digits (Qc_of_Z 5) (Some (ofZ 445)) = "Arriving now" ∧
  binary64 (ratio 8 10) = Fin speed ∧
  (Qc_of_Z 72 < Qc_of_Z 90 * speed)%Qc ∧
  etaForDistance binary64 plain_digits speed (Some (ofZ 72)) = "Arriving in 2 min".
Proof.
  intros speed.
  assert (ratio 1 2 < Qc_of_Z 5)%Qc as Hfast by (apply (bool_decide_unpack _); by vm_compute).
  split; [exact Hfast|]. split.
  - apply (arriving_now_threshold binary64 plain_digits (Qc_of_Z 5) (Qc_of_Z 445)
             binary64_monotone binary64_keeps_doubles Hfast).
    apply (bool_decide_unpack _). by vm_compute.
  - split; [num_eq|]. split; [apply (bool_decide_unpack _) |]; by vm_compute.
Defined.

Section Route.

Variable greatCircle : Qc → Qc → Qc → Qc → num.
Variable fl : Qc → num.
Variable render : Qc → string.

(** X3.  [routeProgress] keeps the stops, in their order, and attaches to each
    its distance from the bus location, or [null] when there is none,
    whether or not the bus is tracked. *)
Theorem routeProgress_keeps_stops (routeStops : list RouteStop)
    (busLocation : option BusLocation) (isBusTracking : bool) :
  let P := routeProgress greatCircle fl render routeStops busLocation isBusTracking in
  d_stop <$> stops P = routeStops ∧
  distanceMeters <$> stops P =
    (λ stop, (λ bus, haversineDistance greatCircle bus stop) <$> busLocation) <$> routeStops.
Proof.
  intros P. subst P.
  assert (∀ f : nat → EnrichedStop → DecoratedStop,
            (∀ i e, d_stop (f i e) = e_stop e) →
            (∀ i e, distanceMeters (f i e) = e_distanceMeters e) →
            d_stop <$> imap f (enrich greatCircle busLocation <$> routeStops) = routeStops ∧
            distanceMeters <$> imap f (enrich greatCircle busLocation <$> routeStops) =
              (λ stop, (λ bus, haversineDistance greatCircle bus stop) <$> busLocation)
                <$> routeStops) as Himap.
  { intros f Hstop Hdist. split; apply list_eq; intros i;
      rewrite !list_lookup_fmap, list_lookup_imap, list_lookup_fmap;
      destruct (routeStops !! i) as [s|]; simpl; try done.
    - by rewrite Hstop.
    - rewrite Hdist. by destruct busLocation. }
  unfold routeProgress. case_bool_decide as Hlen.
  { by destruct routeStops. }
  destruct (_ || _); simpl; by apply Himap.
Qed.

(** The two indices of the output, in the three branches. *)
Lemma routeProgress_indices (routeStops : list RouteStop)
    (busLocation : option BusLocation) (isBusTracking : bool) :
  routeStops ≠ [] →
  let P := routeProgress greatCircle fl render routeStops busLocation isBusTracking in
  match busLocation, isBusTracking with
  | Some bus, true =>
      let D := stop_distances greatCircle routeStops bus in
      let r := nearestIndex D in
      (r < length routeStops)%nat ∧
      currentIndex P = (if isAtStop D then Z.of_nat r else -1) ∧
      nextIndex P = (if isAtStop D
                     then (if decide (S r = length routeStops) then -1 else Z.of_nat (S r))
                     else Z.of_nat r)
  | _, _ => currentIndex P = -1 ∧ nextIndex P = 0
  end.
Proof.
  intros Hne P. subst P. destruct busLocation as [bus|], isBusTracking;
    try (rewrite routeProgress_idle by auto; done).
  rewrite routeProgress_tracked by done. simpl.
  pose proof (nearestIndex_lt _ (stop_distances_ne greatCircle routeStops bus Hne)) as Hr.
  rewrite stop_distances_length in Hr.
  split; [done|]. split; [done|].
  destruct (isAtStop _); case_bool_decide; repeat case_decide; lia.
Qed.

(** A stop is [current] exactly at [currentIndex] and [next] exactly at
    [nextIndex]; both indices are -1 or the index of a stop. *)
Lemma status_at_indices (routeStops : list RouteStop)
    (busLocation : option BusLocation) (isBusTracking : bool) :
  let P := routeProgress greatCircle fl render routeStops busLocation isBusTracking in
  let n := Z.of_nat (length routeStops) in
  (-1 ≤ currentIndex P < n) ∧
  (-1 ≤ nextIndex P < n) ∧
  (∀ i a, stops P !! i = Some a →
     (status a = current ↔ currentIndex P = Z.of_nat i) ∧
     (status a = next ↔ nextIndex P = Z.of_nat i)).
Proof.
  intros P n. subst P n.
  destruct (decide (routeStops = [])) as [-> | Hne].
  { simpl. refine (conj _ (conj _ _)); try lia; try done. }
  pose proof (routeProgress_indices routeStops busLocation isBusTracking Hne) as Hidx.
  pose proof (routeProgress_status greatCircle fl render routeStops busLocation isBusTracking) as HS.
  assert (0 < length routeStops)%nat as Hpos by (destruct routeStops; [done | simpl; lia]).
  simpl in Hidx.
  destruct busLocation as [bus|], isBusTracking; simpl in *.
  - destruct Hidx as (Hr & -> & ->).
    refine (conj _ (conj _ _)).
    + destruct (isAtStop _); lia.
    + destruct (isAtStop _); repeat case_decide; lia.
    + intros i a Hi. rewrite (HS i a Hi).
      pose proof (lookup_lt_Some _ _ _ Hi) as Hlt.
      rewrite routeProgress_length in Hlt.
      destruct (isAtStop _); repeat case_decide;
        (split; split; intros; try done; try lia; try (exfalso; intuition (congruence || lia))).
  - destruct Hidx as [-> ->]. refine (conj _ (conj _ _)); try lia.
    intros i a Hi. rewrite (HS i a Hi). case_decide; split; split; intros; try done; lia.
  - destruct Hidx as [-> ->]. refine (conj _ (conj _ _)); try lia.
    intros i a Hi. rewrite (HS i a Hi). case_decide; split; split; intros; try done; lia.
  - destruct Hidx as [-> ->]. refine (conj _ (conj _ _)); try lia.
    intros i a Hi. rewrite (HS i a Hi). case_decide; split; split; intros; try done; lia.
Qed.

(** X4.  The indices and the statuses of the output agree: both indices are -1
    or the index of a stop; a stop is [current] exactly at [currentIndex]
    and [next] exactly at [nextIndex]; a non-empty route always has a
    current or a next stop; and after a current stop the next stop is the
    following one, or there is none and the current stop is the last. *)
Theorem indices_match_statuses (routeStops : list RouteStop)
    (busLocation : option BusLocation) (isBusTracking : bool) :
  let P := routeProgress greatCircle fl render routeStops busLocation isBusTracking in
  let n := Z.of_nat (length routeStops) in
  (-1 ≤ currentIndex P < n) ∧
  (-1 ≤ nextIndex P < n) ∧
  (∀ i a, stops P !! i = Some a →
     (status a = current ↔ currentIndex P = Z.of_nat i) ∧
     (status a = next ↔ nextIndex P = Z.of_nat i)) ∧
  (routeStops ≠ [] → 0 ≤ currentIndex P ∨ 0 ≤ nextIndex P) ∧
  (0 ≤ currentIndex P →
     nextIndex P = currentIndex P + 1 ∨ (nextIndex P = -1 ∧ currentIndex P = n - 1)).
Proof.
  intros P n.
  destruct (status_at_indices routeStops busLocation isBusTracking) as (Hc & Hn & Hmatch).
  fold P n in Hc, Hn, Hmatch.
  refine (conj Hc (conj Hn (conj Hmatch _))).
  destruct (decide (routeStops = [])) as [-> | Hne].
  { split; [done|]. simpl. lia. }
  pose proof (routeProgress_indices routeStops busLocation isBusTracking Hne) as Hidx.
  fold P in Hidx. simpl in Hidx. subst n.
  destruct busLocation as [bus|], isBusTracking;
    try (destruct Hidx as [-> ->]; split; intros; lia).
  destruct Hidx as (Hr & -> & ->).
  split; [intros _|]; destruct (isAtStop _); repeat case_decide; lia.
Qed.

Lemma current_label (routeStops : list RouteStop) (busLocation : option BusLocation)
    (isBusTracking : bool) (i : nat) (a : DecoratedStop) :
  stops (routeProgress greatCircle fl render routeStops busLocation isBusTracking) !! i = Some a →
  status a = current → etaLabel a = "At stop".
Proof.
  intros Hi Hcurrent.
  destruct (decide (routeStops = [])) as [-> | Hne]; [done|].
  pose proof (routeProgress_status greatCircle fl render _ _ _ _ _ Hi) as HS.
  destruct busLocation as [bus|], isBusTracking; simpl in HS;
    try (rewrite HS in Hcurrent; by case_decide).
  rewrite routeProgress_tracked in Hi by done. simpl in Hi.
  apply lookup_decorated in Hi as (s & Hs & ->).
  unfold decorate in *. simpl in *. by rewrite Hcurrent.
Qed.

(** X5.  [currentStop] and [nextStop] are the stops classified [current] and
    [next]; each is [null] exactly when the route has no such stop. *)
Theorem summary_stops (routeStops : list RouteStop) (busLocation : option BusLocation)
    (isBusTracking : bool) :
  let P := routeProgress greatCircle fl render routeStops busLocation isBusTracking in
  (∀ a, currentStop P = Some a ↔ ∃ i, stops P !! i = Some a ∧ status a = current) ∧
  (∀ a, nextStop P = Some a ↔ ∃ i, stops P !! i = Some a ∧ status a = next) ∧
  (currentStop P = None ↔ ∀ i a, stops P !! i = Some a → status a ≠ current) ∧
  (nextStop P = None ↔ ∀ i a, stops P !! i = Some a → status a ≠ next).
Proof.
  intros P.
  destruct (status_at_indices routeStops busLocation isBusTracking) as (Hc & Hn & Hmatch).
  fold P in Hc, Hn, Hmatch.
  assert (length (stops P) = length routeStops) as Hlen by apply routeProgress_length.
  assert (∀ (index : Z) (st : Status),
            -1 ≤ index < Z.of_nat (length routeStops) →
            (∀ i a, stops P !! i = Some a → (status a = st ↔ index = Z.of_nat i)) →
            (∀ a, stopAtIndex P index = Some a ↔ ∃ i, stops P !! i = Some a ∧ status a = st) ∧
            (stopAtIndex P index = None ↔ ∀ i a, stops P !! i = Some a → status a ≠ st)) as Hgen.
  { intros index st Hrange Hst. unfold stopAtIndex. case_bool_decide as Hpos.
    - assert (is_Some (stops P !! Z.to_nat index)) as [b Hb].
      { apply lookup_lt_is_Some. lia. }
      assert (status b = st) as Hb_st by (apply (Hst _ _ Hb); lia).
      split.
      + intros a. split.
        * intros Ha. exists (Z.to_nat index). split; [done|]. congruence.
        * intros (i & Hi & Hi_st). apply (Hst _ _ Hi) in Hi_st.
          replace (Z.to_nat index) with i by lia. done.
      + rewrite Hb. split; [done|]. intros Hnone. by destruct (Hnone _ _ Hb).
    - split.
      + intros a. split; [done|]. intros (i & Hi & Hi_st).
        apply (Hst _ _ Hi) in Hi_st. lia.
      + split; [|done]. intros _ i a Hi Hi_st. apply (Hst _ _ Hi) in Hi_st. lia. }
  destruct (Hgen (currentIndex P) current Hc (λ i a Hi, proj1 (Hmatch i a Hi))) as [H1 H3].
  destruct (Hgen (nextIndex P) next Hn (λ i a Hi, proj2 (Hmatch i a Hi))) as [H2 H4].
  done.
Qed.


(** X7.  The ETA texts of the summary row: the current one reads "At stop"
    exactly when a stop is current, and otherwise asks to wait or to add
    stops; the next one is never empty, an empty label of the next stop
    being replaced. *)
Theorem summary_eta_texts (routeStops : list RouteStop) (busLocation : option BusLocation)
    (isBusTracking : bool) :
  let P := routeProgress greatCircle fl render routeStops busLocation isBusTracking in
  (summaryCurrentEta P = "At stop" ↔ 0 ≤ currentIndex P) ∧
  (currentIndex P = -1 →
     summaryCurrentEta P = if decide (routeStops = []) then "Add route stops"
                           else "Waiting for live update") ∧
  summaryNextEta P ≠ "" ∧
  (∀ a, nextStop P = Some a → etaLabel a = "" → summaryNextEta P = "Awaiting departure").
Proof.
  intros P.
  assert (length (stops P) = length routeStops) as Hlen by apply routeProgress_length.
  destruct (status_at_indices routeStops busLocation isBusTracking) as (Hc & Hn & Hmatch).
  fold P in Hc, Hn, Hmatch.
  assert (routeHasStops P = bool_decide (routeStops ≠ [])) as Hhas.
  { unfold routeHasStops. rewrite Hlen. apply bool_decide_ext.
    destruct routeStops; simpl; split; try done; lia. }
  assert (0 ≤ currentIndex P → summaryCurrentEta P = "At stop") as Hat.
  { intros Hpos. unfold summaryCurrentEta, currentStop, stopAtIndex.
    rewrite bool_decide_eq_true_2 by done.
    assert (is_Some (stops P !! Z.to_nat (currentIndex P))) as [b Hb].
    { apply lookup_lt_is_Some. lia. }
    rewrite Hb. simpl.
    rewrite (current_label _ _ _ _ _ Hb); [done|].
    apply (Hmatch _ _ Hb). lia. }
  assert (currentIndex P = -1 →
          summaryCurrentEta P = if decide (routeStops = []) then "Add route stops"
                                else "Waiting for live update") as Hwait.
  { intros Hnone. unfold summaryCurrentEta, currentStop, stopAtIndex.
    rewrite Hnone, Hhas. simpl. by destruct (decide (routeStops = [])) as [-> | ?];
      [|rewrite bool_decide_eq_true_2]. }
  split_and!.
  - split; [|done]. intros Htext.
    destruct (decide (0 ≤ currentIndex P)) as [?|Hneg]; [done|].
    rewrite Hwait in Htext by lia. by case_decide.
  - done.
  - unfold summaryNextEta. destruct (isRouteCompleted P); [done|].
    unfold or_else.
    destruct (bool_decide (field_of (nextStop P) etaLabel = "")) eqn:Hempty.
    + by destruct (routeHasStops P).
    + by apply bool_decide_eq_false in Hempty.
  - intros a Ha Hlabel. unfold summaryNextEta.
    assert (isRouteCompleted P = false) as ->.
    { unfold isRouteCompleted. unfold nextStop, stopAtIndex in Ha.
      case_bool_decide as Hpos; [|done].
      rewrite (bool_decide_eq_false_2 (nextIndex P = -1)) by lia. by rewrite andb_false_r. }
    rewrite Ha. simpl. rewrite Hlabel. unfold or_else. simpl.
    rewrite Hhas. rewrite bool_decide_eq_true_2; [done|].
    unfold nextStop, stopAtIndex in Ha. case_bool_decide; [|done].
    intros ->. apply lookup_lt_Some in Ha. rewrite Hlen in Ha. simpl in Ha. lia.
Qed.

End Route.

End SummaryFacts.


(* ===================================================================== *)
(** * The helpers of [MapScreen] *)
(* ===================================================================== *)

Module HelperFacts.

Import JS JSFacts MapScreen Text MapScreenHelpers Statements ProgressFacts.

(** ** Hyphens *)

Lemma collapse_hyphens_no_double (s : string) : has_double_hyphen (collapse_hyphens s) = false.
Proof.
  induction s as [|c rest IH]; [done|]. simpl.
  case_bool_decide as Hc.
  - subst c. destruct rest as [|c' rest']; [done|].
    destruct (decide (c' = "-"%char)) as [-> | Hc']; [exact IH|].
    assert (collapse_hyphens (String c' rest') = String c' (collapse_hyphens rest')) as Hrest.
    { simpl. by rewrite bool_decide_eq_false_2. }
    assert (match String c' rest' with
            | String "-"%char _ => collapse_hyphens (String c' rest')
            | _ => String "-"%char (collapse_hyphens (String c' rest'))
            end = String "-"%char (collapse_hyphens (String c' rest'))) as ->.
    { destruct c' as [[] [] [] [] [] [] [] []]; try reflexivity. by destruct Hc'. }
    rewrite Hrest in *. simpl in *.
    destruct c' as [[] [] [] [] [] [] [] []]; try exact IH. by destruct Hc'.
  - simpl in *. destruct c as [[] [] [] [] [] [] [] []]; try exact IH. by destruct Hc.
Qed.

Lemma collapse_hyphens_id (s : string) : has_double_hyphen s = false → collapse_hyphens s = s.
Proof.
  induction s as [|c rest IH]; [done|]. intros H. simpl.
  assert (has_double_hyphen rest = false) as Hrest.
  { simpl in H. destruct c as [[] [] [] [] [] [] [] []]; try exact H.
    destruct rest as [|c' rest']; [done|].
    destruct c' as [[] [] [] [] [] [] [] []]; try exact H. discriminate H. }
  rewrite (IH Hrest). case_bool_decide as Hc; [|done].
  subst c. destruct rest as [|c' rest']; [done|].
  destruct c' as [[] [] [] [] [] [] [] []]; try reflexivity. discriminate H.
Qed.

Lemma collapse_hyphens_nonempty (s : string) : s ≠ "" → collapse_hyphens s ≠ "".
Proof.
  induction s as [|c rest IH]; [done|]. intros _. simpl.
  case_bool_decide as Hc; [|done].
  destruct rest as [|c' rest']; [done|].
  destruct c' as [[] [] [] [] [] [] [] []]; try done. by apply IH.
Qed.

Lemma or_else_nonempty (text fallback : string) : fallback ≠ "" → or_else text fallback ≠ "".
Proof. intros H. unfold or_else. by case_bool_decide. Qed.

(** X8.  The label of the bus marker is never empty and never has two hyphens
    in a row; collapsing hyphens twice is collapsing them once, and a label
    without a double hyphen is left as it is. *)
Theorem busMarkerLabel_hyphens (busDisplayName busId : string) :
  busMarkerLabel busDisplayName busId ≠ "" ∧
  has_double_hyphen (busMarkerLabel busDisplayName busId) = false ∧
  (∀ s, collapse_hyphens (collapse_hyphens s) = collapse_hyphens s) ∧
  (∀ s, has_double_hyphen s = false → collapse_hyphens s = s) ∧
  liveBusDisplayName busDisplayName ≠ "".
Proof.
  split_and!.
  - apply collapse_hyphens_nonempty. by do 2 apply or_else_nonempty.
  - apply collapse_hyphens_no_double.
  - intros s. apply collapse_hyphens_id, collapse_hyphens_no_double.
  - apply collapse_hyphens_id.
  - by apply or_else_nonempty.
Qed.

(** ** Route stops *)

Section Normalise.

Variable StringToNumber : string → num.
Variable DEFAULT_ROUTE_STOPS : list RouteStop.

Lemma cleanStop_Some (index : nat) (entry : option RawStop) (stop : RouteStop) :
  cleanStop StringToNumber index entry = Some stop →
  finite_stop stop ∧ stop_time stop = None ∧ stop_id stop ≠ "".
Proof.
  unfold cleanStop. destruct entry as [raw|]; [|done].
  destruct (Number _ (nullish (raw_latitude raw) _)) as [lat| | |]; try done.
  destruct (Number _ (nullish (raw_longitude raw) _)) as [lon| | |]; try done.
  simpl. intros [= <-]. split; [by exists lat, lon|]. split; [done|]. simpl.
  apply or_else_nonempty, or_else_nonempty.
  unfold String.app. simpl. discriminate.
Qed.

Lemma omap_length_le {A B : Type} (f : A → option B) (l : list A) :
  (length (omap f l) ≤ length l)%nat.
Proof. induction l as [|x l IH]; csimpl; [lia|]. destruct (f x); csimpl; lia. Qed.

Lemma cleaned_lookup (entries : list (option RawStop)) (stop : RouteStop) :
  stop ∈ omap id (imap (cleanStop StringToNumber) entries) ↔
  ∃ i entry, entries !! i = Some entry ∧ cleanStop StringToNumber i entry = Some stop.
Proof.
  rewrite list_elem_of_omap. split.
  - intros (o & Ho & Hid). simpl in Hid. subst o.
    apply list_elem_of_lookup in Ho as [i Hi].
    rewrite list_lookup_imap in Hi.
    destruct (entries !! i) as [entry|] eqn:He; [|done].
    simpl in Hi. injection Hi as Hi. by exists i, entry.
  - intros (i & entry & He & Hclean). exists (Some stop). split; [|done].
    apply list_elem_of_lookup. exists i. rewrite list_lookup_imap, He. simpl. by rewrite Hclean.
Qed.

(** X9.  [normaliseRouteStops] returns the default table when its argument is
    not an array or holds no usable entry; otherwise it returns a
    non-empty list, no longer than the argument, of stops that each come
    from an entry, have finite coordinates, a non-empty id and no
    scheduled time. *)
Theorem normaliseRouteStops_finite (rawStops : option (list (option RawStop))) :
  let result := normaliseRouteStops StringToNumber DEFAULT_ROUTE_STOPS rawStops in
  (rawStops = None → result = DEFAULT_ROUTE_STOPS) ∧
  (∀ entries, rawStops = Some entries →
     (∀ i entry, entries !! i = Some entry → cleanStop StringToNumber i entry = None) →
     result = DEFAULT_ROUTE_STOPS) ∧
  (∀ entries i entry stop, rawStops = Some entries →
     entries !! i = Some entry → cleanStop StringToNumber i entry = Some stop →
     result ≠ [] ∧
     (length result ≤ length entries)%nat ∧
     stop ∈ result ∧
     ∀ s, s ∈ result →
          finite_stop s ∧ stop_time s = None ∧ stop_id s ≠ "" ∧
          ∃ j e, entries !! j = Some e ∧ cleanStop StringToNumber j e = Some s).
Proof.
  intros result. subst result. split_and!.
  - by intros ->.
  - intros entries -> Hnone. unfold normaliseRouteStops.
    destruct (omap id (imap (cleanStop StringToNumber) entries)) as [|s rest] eqn:Hcleaned; [done|].
    assert (s ∈ omap id (imap (cleanStop StringToNumber) entries)) as Hs
      by (rewrite Hcleaned; left).
    apply cleaned_lookup in Hs as (i & entry & He & Hclean).
    by rewrite (Hnone i entry He) in Hclean.
  - intros entries i entry stop -> He Hclean. unfold normaliseRouteStops.
    assert (stop ∈ omap id (imap (cleanStop StringToNumber) entries)) as Hin.
    { apply cleaned_lookup. by exists i, entry. }
    rewrite bool_decide_eq_true_2 by (by destruct (omap _ _); [apply elem_of_nil in Hin|]).
    split_and!.
    + intros Hnil. rewrite Hnil in Hin. by apply elem_of_nil in Hin.
    + etrans; [apply omap_length_le|]. by rewrite length_imap.
    + done.
    + intros s Hs. apply cleaned_lookup in Hs as (j & e & Hj & Hcs).
      destruct (cleanStop_Some _ _ _ Hcs) as (? & ? & ?). split_and!; try done. by exists j, e.
Qed.

End Normalise.

Lemma etaForDistance_finite_nonempty (fl : Qc → num) (render : Qc → string) (speed d : Qc) :
  etaForDistance fl render speed (Some (Fin d)) ≠ "".
Proof.
  unfold etaForDistance. case_bool_decide; [done|]. cbv zeta.
  destruct (leb _ _); [done|]. unfold String.app. simpl. discriminate.
Qed.

(** X10.  After [normaliseRouteStops], with a default table of finite stops,
    the guard of [haversineDistance] against coordinates that are not
    finite never fires: every stop of a tracked route has finite
    coordinates and carries the great-circle term of the bus position and
    these coordinates as its distance.  The stop classified [next]
    carries a non-empty arrival label when that term is finite, and the
    empty label when it is not (NaN, as the term can be near the
    antipode). *)
Theorem normalised_route_has_eta (StringToNumber : string → num)
    (DEFAULT_ROUTE_STOPS : list RouteStop) (greatCircle : Qc → Qc → Qc → Qc → num)
    (fl : Qc → num) (render : Qc → string)
    (rawStops : option (list (option RawStop))) (bus : BusLocation) :
  Forall finite_stop DEFAULT_ROUTE_STOPS →
  let routeStops := normaliseRouteStops StringToNumber DEFAULT_ROUTE_STOPS rawStops in
  Forall finite_stop routeStops ∧
  ∀ i a, stops (routeProgress greatCircle fl render routeStops (Some bus) true) !! i = Some a →
         ∃ lat lon,
           let term := greatCircle (bus_latitude bus) (bus_longitude bus) lat lon in
           stop_latitude (d_stop a) = Num (Fin lat) ∧
           stop_longitude (d_stop a) = Num (Fin lon) ∧
           distanceMeters a = Some term ∧
           (status a = next → is_finite term = true → etaLabel a ≠ "") ∧
           (status a = next → is_finite term = false → etaLabel a = "").
Proof.
  intros Hdefault routeStops.
  assert (Forall finite_stop routeStops) as Hstops.
  { subst routeStops. destruct rawStops as [entries|]; [|done].
    unfold normaliseRouteStops. case_bool_decide; [|done].
    apply Forall_forall. intros s Hs.
    apply cleaned_lookup in Hs as (j & e & _ & Hcs). by apply cleanStop_Some in Hcs as [? _]. }
  split; [done|]. intros i a Hi.
  assert (∃ s, routeStops !! i = Some s ∧ d_stop a = s ∧
               distanceMeters a = Some (haversineDistance greatCircle bus s)) as (s & Hs & Hstop & Hda).
  { destruct (decide (routeStops = [])) as [Hnil | Hne].
    { rewrite Hnil in Hi. done. }
    rewrite routeProgress_tracked in Hi by done. simpl in Hi.
    apply lookup_decorated in Hi as (s & Hs & ->). by exists s. }
  pose proof Hs as Hin. apply list_elem_of_lookup_2 in Hin.
  rewrite Forall_forall in Hstops. destruct (Hstops s Hin) as (lat & lon & Hlat & Hlon).
  assert (haversineDistance greatCircle bus s
          = greatCircle (bus_latitude bus) (bus_longitude bus) lat lon) as Hd.
  { unfold haversineDistance, coordinates, bus_located, stop_located. by rewrite Hlat, Hlon. }
  exists lat, lon. cbv zeta. rewrite Hstop, Hda, Hd. split_and!; try done.
  - intros Hnext. destruct (next_label greatCircle fl render routeStops bus i a Hi Hnext)
      as (s' & Hs' & _ & ->).
    assert (s' = s) as -> by congruence.
    rewrite Hd. destruct (greatCircle _ _ _ _) as [d| | |]; try done. intros _.
    apply etaForDistance_finite_nonempty.
  - intros Hnext. destruct (next_label greatCircle fl render routeStops bus i a Hi Hnext)
      as (s' & Hs' & _ & ->).
    assert (s' = s) as -> by congruence.
    rewrite Hd. by destruct (greatCircle _ _ _ _) as [d| | |].
Qed.

(** Three raw entries, the second without coordinates, followed by a
    tracked bus that stands 100 from the first stop and half-way round the
    globe from the last one, with a great-circle term that is NaN there:
    the last stop is [next], at a NaN distance and without a label. *)
Lemma normalised_route_has_eta_witness :
  let raw := Some [Some (mkRawStop (Num (ofZ 12)) Undefined (Num (ofZ 100)) Undefined
                           (Some " Main Gate ") None None None);
                   Some (mkRawStop Undefined Undefined Undefined Undefined
                           (Some "Nowhere") None None None);
                   Some (mkRawStop Undefined (Num (ofZ (-12))) Undefined (Num (ofZ 180))
                           None (Some "Library") None (Some "lib"))] in
  let routeStops := normaliseRouteStops (λ _, NaN) demo_route raw in
  (stop_name <$> routeStops) = ["Main Gate"; "Library"] ∧
  Forall finite_stop demo_route ∧
  ∃ a, stops (routeProgress antipodal_nan binary64 plain_digits routeStops (Some bus_here) true)
         !! 1%nat = Some a ∧
       status a = next ∧ distanceMeters a = Some NaN ∧ etaLabel a = "".
Proof.
  intros raw routeStops. split; [by vm_compute|].
  assert (Forall finite_stop demo_route) as Hdefault
    by (unfold demo_route; repeat constructor; by eexists _, _).
  split; [exact Hdefault|].
  destruct (normalised_route_has_eta (λ _, NaN) demo_route antipodal_nan binary64 plain_digits
              raw bus_here Hdefault) as [_ Hstops].
  eexists. split; [by vm_compute|].
  destruct (Hstops 1%nat _ ltac:(by vm_compute)) as (lat & lon & Hlat & Hlon & Hd & _ & Hlabel).
  split; [reflexivity|]. split; [reflexivity|].
  simpl in Hlat, Hlon. injection Hlat as <-. injection Hlon as <-.
  apply Hlabel; [reflexivity | by vm_compute].
Defined.

(** ** Bounds *)

Lemma Math_max_spec (values : list num) :
  Forall (λ v, is_nan v = false) values →
  is_nan (Math_max values) = false ∧
  (∀ v, v ∈ values → leb v (Math_max values) = true) ∧
  (values ≠ [] → Math_max values ∈ values).
Proof.
  induction 1 as [|v rest Hv Hrest IH]; simpl.
  { split; [done|]. split; [by intros v ?%elem_of_nil | done]. }
  destruct IH as (Hnan & Hle & Hin).
  destruct (max2_spec v (Math_max rest) Hv Hnan) as (Hcase & Hle1 & Hle2).
  split_and!.
  - by destruct Hcase as [-> | ->].
  - intros w [-> | Hw]%elem_of_cons; [done|]. eapply leb_trans; [by apply Hle|done].
  - intros _. destruct rest as [|w rest'].
    + simpl. unfold max2. rewrite Hv. destruct v; simpl; by left.
    + destruct Hcase as [-> | ->]; [by left|]. right. by apply Hin.
Qed.

Lemma Math_min_spec (values : list num) :
  Forall (λ v, is_nan v = false) values →
  is_nan (Math_min values) = false ∧
  (∀ v, v ∈ values → leb (Math_min values) v = true) ∧
  (values ≠ [] → Math_min values ∈ values).
Proof.
  induction 1 as [|v rest Hv Hrest IH]; simpl.
  { split; [done|]. split; [by intros v ?%elem_of_nil | done]. }
  destruct IH as (Hnan & Hle & Hin).
  destruct (min2_spec v (Math_min rest) Hv Hnan) as (Hcase & Hle1 & Hle2).
  split_and!.
  - by destruct Hcase as [-> | ->].
  - intros w [-> | Hw]%elem_of_cons; [done|]. eapply leb_trans; [done|by apply Hle].
  - intros _. destruct rest as [|w rest'].
    + simpl. unfold min2. rewrite Hv. destruct v; simpl; by left.
    + destruct Hcase as [-> | ->]; [by left|]. right. by apply Hin.
Qed.

Lemma Math_max_nan (values : list num) : NaN ∈ values → Math_max values = NaN.
Proof.
  induction values as [|v rest IH]; [by intros ?%elem_of_nil|].
  intros [<- | Hin]%elem_of_cons; simpl; [done|].
  rewrite (IH Hin). unfold max2. by rewrite orb_true_r.
Qed.

Lemma Math_min_nan (values : list num) : NaN ∈ values → Math_min values = NaN.
Proof.
  induction values as [|v rest IH]; [by intros ?%elem_of_nil|].
  intros [<- | Hin]%elem_of_cons; simpl; [done|].
  rewrite (IH Hin). unfold min2. by rewrite orb_true_r.
Qed.

(** X11.  [computeBounds] answers [null] for no point.  For points without a NaN
    coordinate the two corners enclose every point, and each of the four
    bounds is the coordinate of one of the points.  A NaN latitude makes
    both latitude bounds NaN. *)
Theorem computeBounds_encloses (points : list Point) :
  computeBounds [] = None ∧
  (points ≠ [] →
   ∃ bounds, computeBounds points = Some bounds ∧
     (Forall (λ p, is_nan (point_latitude p) = false ∧ is_nan (point_longitude p) = false) points →
        (∀ p, p ∈ points →
           leb (southWest bounds).2 (point_latitude p) = true ∧
           leb (point_latitude p) (northEast bounds).2 = true ∧
           leb (southWest bounds).1 (point_longitude p) = true ∧
           leb (point_longitude p) (northEast bounds).1 = true) ∧
        (northEast bounds).2 ∈ point_latitude <$> points ∧
        (southWest bounds).2 ∈ point_latitude <$> points ∧
        (northEast bounds).1 ∈ point_longitude <$> points ∧
        (southWest bounds).1 ∈ point_longitude <$> points) ∧
     (NaN ∈ point_latitude <$> points →
        (northEast bounds).2 = NaN ∧ (southWest bounds).2 = NaN)).
Proof.
  split; [done|]. intros Hne. unfold computeBounds.
  rewrite bool_decide_eq_false_2 by (by destruct points).
  eexists. split; [reflexivity|]. simpl. split.
  - intros Hnan.
    assert (Forall (λ v, is_nan v = false) (point_latitude <$> points)) as Hlat.
    { apply Forall_fmap. eapply Forall_impl; [exact Hnan|]. by intros p [? _]. }
    assert (Forall (λ v, is_nan v = false) (point_longitude <$> points)) as Hlng.
    { apply Forall_fmap. eapply Forall_impl; [exact Hnan|]. by intros p [_ ?]. }
    destruct (Math_max_spec _ Hlat) as (_ & Hmax_lat & Hin_max_lat).
    destruct (Math_min_spec _ Hlat) as (_ & Hmin_lat & Hin_min_lat).
    destruct (Math_max_spec _ Hlng) as (_ & Hmax_lng & Hin_max_lng).
    destruct (Math_min_spec _ Hlng) as (_ & Hmin_lng & Hin_min_lng).
    assert (point_latitude <$> points ≠ []) as Hne_lat by (by destruct points).
    assert (point_longitude <$> points ≠ []) as Hne_lng by (by destruct points).
    split_and!; try auto.
    intros p Hp. split_and!.
    + apply Hmin_lat. by apply list_elem_of_fmap_2.
    + apply Hmax_lat. by apply list_elem_of_fmap_2.
    + apply Hmin_lng. by apply list_elem_of_fmap_2.
    + apply Hmax_lng. by apply list_elem_of_fmap_2.
  - intros Hnan. split; [by apply Math_max_nan | by apply Math_min_nan].
Qed.

(** The corners of three points. *)
Lemma computeBounds_encloses_witness :
  let points := [mkPoint (ofZ 11) (ofZ 77); mkPoint (ofZ 10) (ofZ 78); mkPoint (ofZ 12) (ofZ 76)] in
  ∃ bounds, computeBounds points = Some bounds ∧
            leb (point_latitude (mkPoint (ofZ 10) (ofZ 78))) (northEast bounds).2 = true.
Proof.
  intros points.
  destruct (computeBounds_encloses points) as [_ H].
  destruct (H ltac:(discriminate)) as (bounds & Hb & Henclose & _).
  exists bounds. split; [exact Hb|].
  apply Henclose.
  - repeat constructor.
  - right. left.
Defined.

(** ** The bottom sheet *)

(** X12.  Whatever the screen height, the height a drag starts from and its
    length, the height given to the sheet while dragging is a number
    between the collapsed height 150 and 420; it is the dragged height
    itself when that lies between the collapsed and the expanded
    height. *)
Theorem sheet_height_bounds (SCREEN_HEIGHT startHeight dy : Qc) :
  let height := sheetHeightOnMove SCREEN_HEIGHT startHeight dy in
  is_finite height = true ∧
  leb SHEET_COLLAPSED_HEIGHT height = true ∧
  leb height (ofZ 420) = true ∧
  (leb SHEET_COLLAPSED_HEIGHT (Fin (startHeight - dy)%Qc) = true →
   leb (Fin (startHeight - dy)%Qc) (SHEET_EXPANDED_HEIGHT SCREEN_HEIGHT) = true →
   height = Fin (startHeight - dy)%Qc).
Proof.
  intros height. subst height.
  unfold sheetHeightOnMove, clamp, SHEET_EXPANDED_HEIGHT, SHEET_COLLAPSED_HEIGHT.
  set (v := Fin (startHeight - dy)%Qc).
  set (screen := Fin (SCREEN_HEIGHT * ratio 62 100)%Qc).
  assert (is_nan (min2 (ofZ 420) screen) = false ∧ is_finite (min2 (ofZ 420) screen) = true ∧
          leb (min2 (ofZ 420) screen) (ofZ 420) = true) as (Hexp_nan & Hexp_fin & Hexp_le).
  { destruct (min2_spec (ofZ 420) screen eq_refl eq_refl) as ([-> | ->] & ? & ?); by split_and!. }
  set (expanded := min2 (ofZ 420) screen) in *.
  assert (is_nan (min2 v expanded) = false ∧ is_finite (min2 v expanded) = true ∧
          leb (min2 v expanded) expanded = true) as (Hin_nan & Hin_fin & Hin_le).
  { destruct (min2_spec v expanded eq_refl Hexp_nan) as ([-> | ->] & ? & ?); by split_and!. }
  destruct (max2_spec (ofZ 150) (min2 v expanded) eq_refl Hin_nan) as (Hcase & Hlo & Hhi).
  split_and!.
  - by destruct Hcase as [-> | ->].
  - done.
  - destruct Hcase as [-> | ->].
    + rewrite leb_ofZ. by apply bool_decide_eq_true.
    + eapply leb_trans; [exact Hin_le | exact Hexp_le].
  - intros Hlow Hhigh.
    assert (min2 v expanded = v) as Hmin.
    { unfold min2. rewrite Hexp_nan. simpl.
      destruct (ltb expanded v) eqn:Hlt; [|done].
      destruct expanded as [e| | |]; try done. subst v. simpl in *.
      apply bool_decide_eq_true in Hlt, Hhigh. by destruct (Qclt_not_le _ _ Hlt). }
    rewrite Hmin. subst v. unfold max2. simpl.
    case_bool_decide as Hlt; [done|]. simpl in Hlow.
    apply bool_decide_eq_true in Hlow. apply Qcnot_lt_le in Hlt.
    unfold ofZ. f_equal. by apply Qcle_antisym.
Qed.

(** A drag of 100 upwards from the collapsed sheet on a screen 800 high. *)
Lemma sheet_height_bounds_witness :
  sheetHeightOnMove (Qc_of_Z 800) (Qc_of_Z 150) (Qc_of_Z (-100)) = Fin (Qc_of_Z 150 - Qc_of_Z (-100))%Qc.
Proof.
  apply (sheet_height_bounds (Qc_of_Z 800) (Qc_of_Z 150) (Qc_of_Z (-100))); by vm_compute.
Defined.

End HelperFacts.


(* ===================================================================== *)
(** * The two screens over time *)
(* ===================================================================== *)

Module TraceFacts.

Import JS LocationService ObserverTraces Statements.

Section Traces.

Variable StringToNumber : string → num.
Variable now : value.
Variable busDriver : value.

(** X13.  Whatever [MapScreen] has received since it was mounted, its tracking
    flag is set exactly when it holds a bus location; [routeProgress]
    therefore takes its tracked branch exactly when a location is held,
    and the flag is redundant in its test. *)
Theorem map_screen_flag_follows_location (events : list MapEvent)
    (greatCircle : Qc → Qc → Qc → Qc → num) (fl : Qc → num) (render : Qc → string)
    (routeStops : list MapScreen.RouteStop) :
  let st := foldl (mapStep StringToNumber now) mapInitial events in
  (MapScreen.isBusTracking st = true ↔ is_Some (MapScreen.busLocation st)) ∧
  MapScreen.routeProgress greatCircle fl render routeStops (MapScreen.busLocation st) (MapScreen.isBusTracking st)
    = MapScreen.routeProgress greatCircle fl render routeStops (MapScreen.busLocation st) true.
Proof.
  intros st.
  assert (MapScreen.isBusTracking st = true ↔ is_Some (MapScreen.busLocation st)) as Hinv.
  { subst st. induction events as [|event rest IH] using rev_ind.
    - simpl. split; [done | by intros [? ?]].
    - rewrite foldl_app. simpl. destruct event as [snapshot| |]; simpl.
      + unfold MapScreen.onSnapshot. destruct (_ && _); simpl.
        * split; eauto.
        * split; [done | by intros [? ?]].
      + split; [done | by intros [? ?]].
      + split; [done | by intros [? ?]]. }
  split; [done|].
  destruct (MapScreen.isBusTracking st) eqn:Hflag; [done|].
  destruct (MapScreen.busLocation st) as [bus|] eqn:Hbus.
  - assert (false = true) by (apply Hinv; eauto). done.
  - unfold MapScreen.routeProgress. by repeat case_bool_decide.
Qed.

(** X14.  Whatever [BusLiveTrackingScreen] has received since it was mounted, the
    live marker is rendered exactly when a bus location is held, and the
    loading state is over after the first event and never comes back. *)
Theorem live_screen_marker_follows_location (events : list LiveEvent) :
  let st := foldl (liveStep busDriver) liveInitial events in
  (BusLiveTrackingScreen.showsLiveMarker st = true ↔
     is_Some (BusLiveTrackingScreen.busLocation st)) ∧
  (events ≠ [] → BusLiveTrackingScreen.loading st = false).
Proof.
  intros st. subst st.
  induction events as [|event rest IH] using rev_ind.
  - simpl. split; [|done]. split; [done | by intros [? ?]].
  - rewrite foldl_app. simpl. destruct IH as [IH _].
    set (prev := foldl (liveStep busDriver) liveInitial rest) in *.
    destruct event as [locationData| |]; simpl.
    + unfold BusLiveTrackingScreen.onLocation, BusLiveTrackingScreen.showsLiveMarker.
      destruct locationData as [data|]; [|by split; [split; [|intros [? ?]]|]].
      destruct (Some data ≫= currentLocation);
        destruct (BusLiveTrackingScreen.isTrackingActive (Some data)) eqn:Hact;
        simpl; (split; [|done]); split; try done; try (by intros [? ?]); try rewrite Hact; eauto.
    + split; [exact IH | done].
    + split; [exact IH | done].
Qed.

(** X15.  Whenever [MapScreen] shows a record as a tracked bus,
    [BusLiveTrackingScreen] shows the same record too, at the same
    coordinates. *)
Theorem map_screen_live_implies_live_screen (snapshot : option Snapshot)
    (st : MapScreen.ScreenState) (st' : BusLiveTrackingScreen.ScreenState) (bus : MapScreen.BusLocation) :
  MapScreen.busLocation (MapScreen.onSnapshot StringToNumber now snapshot st) = Some bus →
  ∃ location,
    BusLiveTrackingScreen.busLocation
      (BusLiveTrackingScreen.onLocation busDriver snapshot st') = Some location ∧
    BusLiveTrackingScreen.loc_isTracking location = true ∧
    BusLiveTrackingScreen.loc_latitude location = Num (Fin (MapScreen.bus_latitude bus)) ∧
    BusLiveTrackingScreen.loc_longitude location = Num (Fin (MapScreen.bus_longitude bus)).
Proof.
  destruct snapshot as [data|]; [|done].
  unfold MapScreen.onSnapshot.
  destruct (MapScreen.trackingActive (Some data)) eqn:Hactive; [|done].
  destruct (MapScreen.hasValidCoords (Some data)) eqn:Hvalid; [|done].
  unfold MapScreen.hasValidCoords in Hvalid.
  unfold BusLiveTrackingScreen.onLocation.
  assert (BusLiveTrackingScreen.isTrackingActive (Some data) = true) as Hlive.
  { unfold MapScreen.trackingActive, MapScreen.sessionMarker in Hactive.
    unfold BusLiveTrackingScreen.isTrackingActive. simpl in *.
    unfold and in *. destruct (truthy (isTracking data)) eqn:HT; [|done].
    destruct (activeTrackingSession data) eqn:EA; simpl in *;
      destruct (trackingSessionId data) eqn:ET; simpl in *; try done;
      by repeat case_decide. }
  destruct (Some data ≫= currentLocation) as [location|] eqn:Hloc; [|done].
  rewrite Hlive. simpl in *.
  apply andb_true_iff in Hvalid as [Hlat Hlon].
  destruct (latitude location) as [| | |[lat| | |]| |] eqn:Elat; try done.
  destruct (longitude location) as [| | |[lon| | |]| |] eqn:Elon; try done.
  intros [= <-]. eexists. split; [reflexivity|]. done.
Qed.

End Traces.

(** The record of a trip in progress, on both screens. *)
Lemma map_screen_live_implies_live_screen_witness :
  let record := Some (live_record (Str "session-1") (Str "session-1")) in
  ∃ location,
    BusLiveTrackingScreen.busLocation
      (BusLiveTrackingScreen.onLocation Undefined record liveInitial) = Some location ∧
    BusLiveTrackingScreen.loc_latitude location = Num (ofZ 11).
Proof.
  intros record.
  destruct (map_screen_live_implies_live_screen (λ _, NaN) Undefined Undefined record mapInitial
              liveInitial _ eq_refl) as (location & Hloc & _ & Hlat & _).
  exists location. split; [exact Hloc|]. exact Hlat.
Defined.

End TraceFacts.


(* ===================================================================== *)
(** * The recipient repository: lookups and pruning *)
(* ===================================================================== *)

Module RepositoryFacts.

Import JS Async RecipientRepository Statements RepositoryStatements RecipientFacts.

Lemma lower_ascii_twice (c : Ascii.ascii) : lower_ascii (lower_ascii c) = lower_ascii c.
Proof. by destruct c as [[] [] [] [] [] [] [] []]. Qed.

Lemma lower_letters_twice (s : string) : lower_letters (lower_letters s) = lower_letters s.
Proof. induction s as [|c rest IH]; simpl; [done|]. by rewrite lower_ascii_twice, IH. Qed.

(** With an engine that knows the ASCII letters only, [toLowerCase] is
    [lower_letters]. *)
Lemma toLowerCase_letters (s : string) : toLowerCase lower_letters s = lower_letters s.
Proof. unfold toLowerCase. by destruct (ascii_only s). Qed.

Section Lookups.

Variable lower : string → string.

Lemma NoDup_docs (P : string * UserData → Prop) `{!∀ document, Decision (P document)} (w : World) :
  NoDup (filter P (map_to_list (users w))).*1.
Proof.
  eapply sublist_NoDup; [apply (NoDup_fst_map_to_list (users w))|].
  apply fmap_sublist, sublist_filter.
Qed.

Lemma NoDup_uid_omap (f : string * UserData → option Recipient) (docs : list (string * UserData)) :
  (∀ document r, f document = Some r → uid r = document.1) →
  NoDup docs.*1 → NoDup (uid <$> omap f docs).
Proof.
  intros Hf. induction docs as [|document rest IH]; csimpl; [constructor|].
  intros [Hfresh Hrest]%NoDup_cons. destruct (f document) as [r|] eqn:Hr; csimpl; [|by apply IH].
  apply NoDup_cons. split; [|by apply IH].
  intros (r' & Huid & Hin)%list_elem_of_fmap. apply list_elem_of_omap in Hin as (document' & Hin & Hr').
  apply Hfresh. apply list_elem_of_fmap. exists document'. split; [|done].
  apply Hf in Hr, Hr'. congruence.
Qed.

Lemma getRecipientsByBus_total (w : World) (bus : string) :
  ∃ recipients, getRecipientsByBus lower bus w = (Returned recipients, w) ∧ NoDup (uid <$> recipients).
Proof.
  unfold getRecipientsByBus. case_bool_decide; [exists []; split; [done | constructor]|].
  unfold mbind, M_bind, where_get. simpl.
  case_bool_decide; [exists []; split; [done | constructor]|].
  eexists. split; [reflexivity|]. apply NoDup_uid_omap; [|apply NoDup_docs].
  intros [id data] r. simpl. case_bool_decide; [|done]. by intros [= <-].
Qed.

Lemma getRecipientsByBus_sound (w w' : World) (bus : string) (recipients : list Recipient) (r : Recipient) :
  getRecipientsByBus lower bus w = (Returned recipients, w') → r ∈ recipients →
  bus ≠ "" ∧
  ∃ data, users w !! uid r = Some data ∧ busNumber data = Str bus ∧
          toLowerCase lower (default "" (role data)) ∈ TARGET_ROLES ∧
          r = busRecipient lower (uid r) bus data.
Proof.
  unfold getRecipientsByBus. case_bool_decide as Hbus; [by intros [= <- _] ?%elem_of_nil|].
  unfold mbind, M_bind, where_get. simpl.
  case_bool_decide; [by intros [= <- _] ?%elem_of_nil|].
  intros [= <- _] ([id data] & Hin & Hr)%list_elem_of_omap. split; [done|].
  apply list_elem_of_filter in Hin as [Hcond Hdata]. apply elem_of_map_to_list in Hdata.
  simpl in Hcond, Hr. apply bool_decide_eq_true in Hcond.
  case_bool_decide as Hrole; [|done]. injection Hr as <-. simpl.
  exists data. unfold busRecipient. by rewrite Hcond.
Qed.

Lemma getRecipientsByBus_complete (w : World) (bus id : string) (data : UserData) :
  bus ≠ "" → users w !! id = Some data → busNumber data = Str bus →
  toLowerCase lower (default "" (role data)) ∈ TARGET_ROLES →
  ∃ recipients, getRecipientsByBus lower bus w = (Returned recipients, w) ∧
                busRecipient lower id bus data ∈ recipients.
Proof.
  intros Hbus Hdata Hcond Hrole. unfold getRecipientsByBus.
  rewrite bool_decide_eq_false_2 by done.
  unfold mbind, M_bind, where_get. simpl.
  set (docs := filter _ (map_to_list (users w))).
  assert ((id, data) ∈ docs) as Hin.
  { unfold docs. apply list_elem_of_filter. split; [by apply bool_decide_eq_true|].
    by apply elem_of_map_to_list. }
  case_bool_decide as Hdocs; [rewrite Hdocs in Hin; by apply elem_of_nil in Hin|].
  eexists. split; [reflexivity|]. apply list_elem_of_omap. exists (id, data). split; [done|].
  simpl. rewrite bool_decide_eq_true_2 by done. unfold busRecipient. by rewrite Hcond.
Qed.

Lemma getRecipientsByRole_total (w : World) (query : string) :
  ∃ recipients, getRecipientsByRole lower query w = (Returned recipients, w) ∧ NoDup (uid <$> recipients).
Proof.
  unfold getRecipientsByRole. case_bool_decide; [exists []; split; [done | constructor]|].
  unfold mbind, M_bind, where_get. simpl.
  case_bool_decide; [exists []; split; [done | constructor]|].
  eexists. split; [reflexivity|]. rewrite <- list_fmap_compose. apply (NoDup_docs _ w).
Qed.

Lemma getRecipientsByRole_sound (w w' : World) (query : string) (recipients : list Recipient) (r : Recipient) :
  getRecipientsByRole lower query w = (Returned recipients, w') → r ∈ recipients →
  query ≠ "" ∧
  ∃ data, users w !! uid r = Some data ∧ role data = Some (toLowerCase lower query) ∧
          r = roleRecipient lower (uid r) query data.
Proof.
  unfold getRecipientsByRole. case_bool_decide as Hquery; [by intros [= <- _] ?%elem_of_nil|].
  unfold mbind, M_bind, where_get. simpl.
  case_bool_decide; [by intros [= <- _] ?%elem_of_nil|].
  intros [= <- _] ([id data] & -> & Hin)%list_elem_of_fmap. split; [done|].
  apply list_elem_of_filter in Hin as [Hcond Hdata]. apply elem_of_map_to_list in Hdata.
  simpl in Hcond. apply bool_decide_eq_true in Hcond. by exists data.
Qed.

Lemma getRecipientsByRole_complete (w : World) (query id : string) (data : UserData) :
  query ≠ "" → users w !! id = Some data → role data = Some (toLowerCase lower query) →
  ∃ recipients, getRecipientsByRole lower query w = (Returned recipients, w) ∧
                roleRecipient lower id query data ∈ recipients.
Proof.
  intros Hquery Hdata Hcond. unfold getRecipientsByRole.
  rewrite bool_decide_eq_false_2 by done.
  unfold mbind, M_bind, where_get. simpl.
  set (docs := filter _ (map_to_list (users w))).
  assert ((id, data) ∈ docs) as Hin.
  { unfold docs. apply list_elem_of_filter. split; [by apply bool_decide_eq_true|].
    by apply elem_of_map_to_list. }
  case_bool_decide as Hdocs; [rewrite Hdocs in Hin; by apply elem_of_nil in Hin|].
  eexists. split; [reflexivity|]. apply list_elem_of_fmap. by exists (id, data).
Qed.

(** X16.  The lookup by bus returns, leaves the store as it is, lists no user
    twice, and lists exactly the users whose stored bus number is the
    given one and whose stored role, lowered, is a target role; each with
    the lowered role and the truthy entries of the token array. *)
Theorem getRecipientsByBus_exact (w : World) (bus : string) :
  ∃ recipients,
    getRecipientsByBus lower bus w = (Returned recipients, w) ∧
    NoDup (uid <$> recipients) ∧
    ∀ r, r ∈ recipients ↔
      bus ≠ "" ∧
      ∃ data, users w !! uid r = Some data ∧
              busNumber data = Str bus ∧
              toLowerCase lower (default "" (role data)) ∈ TARGET_ROLES ∧
              r = busRecipient lower (uid r) bus data.
Proof.
  destruct (getRecipientsByBus_total w bus) as (recipients & Hrun & Hnodup).
  exists recipients. split; [exact Hrun|]. split; [exact Hnodup|].
  intros r. split; [by eapply getRecipientsByBus_sound|].
  intros (Hbus & data & Hdata & Hcond & Hrole & ->).
  destruct (getRecipientsByBus_complete w bus (uid r) data) as (recipients' & Hrun' & Hin); try done.
  rewrite Hrun in Hrun'. by injection Hrun' as <-.
Qed.

(** X17.  The lookup by role returns, leaves the store as it is, lists no user
    twice, and lists exactly the users whose stored role is the query as
    [toLowerCase] gives it, letters beyond ASCII included; each with the
    truthy entries of the token array. *)
Theorem getRecipientsByRole_exact (w : World) (query : string) :
  ∃ recipients,
    getRecipientsByRole lower query w = (Returned recipients, w) ∧
    NoDup (uid <$> recipients) ∧
    ∀ r, r ∈ recipients ↔
      query ≠ "" ∧
      ∃ data, users w !! uid r = Some data ∧
              role data = Some (toLowerCase lower query) ∧
              r = roleRecipient lower (uid r) query data.
Proof.
  destruct (getRecipientsByRole_total w query) as (recipients & Hrun & Hnodup).
  exists recipients. split; [exact Hrun|]. split; [exact Hnodup|].
  intros r. split; [by eapply getRecipientsByRole_sound|].
  intros (Hquery & data & Hdata & Hcond & ->).
  destruct (getRecipientsByRole_complete w query (uid r) data) as (recipients' & Hrun' & Hin); try done.
  rewrite Hrun in Hrun'. by injection Hrun' as <-.
Qed.

(** X18.  Lowering a lowered string changes nothing, in the engines.  So a
    user whose stored role is changed by lowering is found by the lookup
    by bus, which lowers the stored role, and by no lookup by role, which
    lowers the query only. *)
Theorem role_lookup_is_case_sensitive (w : World) (id bus stored : string) (data : UserData) :
  (∀ s, toLowerCase lower (toLowerCase lower s) = toLowerCase lower s) →
  users w !! id = Some data → role data = Some stored → toLowerCase lower stored ≠ stored →
  (∀ query recipients w', getRecipientsByRole lower query w = (Returned recipients, w') →
     id ∉ uid <$> recipients) ∧
  (bus ≠ "" → busNumber data = Str bus → toLowerCase lower stored ∈ TARGET_ROLES →
     ∃ recipients, getRecipientsByBus lower bus w = (Returned recipients, w) ∧ id ∈ uid <$> recipients).
Proof.
  intros Htwice Hdata Hrole Hcase. split.
  - intros query recipients w' Hrun (r & -> & Hin)%list_elem_of_fmap.
    destruct (getRecipientsByRole_sound _ _ _ _ _ Hrun Hin) as (_ & data' & Hdata' & Hrole' & _).
    rewrite Hdata in Hdata'. injection Hdata' as <-. rewrite Hrole in Hrole'.
    injection Hrole' as ->. by rewrite Htwice in Hcase.
  - intros Hbus Hcond Htarget.
    destruct (getRecipientsByBus_complete w bus id data) as (recipients & Hrun & Hin); try done.
    { by rewrite Hrole. }
    exists recipients. split; [exact Hrun|]. apply list_elem_of_fmap. by eexists; split; [|exact Hin].
Qed.

(** X19.  The tokens of a recipient, whichever lookup returned it, are the
    tokens [getTokensForUser] reads for that user. *)
Theorem recipient_tokens_are_user_tokens (w w' : World) (key : string)
    (recipients : list Recipient) (r : Recipient) :
  getRecipientsByBus lower key w = (Returned recipients, w') ∨
    getRecipientsByRole lower key w = (Returned recipients, w') →
  r ∈ recipients → uid r ≠ "" →
  getTokensForUser (uid r) w = (Returned (tokens r), w).
Proof.
  intros Hrun Hin Huid.
  assert (∃ data, users w !! uid r = Some data ∧ tokens r = cleanTokens data) as (data & Hdata & Htokens).
  { destruct Hrun as [Hrun | Hrun].
    - destruct (getRecipientsByBus_sound _ _ _ _ _ Hrun Hin) as (_ & data & Hdata & _ & _ & Hr).
      exists data. split; [done|]. by rewrite Hr.
    - destruct (getRecipientsByRole_sound _ _ _ _ _ Hrun Hin) as (_ & data & Hdata & _ & Hr).
      exists data. split; [done|]. by rewrite Hr. }
  unfold getTokensForUser. rewrite bool_decide_eq_false_2 by done.
  unfold mbind, M_bind, get. simpl. by rewrite Hdata, Htokens.
Qed.

End Lookups.

(** The student of the demonstration directory, stored as "Student". *)
Lemma role_lookup_is_case_sensitive_witness :
  (∀ query recipients w',
     getRecipientsByRole lower_letters query demo_world = (Returned recipients, w') →
     "u1" ∉ uid <$> recipients) ∧
  ∃ recipients,
    getRecipientsByBus lower_letters "B-12" demo_world = (Returned recipients, demo_world) ∧
    "u1" ∈ uid <$> recipients.
Proof.
  destruct (role_lookup_is_case_sensitive lower_letters demo_world "u1" "B-12" "Student"
              (mkUser (Some "Student") (Str "B-12") (Some [Str " "]))
              ltac:(intros s; by rewrite !toLowerCase_letters, lower_letters_twice)
              eq_refl eq_refl ltac:(discriminate)) as [Hrole Hbus].
  split; [exact Hrole|]. apply Hbus; [discriminate | reflexivity |].
  apply (bool_decide_unpack _). by vm_compute.
Defined.

(** The manager of the demonstration directory. *)
Lemma recipient_tokens_are_user_tokens_witness :
  getTokensForUser "u2" demo_world = (Returned [Str "tk2"], demo_world).
Proof.
  apply (recipient_tokens_are_user_tokens lower_letters demo_world demo_world "Management"
           [mkRecipient "u2" "management" Undefined [Str "tk2"]]
           (mkRecipient "u2" "management" Undefined [Str "tk2"])).
  - right. by vm_compute.
  - apply list_elem_of_singleton. reflexivity.
  - discriminate.
Defined.

Lemma removeTokens_users (uid_ : string) (tokens_ : list value) (w : World) :
  users (removeTokens uid_ tokens_ w).2 =
    if decide (uid_ = "" ∨ tokens_ = []) then users w
    else match users w !! uid_ with
         | Some data => <[uid_ := pruned tokens_ data]> (users w)
         | None => users w
         end.
Proof.
  case_decide as Hskip.
  - unfold removeTokens. destruct Hskip as [-> | ->]; [done|]. by rewrite orb_true_r.
  - rewrite removeTokens_run by tauto. by destruct (users w !! uid_).
Qed.

Lemma pruned_pruned (first second : list value) (data : UserData) :
  pruned second (pruned first data) = pruned (first ++ second) data.
Proof.
  unfold pruned, arrayRemove. simpl. do 2 f_equal.
  rewrite list_filter_filter. apply list_filter_iff. intros x. rewrite elem_of_app. tauto.
Qed.

Lemma cleanTokens_pruned_list (tokens_ : list value) (data : UserData) :
  cleanTokens (pruned tokens_ data) = filter (λ x, x ∉ tokens_) (cleanTokens data).
Proof.
  unfold cleanTokens, pruned, arrayRemove. simpl.
  destruct (fcmTokens data) as [array|]; simpl; [|done].
  rewrite !list_filter_filter. apply list_filter_iff. tauto.
Qed.

Lemma filter_all {A : Type} (P : A → Prop) `{!∀ x, Decision (P x)} (l : list A) :
  (∀ x, P x) → filter P l = l.
Proof.
  intros HP. induction l as [|x rest IH]; [done|]. rewrite filter_cons_True by done. by rewrite IH.
Qed.

(** X20.  Pruning in batches.  Removing two batches of token strings one after
    the other leaves the user documents as removing them in one call does,
    in either order; no document is created or deleted, roles and bus
    numbers are kept, the other users are untouched, and the user's tokens
    afterwards are the earlier ones that are in no batch. *)
Theorem removeTokens_batches (w : World) (uid_ : string) (first second : list string) :
  let T1 := Str <$> first in
  let T2 := Str <$> second in
  let after tokens_ world := (removeTokens uid_ tokens_ world).2 in
  users (after T2 (after T1 w)) = users (after (T1 ++ T2) w) ∧
  users (after T1 (after T2 w)) = users (after T2 (after T1 w)) ∧
  (∀ id data', users (after T1 w) !! id = Some data' →
     ∃ data, users w !! id = Some data ∧ role data' = role data ∧ busNumber data' = busNumber data ∧
             (id ≠ uid_ → data' = data)) ∧
  (∀ id, users w !! id = None → users (after T1 w) !! id = None) ∧
  (∀ before, (getTokensForUser uid_ w).1 = Returned before →
     (getTokensForUser uid_ (after T2 (after T1 w))).1
       = Returned (filter (λ x, x ∉ T1 ++ T2) before)).
Proof.
  intros T1 T2 after.
  assert (∀ A B, users (after B (after A w)) = users (after (A ++ B) w)) as Hseq.
  { intros A B. unfold after. rewrite !removeTokens_users.
    destruct (decide (uid_ = "")) as [-> | Huid].
    { by rewrite !decide_True by tauto. }
    destruct A as [|a A].
    { rewrite (decide_True (P := uid_ = "" ∨ [] = [])) by tauto. done. }
    destruct B as [|b B].
    { rewrite (decide_True (P := uid_ = "" ∨ [] = [])) by tauto. by rewrite app_nil_r. }
    rewrite !decide_False by (intros [? | ?]; done).
    destruct (users w !! uid_) as [data|] eqn:Hdata; simpl.
    - rewrite lookup_insert_eq, insert_insert_eq. by rewrite pruned_pruned.
    - by rewrite Hdata. }
  assert (∀ A B, users (after (A ++ B) w) = users (after (B ++ A) w)) as Hswap.
  { intros A B. unfold after. rewrite !removeTokens_users.
    destruct (decide (uid_ = "")) as [-> | Huid].
    { by rewrite !decide_True by tauto. }
    destruct (decide (A ++ B = [])) as [Hnil | Hnil].
    { apply app_eq_nil in Hnil as [-> ->]. done. }
    assert (B ++ A ≠ []) as Hnil' by (intros [-> ->]%app_eq_nil; done).
    rewrite !decide_False by tauto.
    destruct (users w !! uid_) as [data|]; [|done]. f_equal.
    unfold pruned, arrayRemove. do 2 f_equal. apply list_filter_iff.
    intros x. rewrite !elem_of_app. tauto. }
  split; [apply Hseq|]. split; [by rewrite !Hseq|].
  assert (∀ A id data', users (after A w) !! id = Some data' →
            ∃ data, users w !! id = Some data ∧ role data' = role data ∧
                    busNumber data' = busNumber data ∧ (id ≠ uid_ → data' = data)) as Hdoc.
  { intros A id data'. unfold after. rewrite removeTokens_users. case_decide as Hskip.
    { intros ?. by exists data'. }
    destruct (users w !! uid_) as [data|] eqn:Hdata.
    - destruct (decide (id = uid_)) as [-> | Hother].
      + rewrite lookup_insert_eq. intros [= <-]. exists data. by split_and!.
      + rewrite lookup_insert_ne by done. intros ?. by exists data'.
    - intros Hid. by exists data'. }
  split; [apply Hdoc|].
  split.
  { intros id Hnone. unfold after. rewrite removeTokens_users. case_decide; [done|].
    destruct (users w !! uid_) as [data|] eqn:Hdata; [|done].
    rewrite lookup_insert_ne; [done|]. congruence. }
  intros before. unfold getTokensForUser. case_bool_decide as Huid; [by intros [= <-]|].
  unfold mbind, M_bind, get. simpl. rewrite Hseq. unfold after. rewrite removeTokens_users.
  case_decide as Hskip.
  - destruct Hskip as [? | Hnil]; [done|]. rewrite Hnil.
    destruct (users w !! uid_); simpl; intros [= <-]; [|done].
    f_equal. symmetry. apply filter_all. intros x. apply not_elem_of_nil.
  - destruct (users w !! uid_) as [data|] eqn:Hdata; simpl.
    + rewrite lookup_insert_eq. simpl. intros [= <-]. by rewrite cleanTokens_pruned_list.
    + rewrite Hdata. simpl. by intros [= <-].
Qed.

End RepositoryFacts.


(* ===================================================================== *)
(** * Trimming *)
(* ===================================================================== *)

Module TextFacts.

Import Text.

(** A printable ASCII character other than the space is the first byte of
    no white space, and the last byte of none. *)
Lemma no_white_space_start (c : Ascii.ascii) (l : list Ascii.ascii) :
  ((32 <? Ascii.N_of_ascii c) && (Ascii.N_of_ascii c <? 127))%N = true →
  without_one WHITE_SPACE (c :: l) = None.
Proof. destruct c as [[] [] [] [] [] [] [] []]; intros H; try reflexivity; discriminate H. Qed.

Lemma no_white_space_end (c : Ascii.ascii) (l : list Ascii.ascii) :
  ((32 <? Ascii.N_of_ascii c) && (Ascii.N_of_ascii c <? 127))%N = true →
  without_one (reverse <$> WHITE_SPACE) (c :: l) = None.
Proof. destruct c as [[] [] [] [] [] [] [] []]; intros H; try reflexivity; discriminate H. Qed.

Lemma strip_leading_stop (patterns : list (list Ascii.ascii)) (fuel : nat) (l : list Ascii.ascii) :
  without_one patterns l = None → strip_leading patterns fuel l = l.
Proof. intros H. destruct fuel; simpl; [done|]. by rewrite H. Qed.

Lemma trim_start_list_keeps (c : Ascii.ascii) (l : list Ascii.ascii) :
  ((32 <? Ascii.N_of_ascii c) && (Ascii.N_of_ascii c <? 127))%N = true →
  trim_start_list (c :: l) = c :: l.
Proof. intros Hc. by apply strip_leading_stop, no_white_space_start. Qed.

Lemma trim_end_list_keeps (l : list Ascii.ascii) (c : Ascii.ascii) :
  ((32 <? Ascii.N_of_ascii c) && (Ascii.N_of_ascii c <? 127))%N = true →
  trim_end_list (l ++ [c]) = l ++ [c].
Proof.
  intros Hc. unfold trim_end_list. rewrite reverse_app.
  change (reverse [c] ++ reverse l) with (c :: reverse l).
  rewrite strip_leading_stop by (by apply no_white_space_end).
  by rewrite reverse_cons, reverse_involutive.
Qed.

End TextFacts.

(* ===================================================================== *)
(** * The notification client: candidates and requests *)
(* ===================================================================== *)

Module BackendFacts.

Import JS Async Text BackendClient BackendConfig DirectNotification Statements.

Section Posting.

Variable Json : Type.
Variable Body : Type.
Variable fetch : list (Request Body) → Request Body → FetchResult Json.

(** The two ways the loop of [postJson] ends: at the first base URL with a
    usable answer, or after the last base URL. *)
Lemma attempt_cases (path : string) (payload : Body) (remaining : list string)
    (errors : list (string * string)) (sent : list (Request Body)) :
  (∃ tried baseUrl rest response data,
     remaining = tried ++ baseUrl :: rest ∧
     attempt Json Body fetch path payload remaining errors sent
       = (Returned data, sent ++ requests path payload (tried ++ [baseUrl])) ∧
     all_unusable fetch path payload sent tried ∧
     fetch (sent ++ requests path payload tried) (mkRequest (baseUrl +:+ path) payload)
       = Responded response ∧
     ok response = true ∧ json response = Returned data) ∨
  (∃ failures,
     attempt Json Body fetch path payload remaining errors sent
       = (Thrown ("All notification endpoints failed → " +:+ readable (errors ++ failures)),
          sent ++ requests path payload remaining) ∧
     failures.*1 = remaining ∧
     all_unusable fetch path payload sent remaining).
Proof.
  revert errors sent. induction remaining as [|baseUrl rest IH]; intros errors sent.
  - right. exists []. simpl. by rewrite !app_nil_r.
  - set (request := mkRequest (baseUrl +:+ path) payload).
    assert (∀ message, unusable (fetch sent request) = true →
      attempt Json Body fetch path payload (baseUrl :: rest) errors sent
        = attempt Json Body fetch path payload rest (errors ++ [(baseUrl, message)]) (sent ++ [request]) →
      (∃ tried baseUrl0 rest0 response data,
         baseUrl :: rest = tried ++ baseUrl0 :: rest0 ∧
         attempt Json Body fetch path payload (baseUrl :: rest) errors sent
           = (Returned data, sent ++ requests path payload (tried ++ [baseUrl0])) ∧
         all_unusable fetch path payload sent tried ∧
         fetch (sent ++ requests path payload tried) (mkRequest (baseUrl0 +:+ path) payload)
           = Responded response ∧
         ok response = true ∧ json response = Returned data) ∨
      (∃ failures,
         attempt Json Body fetch path payload (baseUrl :: rest) errors sent
           = (Thrown ("All notification endpoints failed → " +:+ readable (errors ++ failures)),
              sent ++ requests path payload (baseUrl :: rest)) ∧
         failures.*1 = baseUrl :: rest ∧
         all_unusable fetch path payload sent (baseUrl :: rest))) as Hfailed.
    { intros message Hbad ->.
      destruct (IH (errors ++ [(baseUrl, message)]) (sent ++ [request]))
        as [(tried & base & rest0 & response & data & -> & Hrun & Hall & Hfetch & Hok & Hjson)
           | (failures & Hrun & Hfst & Hall)].
      - left. exists (baseUrl :: tried), base, rest0, response, data.
        split; [done|]. split; [by rewrite Hrun, <- app_assoc|]. split; [done|].
        split; [|done]. rewrite <- Hfetch. by rewrite <- app_assoc.
      - right. exists ((baseUrl, message) :: failures).
        split; [by rewrite Hrun, <- !app_assoc|]. split; [by rewrite <- Hfst|done]. }
    destruct (fetch sent request) as [message|response] eqn:Hfetch.
    { apply (Hfailed message); [done|]. simpl. fold request. by rewrite Hfetch. }
    destruct (ok response) eqn:Hok.
    2:{ eapply Hfailed; [by simpl; rewrite Hok|]. simpl. fold request. by rewrite Hfetch, Hok. }
    destruct (json response) as [data|message] eqn:Hjson.
    2:{ apply (Hfailed message); [by simpl; rewrite Hok, Hjson|].
        simpl. fold request. by rewrite Hfetch, Hok, Hjson. }
    left. exists [], baseUrl, rest, response, data. simpl. fold request.
    rewrite app_nil_r, Hfetch, Hok, Hjson. done.
Qed.

Variable candidates : list string.

(** X21.  [postJson] asks the candidate base URLs in their order, each at most
    once with the path and the body given, and ends at the first usable
    answer, whose parsed body it returns; when no answer is usable it has
    asked every candidate once and throws.  A path without the leading
    slash throws before any request. *)
Theorem postJson_first_usable_answer (path : string) (payload : Body) (sent : list (Request Body)) :
  let run := postJson Json Body fetch candidates path payload sent in
  (String.prefix "/" path = false →
     run = (Thrown "Paths passed to backendClient must start with /", sent)) ∧
  (String.prefix "/" path = true →
     (∃ tried baseUrl rest response data,
        candidates = tried ++ baseUrl :: rest ∧
        run = (Returned data, sent ++ requests path payload (tried ++ [baseUrl])) ∧
        all_unusable fetch path payload sent tried ∧
        fetch (sent ++ requests path payload tried) (mkRequest (baseUrl +:+ path) payload)
          = Responded response ∧
        ok response = true ∧ json response = Returned data) ∨
     (∃ failures,
        run = (Thrown ("All notification endpoints failed → " +:+ readable failures),
               sent ++ requests path payload candidates) ∧
        failures.*1 = candidates ∧
        all_unusable fetch path payload sent candidates)).
Proof.
  intros run. subst run. unfold postJson. split; intros ->; [done|]. simpl.
  apply (attempt_cases path payload candidates [] sent).
Qed.

End Posting.

(** The network that answers every request with a delivery report: the
    first of two candidates is asked, the second is not. *)
Lemma postJson_first_usable_answer_witness :
  postJson DeliveryReport FirebaseConfig.StartPayload demo_fetch
      ["http://192.168.1.5:4000"; "http://10.0.2.2:4000"] "/startBus"
      (FirebaseConfig.mkStartPayload (Str "B-12") Undefined Null Null) []
    = (Returned (mkReport 3 3 0),
       requests "/startBus" (FirebaseConfig.mkStartPayload (Str "B-12") Undefined Null Null)
         ["http://192.168.1.5:4000"]).
Proof.
  destruct (postJson_first_usable_answer DeliveryReport FirebaseConfig.StartPayload demo_fetch
              ["http://192.168.1.5:4000"; "http://10.0.2.2:4000"] "/startBus"
              (FirebaseConfig.mkStartPayload (Str "B-12") Undefined Null Null) []) as [_ Hvalid].
  destruct (Hvalid eq_refl) as [(tried & baseUrl & rest & response & data & Hsplit & Hrun & Hall & Hfetch & _ & Hjson)
                               | (failures & _ & _ & Hall)].
  - destruct tried as [|first tried']; [|by destruct Hall].
    injection Hsplit as <- _. injection Hfetch as <-. injection Hjson as <-. exact Hrun.
  - by destruct Hall.
Defined.

(** ** The candidates *)

Lemma sanitize_default (android_ : bool) :
  sanitizeBaseUrl (Str (if android_ then DEFAULT_ANDROID else DEFAULT_IOS))
    = Some (if android_ then DEFAULT_ANDROID else DEFAULT_IOS).
Proof. by destruct android_. Qed.


Lemma candidates_shape (env : Environment) :
  ∃ front,
    buildCandidateBaseUrls env = front ++ [if android env then DEFAULT_ANDROID else DEFAULT_IOS] ∧
    (length front ≤ 2)%nat.
Proof.
  unfold buildCandidateBaseUrls. rewrite sanitize_default.
  set (envUrl := sanitizeBaseUrl _). set (expoHostUrl := sanitizeBaseUrl _).
  set (last_ := if android env then _ else _).
  assert (last_ ≠ "") as Hlast by (subst last_; by destruct (android env)).
  unfold filter_Boolean.
  assert (∀ entry : option string,
            ∃ kept, (entry ≫= λ s, if bool_decide (s = "") then None else Some s) = kept) as Hkept by eauto.
  csimpl. rewrite (bool_decide_eq_false_2 _ Hlast).
  destruct (envUrl ≫= _) as [first|]; destruct (expoHostUrl ≫= _) as [second|]; csimpl.
  - exists [first; second]. simpl. split; [done | lia].
  - exists [first]. simpl. split; [done | lia].
  - exists [second]. simpl. split; [done | lia].
  - exists []. simpl. split; [done | lia].
Qed.




Section Fallback.

Variable Json : Type.
Variable Body : Type.
Variable fetch : list (Request Body) → Request Body → FetchResult Json.

(** X23.  With the candidates [buildCandidateBaseUrls] gives, a call of
    [postJson] with a valid path sends at least one request and at most
    three, and it throws only after the platform default has been asked
    last. *)
Theorem postJson_falls_back_to_platform_default (env : Environment) (path : string)
    (payload : Body) (sent : list (Request Body)) :
  String.prefix "/" path = true →
  let run := postJson Json Body fetch (buildCandidateBaseUrls env) path payload sent in
  ∃ extra,
    run.2 = sent ++ extra ∧
    (1 ≤ length extra ≤ 3)%nat ∧
    ∀ message, run.1 = Thrown message →
      last extra = Some (mkRequest ((if android env then DEFAULT_ANDROID else DEFAULT_IOS) +:+ path) payload).
Proof.
  intros Hpath run. subst run. unfold postJson. rewrite Hpath. simpl.
  destruct (candidates_shape env) as (front & Hshape & Hfront).
  destruct (attempt_cases Json Body fetch path payload (buildCandidateBaseUrls env) [] sent)
    as [(tried & baseUrl & rest & response & data & Hsplit & -> & _) | (failures & -> & _)].
  - exists (requests path payload (tried ++ [baseUrl])). split; [done|]. split; [|done].
    unfold requests. rewrite length_fmap, length_app. simpl.
    assert (length (buildCandidateBaseUrls env) = length tried + S (length rest))%nat as Hlen
      by (by rewrite Hsplit, length_app).
    rewrite Hshape, length_app in Hlen. simpl in Hlen. lia.
  - exists (requests path payload (buildCandidateBaseUrls env)). split; [done|]. split.
    + unfold requests. rewrite length_fmap, Hshape, length_app. simpl. lia.
    + intros _ _. rewrite Hshape. unfold requests. rewrite fmap_app. simpl. by rewrite last_snoc.
Qed.

End Fallback.

(** An Android device without configuration, and a network that rejects
    every request: the emulator address is asked, once. *)
Lemma postJson_falls_back_to_platform_default_witness :
  let env := mkEnvironment None None None None None Undefined Undefined true in
  let refuse := λ (_ : list (Request FirebaseConfig.StartPayload)) (_ : Request FirebaseConfig.StartPayload),
                  Rejected (Json := DeliveryReport) "Network request failed" in
  let payload := FirebaseConfig.mkStartPayload (Str "B-12") Undefined Null Null in
  ∃ extra,
    (postJson DeliveryReport FirebaseConfig.StartPayload refuse (buildCandidateBaseUrls env)
       "/startBus" payload []).2 = extra ∧
    last extra = Some (mkRequest "http://10.0.2.2:4000/startBus" payload).
Proof.
  intros env refuse payload.
  destruct (postJson_falls_back_to_platform_default DeliveryReport FirebaseConfig.StartPayload refuse
              env "/startBus" payload [] eq_refl) as (extra & Hrun & _ & Hlast).
  exists extra. split; [exact Hrun|]. by eapply Hlast.
Defined.

Section Direct.

Variable Json : Type.
Variable fetch : list (Request NotifyArgs) → Request NotifyArgs → FetchResult Json.
Variable candidates : list string.

(** X24.  Without a recipient, [sendUserNotification] throws and sends nothing.
    With one, it is [postJson] of "/notify" and the four fields as they
    were given: the requests it sends go to "/notify" of the first
    candidates, in their order, each with these fields. *)
Theorem sendUserNotification_spec (args : NotifyArgs) (sent : list (Request NotifyArgs)) :
  let run := sendUserNotification Json fetch candidates args sent in
  (truthy (recipientUid args) = false →
     run = (Thrown "recipientUid is required for direct notifications", sent)) ∧
  (truthy (recipientUid args) = true →
     run = postJson Json NotifyArgs fetch candidates "/notify" args sent ∧
     ∃ asked, asked `prefix_of` candidates ∧ run.2 = sent ++ requests "/notify" args asked ∧
              (∀ message, run.1 = Thrown message → asked = candidates)).
Proof.
  intros run. subst run. unfold sendUserNotification. split; intros ->; [done|]. simpl negb. cbv iota.
  assert ({| recipientUid := recipientUid args; title := title args;
             notification_body := notification_body args; data := data args |} = args) as ->
    by (by destruct args).
  split; [done|]. unfold postJson. simpl.
  destruct (attempt_cases Json NotifyArgs fetch "/notify" args candidates [] sent)
    as [(tried & baseUrl & rest & response & report & Hsplit & -> & _) | (failures & -> & _)].
  - exists (tried ++ [baseUrl]). split; [|done].
    exists rest. by rewrite Hsplit, <- app_assoc.
  - by exists candidates.
Qed.

End Direct.

(** A call without a recipient, to a network that would answer. *)
Lemma sendUserNotification_witness :
  sendUserNotification DeliveryReport
      (λ _ _, Responded (mkResponse true 200 "" (Returned (mkReport 1 1 0))))
      ["http://10.0.2.2:4000"] (mkNotifyArgs Undefined (Str "Bus 12") (Str "Arriving") Undefined) []
    = (Thrown "recipientUid is required for direct notifications", []).
Proof.
  apply (sendUserNotification_spec DeliveryReport _ ["http://10.0.2.2:4000"]
           (mkNotifyArgs Undefined (Str "Bus 12") (Str "Arriving") Undefined) []).
  reflexivity.
Defined.

End BackendFacts.


(* ===================================================================== *)
(** * Registering a device token *)
(* ===================================================================== *)

Module PushTokenFacts.

Import JS Async RecipientRepository PushTokens Statements RepositoryStatements RecipientFacts RepositoryFacts.

Section Persist.

Variable normalizeBusNumber : value → value.
Variable clock : nat → string.

Lemma persistTokenForUser_run (identifier token : string) (user : option ClientUser) (w : ClientWorld) :
  persistTokenForUser normalizeBusNumber clock identifier token user w =
    (Returned tt,
     {| documents := <[identifier := registered normalizeBusNumber clock token user (documents w !! identifier)]> (documents w);
        cachedToken := Str token;
        client_console := client_console w |}).
Proof.
  unfold persistTokenForUser, mbind, M_bind, setDoc_merge, try_catch, updateDoc, modify. simpl.
  rewrite lookup_insert_eq. simpl. by rewrite insert_insert_eq.
Qed.

Lemma cleanTokens_arrayUnion (token : string) (role_ role' : option string)
    (bus bus' : value) (field : option (list value)) :
  token ≠ "" →
  cleanTokens (mkUser role_ bus (arrayUnion (Str token) field))
    = if bool_decide (Str token ∈ cleanTokens (mkUser role' bus' field))
      then cleanTokens (mkUser role' bus' field)
      else cleanTokens (mkUser role' bus' field) ++ [Str token].
Proof.
  intros Htoken. unfold cleanTokens, arrayUnion. simpl.
  assert (truthy (Str token) = true) as Htruthy by (simpl; by rewrite bool_decide_eq_false_2).
  destruct field as [array|]; simpl.
  - assert (Str token ∈ filter (λ t, truthy t = true) array ↔ Str token ∈ array) as Hiff.
    { rewrite list_elem_of_filter. tauto. }
    destruct (decide (Str token ∈ array)) as [Hin | Hin].
    + rewrite (bool_decide_eq_true_2 _ Hin). simpl. case_bool_decide; [done | tauto].
    + rewrite (bool_decide_eq_false_2 _ Hin). simpl. case_bool_decide; [tauto|].
      rewrite filter_app. f_equal. by rewrite filter_cons_True.
  - by rewrite filter_cons_True.
Qed.

Lemma filter_all_in {A : Type} (P : A → Prop) `{!∀ x, Decision (P x)} (l : list A) :
  (∀ x, x ∈ l → P x) → filter P l = l.
Proof.
  intros HP. induction l as [|x rest IH]; [done|].
  rewrite filter_cons_True by (apply HP; by left). rewrite IH; [done|].
  intros y Hy. apply HP. by right.
Qed.

Lemma registered_tokens (identifier token : string) (user : option ClientUser) (w : ClientWorld) :
  token ≠ "" →
  let before := default [] (cleanTokens <$> (users (server_view w) !! identifier)) in
  cleanTokens (shared (registered normalizeBusNumber clock token user (documents w !! identifier)))
    = if bool_decide (Str token ∈ before) then before else before ++ [Str token].
Proof.
  intros Htoken before. subst before. unfold registered, withToken. simpl. rewrite lookup_fmap.
  destruct (documents w !! identifier) as [[[role' bus' field] last_ stamp]|]; simpl.
  - by apply cleanTokens_arrayUnion.
  - by apply (cleanTokens_arrayUnion token _ None _ Undefined None).
Qed.

(** X25.  After [persistTokenForUser] the server reads the token among the
    user's tokens, once, after the tokens held before; the token is cached;
    the other documents are untouched; and when the user's role is a
    target role, the lookup by the normalised bus number returns the user
    with the token. *)
Theorem registered_token_reaches_server (lower : string → string) (identifier token : string)
    (user : option ClientUser) (w : ClientWorld) :
  identifier ≠ "" → token ≠ "" →
  let run := persistTokenForUser normalizeBusNumber clock identifier token user w in
  let before := default [] (cleanTokens <$> (users (server_view w) !! identifier)) in
  run.1 = Returned tt ∧
  cachedToken run.2 = Str token ∧
  (∀ other, other ≠ identifier → documents run.2 !! other = documents w !! other) ∧
  getTokensForUser identifier (server_view run.2)
    = (Returned (if bool_decide (Str token ∈ before) then before else before ++ [Str token]),
       server_view run.2) ∧
  (∀ bus, busNumberOf normalizeBusNumber user = Str bus →
     toLowerCase lower (roleOf user) ∈ TARGET_ROLES →
     ∃ recipients r,
       getRecipientsByBus lower bus (server_view run.2) = (Returned recipients, server_view run.2) ∧
       r ∈ recipients ∧ uid r = identifier ∧ Str token ∈ tokens r).
Proof.
  intros Hid Htoken run before. subst run. rewrite persistTokenForUser_run. simpl.
  split; [done|]. split; [done|]. split; [intros other ?; by rewrite lookup_insert_ne|].
  set (document := registered normalizeBusNumber clock token user (documents w !! identifier)).
  assert (users (server_view
            {| documents := <[identifier := document]> (documents w);
               cachedToken := Str token; client_console := client_console w |}) !! identifier
          = Some (shared document)) as Hlookup.
  { simpl. by rewrite lookup_fmap, lookup_insert_eq. }
  assert (cleanTokens (shared document)
          = if bool_decide (Str token ∈ before) then before else before ++ [Str token]) as Htokens
    by (by apply registered_tokens).
  assert (busNumber (shared document) = busNumberOf normalizeBusNumber user ∧
          role (shared document) = Some (roleOf user)) as [Hbus' Hrole'] by done.
  clearbody document. split.
  - unfold getTokensForUser. rewrite bool_decide_eq_false_2 by done.
    unfold mbind, M_bind, get. cbn beta iota. rewrite Hlookup. simpl. by rewrite Htokens.
  - intros bus Hbus Hrole.
    assert (bus ≠ "") as Hne.
    { intros ->. unfold busNumberOf, or in Hbus. by destruct (truthy _) eqn:E; [rewrite Hbus in E|]. }
    edestruct (getRecipientsByBus_complete lower _ bus identifier (shared document) Hne Hlookup)
      as (recipients & Hrun & Hin); [by rewrite Hbus' | by rewrite Hrole' |].
    exists recipients, (busRecipient lower identifier bus (shared document)).
    split; [exact Hrun|]. split; [exact Hin|]. split; [done|].
    simpl. rewrite Htokens. case_bool_decide; [done|]. apply elem_of_app. right. by left.
Qed.

Lemma arrayUnion_twice (element : value) (field : option (list value)) :
  arrayUnion element (arrayUnion element field) = arrayUnion element field.
Proof.
  unfold arrayUnion. destruct field as [array|].
  - destruct (decide (element ∈ array)) as [Hin | Hin].
    + by rewrite !(bool_decide_eq_true_2 _ Hin).
    + rewrite (bool_decide_eq_false_2 _ Hin).
      rewrite bool_decide_eq_true_2; [done|]. apply elem_of_app. right. by left.
  - rewrite bool_decide_eq_true_2; [done|]. by left.
Qed.

(** X26.  Registering the same token for the same user again changes nothing the
    server reads: the token is not listed twice. *)
Theorem registering_again_adds_nothing (identifier token : string) (user : option ClientUser)
    (w : ClientWorld) :
  let once := (persistTokenForUser normalizeBusNumber clock identifier token user w).2 in
  let twice := (persistTokenForUser normalizeBusNumber clock identifier token user once).2 in
  server_view twice = server_view once ∧ cachedToken twice = cachedToken once.
Proof.
  intros once twice. subst once twice. rewrite !persistTokenForUser_run. simpl.
  split; [|done]. unfold server_view. simpl. f_equal.
  rewrite lookup_insert_eq, insert_insert_eq, !fmap_insert. f_equal.
  unfold registered, withToken. simpl. by rewrite arrayUnion_twice.
Qed.

(** X27.  Registering a token and then pruning it on the server gives the user
    the tokens held before, without that token; a token that was new
    leaves no trace. *)
Theorem register_then_prune (identifier token : string) (user : option ClientUser) (w : ClientWorld) :
  identifier ≠ "" → token ≠ "" →
  let before := default [] (cleanTokens <$> (users (server_view w) !! identifier)) in
  let registered_ := (persistTokenForUser normalizeBusNumber clock identifier token user w).2 in
  let pruned_ := (removeTokens identifier [Str token] (server_view registered_)).2 in
  (getTokensForUser identifier pruned_).1 = Returned (filter (λ t, t ≠ Str token) before) ∧
  (Str token ∉ before → (getTokensForUser identifier pruned_).1 = Returned before).
Proof.
  intros Hid Htoken before registered_ pruned_.
  assert ((getTokensForUser identifier pruned_).1 = Returned (filter (λ t, t ≠ Str token) before)) as Hrun.
  { subst pruned_ registered_. rewrite persistTokenForUser_run.
    pose proof (registered_tokens identifier token user w Htoken) as Htokens.
    fold before in Htokens. cbv zeta in Htokens.
    set (document := registered normalizeBusNumber clock token user (documents w !! identifier)) in *. clearbody document.
    rewrite removeTokens_run by done. simpl. rewrite lookup_fmap, lookup_insert_eq. simpl.
    unfold getTokensForUser. rewrite bool_decide_eq_false_2 by done.
    unfold mbind, M_bind, get. simpl. rewrite lookup_insert_eq. simpl.
    rewrite cleanTokens_pruned, Htokens. f_equal.
    case_bool_decide as Hin; [done|]. rewrite filter_app.
    rewrite (filter_cons_False _ (Str token)) by (by intros H). by rewrite filter_nil, app_nil_r. }
  split; [exact Hrun|]. intros Hnew. rewrite Hrun. f_equal.
  apply filter_all_in. intros t Hin ->. done.
Qed.

End Persist.

(** A student of bus B-12 registers the token "tk9" on a device without
    documents: the trip-start lookup for B-12 finds the token. *)
Lemma registered_token_reaches_server_witness :
  let user := Some (mkClientUser (Some "Student") (Str "b-12") Undefined) in
  let normalise := λ v : value, match v with Str "b-12" => Str "B-12" | _ => v end in
  let run := persistTokenForUser normalise (λ _, "2025-01-01T08:00:00Z") "u7" "tk9" user
               (mkClientWorld ∅ Null []) in
  ∃ recipients r,
    getRecipientsByBus lower_letters "B-12" (server_view run.2)
      = (Returned recipients, server_view run.2) ∧
    r ∈ recipients ∧ uid r = "u7" ∧ Str "tk9" ∈ tokens r.
Proof.
  intros user normalise run.
  destruct (registered_token_reaches_server normalise (λ _, "2025-01-01T08:00:00Z") lower_letters
              "u7" "tk9" user
              (mkClientWorld ∅ Null []) ltac:(discriminate) ltac:(discriminate)) as (_ & _ & _ & _ & Hbus).
  apply Hbus; [reflexivity|]. apply (bool_decide_unpack _). by vm_compute.
Defined.

(** A user holding "tk1" registers "tk9", which the server then prunes. *)
Lemma register_then_prune_witness :
  let w := mkClientWorld (<["u7" := mkDocument (mkUser (Some "student") (Str "B-12") (Some [Str "tk1"]))
                                      (Str "tk1") Undefined]> ∅) Null [] in
  let registered_ := (persistTokenForUser (λ v, v) (λ _, "2025-01-01T08:00:00Z") "u7" "tk9" None w).2 in
  (getTokensForUser "u7" (removeTokens "u7" [Str "tk9"] (server_view registered_)).2).1
    = Returned [Str "tk1"].
Proof.
  intros w registered_.
  destruct (register_then_prune (λ v, v) (λ _, "2025-01-01T08:00:00Z") "u7" "tk9" None w
              ltac:(discriminate) ltac:(discriminate)) as [_ Hnew].
  apply Hnew. vm_compute. intros Hin. apply list_elem_of_singleton in Hin. discriminate Hin.
Defined.

End PushTokenFacts.


(* ===================================================================== *)
(** * Public ids and manifest entries *)
(* ===================================================================== *)

Module CloudinaryFacts.

Import Text RecipientRepository CloudinaryService.

Lemma replace_disallowed_allowed (s : string) : all_allowed (replace_disallowed s) = true.
Proof.
  unfold all_allowed. induction s as [|c rest IH]; [done|]. simpl.
  destruct (allowed c) eqn:Hc; simpl; [by rewrite Hc|].
  destruct (starts_disallowed rest); [done|]. simpl. by rewrite IH.
Qed.

Lemma replace_disallowed_id (s : string) : all_allowed s = true → replace_disallowed s = s.
Proof.
  unfold all_allowed. induction s as [|c rest IH]; [done|]. simpl.
  intros [Hc Hrest]%andb_true_iff. rewrite Hc. by rewrite IH.
Qed.

Lemma allowed_lower (c : Ascii.ascii) : allowed c = true → lower_ascii c = c.
Proof. by destruct c as [[] [] [] [] [] [] [] []]. Qed.

Lemma allowed_printable (c : Ascii.ascii) :
  allowed c = true → ((32 <? Ascii.N_of_ascii c) && (Ascii.N_of_ascii c <? 127))%N = true.
Proof. by destruct c as [[] [] [] [] [] [] [] []]. Qed.

Lemma allowed_ascii (c : Ascii.ascii) : allowed c = true → (Ascii.N_of_ascii c <? 128)%N = true.
Proof. by destruct c as [[] [] [] [] [] [] [] []]. Qed.

Lemma toLowerCase_id (lower : string → string) (s : string) :
  all_allowed s = true → toLowerCase lower s = s.
Proof.
  unfold all_allowed, toLowerCase, ascii_only. intros Hs.
  assert (forallb (λ c, (Ascii.N_of_ascii c <? 128)%N) (String.list_ascii_of_string s) = true) as ->.
  { apply forallb_forall. intros c Hc. apply allowed_ascii.
    by apply (proj1 (forallb_forall _ _) Hs). }
  revert Hs. induction s as [|c rest IH]; [done|]. simpl.
  intros [Hc Hrest]%andb_true_iff. by rewrite allowed_lower, IH.
Qed.

Lemma trim_start_list_id (l : list Ascii.ascii) :
  forallb allowed l = true → trim_start_list l = l.
Proof.
  destruct l as [|c rest]; [done|]. simpl. intros [Hc _]%andb_true_iff.
  by apply TextFacts.trim_start_list_keeps, allowed_printable.
Qed.

Lemma trim_end_list_id (l : list Ascii.ascii) :
  forallb allowed l = true → trim_end_list l = l.
Proof.
  induction l as [|c l _] using rev_ind; [done|]. rewrite forallb_app. simpl.
  intros [_ [Hc _]%andb_true_iff]%andb_true_iff.
  by apply TextFacts.trim_end_list_keeps, allowed_printable.
Qed.

Lemma trim_id (s : string) : all_allowed s = true → trim s = s.
Proof.
  unfold all_allowed, trim. intros Hs.
  rewrite (trim_start_list_id _ Hs), (trim_end_list_id _ Hs).
  apply String.string_of_list_ascii_of_string.
Qed.

(** X28.  A public id that [sanitizePublicId] returns is not empty, is made of
    lower-case letters, digits, hyphens and underscores only, and is left
    as it is when it is sanitised again. *)
Theorem sanitizePublicId_alphabet (lower : string → string) (value_ id_ : string) :
  sanitizePublicId lower value_ = Some id_ →
  id_ ≠ "" ∧ all_allowed id_ = true ∧ sanitizePublicId lower id_ = Some id_.
Proof.
  unfold sanitizePublicId. case_bool_decide as Hvalue; [done|].
  case_bool_decide as Hempty; [done|]. intros [= <-].
  set (id_ := replace_disallowed _) in *.
  assert (all_allowed id_ = true) as Hallowed by apply replace_disallowed_allowed.
  split; [done|]. split; [done|].
  rewrite bool_decide_eq_false_2 by done.
  rewrite trim_id, toLowerCase_id, replace_disallowed_id by done.
  by rewrite bool_decide_eq_false_2.
Qed.

(** A label with spaces, capitals and punctuation. *)
Lemma sanitizePublicId_alphabet_witness :
  sanitizePublicId lower_letters "  Bus 21/Driver #7 " = Some "bus-21-driver-7" ∧
  sanitizePublicId lower_letters "bus-21-driver-7" = Some "bus-21-driver-7".
Proof.
  assert (sanitizePublicId lower_letters "  Bus 21/Driver #7 " = Some "bus-21-driver-7") as Hrun
    by (by vm_compute).
  split; [exact Hrun|].
  by destruct (sanitizePublicId_alphabet lower_letters "  Bus 21/Driver #7 " "bus-21-driver-7" Hrun)
    as (_ & _ & ?).
Defined.

End CloudinaryFacts.

Module AppConfigFacts.

Import AppConfig.

Lemma filter_none {A : Type} (P : A → Prop) `{!∀ x, Decision (P x)} (l : list A) :
  (∀ x, x ∈ l → ¬ P x) → filter P l = [].
Proof.
  intros HP. induction l as [|x rest IH]; [done|].
  rewrite filter_cons_False by (apply HP; by left). apply IH. intros y Hy. apply HP. by right.
Qed.

Section Replace.

Variable name : string.
Variable entry : MetaData.
Hypothesis entry_name : attribute "android:name" entry = Some name.

Lemma replaceMeta_named (manifest : Manifest) :
  is_Some (application manifest) → named name (replaceMeta name entry manifest) = [entry].
Proof.
  intros [existingMeta Happ]. unfold named, metaData, replaceMeta. rewrite Happ. simpl.
  rewrite filter_app, list_filter_filter.
  rewrite (filter_none (λ e, _ ∧ _)) by (intros e _ [? ?]; done).
  by rewrite filter_cons_True.
Qed.

Lemma replaceMeta_others (other : string) (manifest : Manifest) :
  other ≠ name → named other (replaceMeta name entry manifest) = named other manifest.
Proof.
  intros Hother. unfold named, metaData, replaceMeta.
  destruct (application manifest) as [existingMeta|]; simpl; [|done].
  rewrite filter_app, list_filter_filter.
  rewrite (filter_cons_False _ entry) by (rewrite entry_name; congruence).
  rewrite filter_nil, app_nil_r. apply list_filter_iff. intros e. split; [tauto|].
  intros He. split; [done|]. rewrite He. congruence.
Qed.

Lemma replaceMeta_twice (manifest : Manifest) :
  replaceMeta name entry (replaceMeta name entry manifest) = replaceMeta name entry manifest.
Proof.
  unfold replaceMeta. simpl. f_equal.
  - unfold withTools. destruct (xmlns_tools manifest) as [tools|]; [|done].
    case_bool_decide; [done|]. by rewrite bool_decide_eq_false_2.
  - destruct (application manifest) as [existingMeta|]; simpl; [|done]. do 3 f_equal.
    rewrite filter_app, list_filter_filter.
    rewrite (filter_cons_False _ entry) by (rewrite entry_name; by intros H).
    rewrite filter_nil, app_nil_r. apply list_filter_iff. tauto.
Qed.

End Replace.

Section Plugins.

Variable ANDROID_MAPS_API_KEY : string.

(** X29.  The manifest plugins.  Run once, twice or one after the other in
    either order on a manifest with an application element, they leave
    exactly one Google Maps key entry, with the configured key, and exactly
    one notification colour entry; the entries of other names are kept in
    their order; running a plugin again changes nothing; and the
    [xmlns:tools] attribute is set afterwards. *)
Theorem manifest_plugins_keep_one_entry (manifest : Manifest) :
  let maps := withGoogleMapsMeta ANDROID_MAPS_API_KEY in
  let colour := withSingleFcmColorMeta in
  (is_Some (application manifest) →
     named GEO_API_KEY (maps manifest) = [mapsMeta ANDROID_MAPS_API_KEY] ∧
     named FCM_COLOR (colour manifest) = [fcmColorMeta] ∧
     named GEO_API_KEY (maps (colour manifest)) = [mapsMeta ANDROID_MAPS_API_KEY] ∧
     named FCM_COLOR (maps (colour manifest)) = [fcmColorMeta] ∧
     named GEO_API_KEY (colour (maps manifest)) = [mapsMeta ANDROID_MAPS_API_KEY] ∧
     named FCM_COLOR (colour (maps manifest)) = [fcmColorMeta]) ∧
  (∀ other, other ≠ GEO_API_KEY → other ≠ FCM_COLOR →
     named other (maps (colour manifest)) = named other manifest ∧
     named other (colour (maps manifest)) = named other manifest) ∧
  maps (maps manifest) = maps manifest ∧
  colour (colour manifest) = colour manifest ∧
  (∃ tools, xmlns_tools (maps manifest) = Some tools ∧ tools ≠ "") ∧
  (application manifest = None → metaData (maps (colour manifest)) = []).
Proof.
  intros maps colour. subst maps colour. unfold withGoogleMapsMeta, withSingleFcmColorMeta.
  assert (is_Some (application manifest) →
          ∀ name entry, is_Some (application (replaceMeta name entry manifest))) as Hkeeps.
  { intros [existingMeta Happ] name entry. unfold replaceMeta. rewrite Happ. simpl. eauto. }
  split_and!.
  - intros Happ. split_and!.
    + by apply replaceMeta_named.
    + by apply replaceMeta_named.
    + apply replaceMeta_named; [done|]. by apply Hkeeps.
    + rewrite replaceMeta_others by done. by apply replaceMeta_named.
    + rewrite replaceMeta_others by done. by apply replaceMeta_named.
    + apply replaceMeta_named; [done|]. by apply Hkeeps.
  - intros other Hmaps Hcolour. by rewrite !replaceMeta_others.
  - by apply replaceMeta_twice.
  - by apply replaceMeta_twice.
  - simpl. unfold withTools. destruct (xmlns_tools manifest) as [tools|]; [|by eexists].
    case_bool_decide; by eexists.
  - intros Happ. unfold metaData, replaceMeta. simpl. by rewrite Happ.
Qed.

End Plugins.

(** A manifest that already has a key entry and another entry. *)
Lemma manifest_plugins_keep_one_entry_witness :
  let manifest :=
    mkManifest None
      (Some (Some [[("android:name", GEO_API_KEY); ("android:value", "old-key")];
                   [("android:name", "expo.modules.updates.ENABLED"); ("android:value", "false")]])) in
  named GEO_API_KEY (withGoogleMapsMeta "new-key" manifest) = [mapsMeta "new-key"].
Proof.
  intros manifest.
  destruct (manifest_plugins_keep_one_entry "new-key" manifest) as [Hone _].
  by destruct Hone as [? _]; [eexists|].
Defined.

End AppConfigFacts.
